(** * Equity enrichment pipeline: retry wrapper, enrichers, database gateway
      and orchestrator, embedded as state-passing programs with a trace. *)

From Stdlib Require Import ZArith Ascii String List Floats Uint63.
From Stdlib Require OrderedTypeEx.
From stdpp Require Import gmap strings list sorting.

Set Warnings "-register-all".

Local Open Scope string_scope.
Local Open Scope list_scope.
Local Open Scope Z_scope.

(** ** Python values *)

(** The values that travel through company records and enrichment results. *)
Inductive pyval : Type :=
  | VNone
  | VBool (b : bool)
  | VInt (z : Z)
  | VFloat (f : float)
  | VStr (s : string)
  | VList (l : list pyval)
  | VDict (d : gmap string pyval).

(** A Python [Dict[str, Any]]. *)
Abbreviation dict := (gmap string pyval).

(** Truth value of an object, as tested by [if x], [not x], [x and y]. *)
Definition truthy (v : pyval) : bool :=
  match v with
  | VNone => false
  | VBool b => b
  | VInt z => negb (z =? 0)
  | VFloat f => negb (PrimFloat.eqb f 0%float)
  | VStr s => negb (String.eqb s "")
  | VList l => negb (Nat.eqb (length l) 0)
  | VDict d => negb (Nat.eqb (size d) 0)
  end.

Definition is_none (v : pyval) : bool :=
  match v with VNone => true | _ => false end.

(** [d.get(k)]: the value, or [None] when the key is missing. *)
Definition dict_get (d : dict) (k : string) : pyval :=
  default VNone (d !! k).

(** [d.get(k, dflt)] *)
Definition dict_get_default (d : dict) (k : string) (dflt : pyval) : pyval :=
  default dflt (d !! k).

(** [d1.update(d2)]: entries of [d2] overwrite those of [d1]. *)
Definition dict_update (d1 d2 : dict) : dict := d2 ∪ d1.

(** [{k: v for k, v in d.items() if v is not None}] *)
Definition clean_none (d : dict) : dict :=
  filter (λ kv, is_none kv.2 = false) d.

(** [range(n)] *)
Definition py_range (n : Z) : list Z := Z.of_nat <$> seq 0 (Z.to_nat n).

(** ** Exceptions, log records and the trace *)

Inductive exn : Type :=
  | Exception (msg : string)
  | TypeError (msg : string)
  | AttributeError (msg : string)
  | IndexError (msg : string)
  | KeyError (msg : string)
  | JSONDecodeError (msg : string)
  | ValueError (msg : string)
  | OverflowError (msg : string)
  | NotImplementedError.

Inductive level : Type := DEBUG | INFO | WARNING | ERROR.

(** One constructor per logging call site; the arguments are the values
    interpolated into the message. *)
Inductive message : Type :=
  (* enrichers/base.py *)
  | AttemptFailed (attempt : Z) (func_name : string) (e : exn)
  | AllAttemptsFailed (attempts : Z) (func_name : string)
  (* database.py *)
  | FetchedCompanies (n : nat)
  | UpdatedCompany (ticker : pyval) (fields : nat)
  | FailedToUpdate (ticker : pyval) (e : exn)
  | LogsTableMightNotExist
  (* main.py *)
  | StartingPipeline
  | TotalCompanies (n : nat)
  | Processing (ticker : pyval) (position : Z) (total : nat)
  | FailedToProcess (ticker : pyval) (e : exn)
  | PipelineCompleted (processed : Z) (total : nat) (duration : float)
  | EnricherFailed (name : string) (ticker : pyval) (e : exn)
  | SavingRecords (n : nat)
  | FailedToSaveBuffer (e : exn)
  (* enrichers/yahoo_finance.py, isin.py, sector_classification.py *)
  | YahooEnriching (ticker : pyval)
  | YahooFailed (ticker : pyval) (e : exn)
  | IsinFetching (ticker : pyval)
  | IsinFailed (ticker : pyval) (e : exn)
  | BicsFetching (ticker : pyval)
  (* enrichers/sec_filings.py *)
  | SecFetching (ticker raw_ticker : pyval)
  | SecNotFound (ticker : pyval)
  | SecFailed (ticker : pyval) (e : exn)
  | FilingFailed (e : exn)
  | StoreFilingsFailed (ticker : pyval) (e : exn)
  | ConnectedToSupabase
  (* enrichers/llm_investor_information.py *)
  | LlmFetching (company_name ticker : pyval)
  | LlmExtracted (ticker : pyval)
  | LlmNoData (ticker : pyval)
  | LlmFailed (ticker : pyval) (e : exn)
  | LlmNotDict (data : pyval)
  | LlmJsonError (e : exn)
  | LlmRawResponse (text : string)
  | LlmParseError (e : exn).

(** What the program does to the outside: log records, sleeps and calls
    to external services (providers, the database client). *)
Inductive event : Type :=
  | Log (lvl : level) (msg : message)
  | Sleep (seconds : float)
  | Call (service : string) (args : list pyval).

Definition is_warning (ev : event) : bool :=
  match ev with Log WARNING _ => true | _ => false end.

Definition is_error (ev : event) : bool :=
  match ev with Log ERROR _ => true | _ => false end.

Definition is_call (ev : event) : bool :=
  match ev with Call _ _ => true | _ => false end.

Definition count_events (p : event → bool) (tr : list event) : nat :=
  length (filter (λ ev, p ev = true) tr).

(** ** Computations: state passing, exceptions, write-only trace *)

Inductive outcome (A : Type) : Type :=
  | Ok (a : A)
  | Raise (e : exn).
Arguments Ok {A} a.
Arguments Raise {A} e.

Definition is_ok {A} (o : outcome A) : bool :=
  match o with Ok _ => true | Raise _ => false end.

(** A computation over a state [S]: it ends with a value or an exception,
    the state reached either way, and the events emitted on the way. *)
Definition M (S A : Type) : Type := S → outcome A * S * list event.

Module Comp.

Definition ret {S A} (a : A) : M S A := λ s, (Ok a, s, []).

Definition raise {S A} (e : exn) : M S A := λ s, (Raise e, s, []).

Definition bind {S A B} (m : M S A) (k : A → M S B) : M S B :=
λ s, match m s with
     | (Ok a, s1, tr1) =>
         match k a s1 with (r, s2, tr2) => (r, s2, tr1 ++ tr2) end
     | (Raise e, s1, tr1) => (Raise e, s1, tr1)
     end.

(** [try: m except Exception as e: h e] *)
Definition try_except {S A} (m : M S A) (h : exn → M S A) : M S A :=
λ s, match m s with
     | (Ok a, s1, tr1) => (Ok a, s1, tr1)
     | (Raise e, s1, tr1) =>
         match h e s1 with (r, s2, tr2) => (r, s2, tr1 ++ tr2) end
     end.

(** Run [m] and hand its outcome, raised or returned, to the continuation. *)
Definition catch {S A} (m : M S A) : M S (outcome A) :=
λ s, match m s with (r, s1, tr) => (Ok r, s1, tr) end.

Definition emit {S} (ev : event) : M S unit := λ s, (Ok tt, s, [ev]).

Definition get {S} : M S S := λ s, (Ok s, s, []).

Definition modify {S} (f : S → S) : M S unit := λ s, (Ok tt, f s, []).

(** Run a computation on a component of a larger state. *)
Definition zoom {S T A} (proj : T → S) (upd : S → T → T) (m : M S A) : M T A :=
λ t, match m (proj t) with (r, s1, tr) => (r, upd s1 t, tr) end.

(** An operation on the state that leaves no record in the trace. *)
Definition run_op {S A} (op : S → outcome A * S) : M S A :=
λ s, match op s with (r, s1) => (r, s1, []) end.

(** Call to an external service: the call is recorded in the trace. *)
Definition call_service {S A} (service : string) (args : list pyval)
  (op : S → outcome A * S) : M S A :=
λ s, match op s with (r, s1) => (r, s1, [Call service args]) end.

End Comp.
Import Comp.

Global Instance M_ret {S} : MRet (M S) := λ A, @ret S A.
Global Instance M_bind {S} : MBind (M S) := λ A B k m, @bind S A B m k.

Definition log {S} (lvl : level) (msg : message) : M S unit := emit (Log lvl msg).

(** [for x in xs: acc = body acc x], stopping at the first exception. *)
Fixpoint for_fold {S X B} (body : B → X → M S B) (xs : list X) (acc : B) : M S B :=
  match xs with
  | [] => mret acc
  | x :: rest => acc' ← body acc x; for_fold body rest acc'
  end.

(** [for x in xs: body x] *)
Definition for_each {S X} (body : X → M S unit) (xs : list X) : M S unit :=
  for_fold (λ _ x, body x) xs tt.

(** [enumerate(xs)] *)
Definition enumerate {X} (xs : list X) : list (Z * X) :=
  zip (py_range (Z.of_nat (length xs))) xs.

(** Projections of a run. *)
Definition result_of {A S} (r : outcome A * S * list event) : outcome A := r.1.1.
Definition state_of {A S} (r : outcome A * S * list event) : S := r.1.2.
Definition trace_of {A S} (r : outcome A * S * list event) : list event := r.2.

(** ** enrichers/base.py: the retry decorator *)

(** The double nearest to an integer, ties to even (infinite when the
    integer is beyond the doubles). *)
Definition to_float (z : Z) : float := SF2Prim (binary_normalize prec emax z 0 false).

(** Conversion of a Python int to float, as done by [float * int]: an int
    beyond the doubles raises. *)
Definition float_of_int (z : Z) : outcome float :=
  if is_infinity (to_float z)
  then Raise (OverflowError "int too large to convert to float")
  else Ok (to_float z).

(** [x * n] for a float [x] and an int [n] *)
Definition float_mul_int (x : float) (n : Z) : outcome float :=
  match float_of_int n with
  | Ok f => Ok (x * f)%float
  | Raise e => Raise e
  end.

(** What [time.sleep] accepts: a number of seconds that is not NaN, whose
    count of nanoseconds fits a signed 64-bit integer, and that is not
    negative; checked in this order. *)
Definition check_sleep (secs : float) : outcome unit :=
  if is_nan secs then Raise (ValueError "Invalid value NaN (not a number)")
  else
    let ns := (secs * 1e9)%float in
    if negb ((-0x1p63 <=? ns)%float && (ns <? 0x1p63)%float)
    then Raise (OverflowError "timestamp too large to convert to C PyTime_t")
    else if (secs <? 0)%float
    then Raise (ValueError "sleep length must be non-negative")
    else Ok tt.

Definition lift_outcome {S A} (o : outcome A) : M S A := λ s, (o, s, []).

(** [time.sleep(secs)] *)
Definition time_sleep {S} (secs : float) : M S unit :=
  lift_outcome (check_sleep secs) ;; emit (Sleep secs).

Section retry.
Context {S A : Type}.
Variable max_retries : Z.
Variable delay : float.
Variable func_name : string.
Variable func : M S A.

(** The body of [for attempt in range(max_retries + 1)], with the
    [raise last_exception] that follows the loop. *)
Fixpoint retry_loop (attempts : list Z) (last_exception : option exn) : M S A :=
  match attempts with
  | [] =>
      match last_exception with
      | Some e => raise e
      | None => raise (TypeError "exceptions must derive from BaseException")
      end
  | attempt :: rest =>
      r ← catch func;
      match r with
      | Ok a => mret a
      | Raise e =>
          (if attempt <? max_retries
           then log WARNING (AttemptFailed (attempt + 1) func_name e) ;;
                secs ← lift_outcome (float_mul_int delay (attempt + 1));
                time_sleep secs
           else log ERROR (AllAttemptsFailed (max_retries + 1) func_name)) ;;
          retry_loop rest (Some e)
      end
  end.

Definition retry_on_failure : M S A :=
  retry_loop (py_range (max_retries + 1)) None.
End retry.

(** *** Observing successive invocations of an operation *)

Section attempts.
Context {S A : Type}.
Variable func : M S A.

(** The state after [n] invocations of [func], each started where the
    previous one ended. *)
Fixpoint state_after (n : nat) (s : S) : S :=
  match n with
  | O => s
  | Datatypes.S n' => state_after n' (state_of (func s))
  end.

(** Outcome of invocation number [n] (counting from 0). *)
Definition nth_attempt (n : nat) (s : S) : outcome A :=
  result_of (func (state_after n s)).

(** What the operation itself records over its first [n] invocations. *)
Fixpoint attempts_trace (n : nat) (s : S) : list event :=
  match n with
  | O => []
  | Datatypes.S n' => trace_of (func s) ++ attempts_trace n' (state_of (func s))
  end.
End attempts.

(** The pause after failed attempt number [i] (from 0) is one the wrapper
    can take: [delay * (i + 1)] is a float and [time.sleep] accepts it. *)
Definition valid_pause (delay : float) (i : nat) : bool :=
  match float_mul_int delay (Z.of_nat i + 1) with
  | Ok secs => is_ok (check_sleep secs)
  | Raise _ => false
  end.

(** An operation instrumented with an invocation counter. *)
Definition counted {S A} (func : M S A) : M (S * nat) A :=
  λ '(s, n), match func s with (r, s1, tr) => (r, (s1, Datatypes.S n), tr) end.

(** ** config.py *)

Record Config : Type := {
  batch_size : Z;
  save_frequency : Z;
  max_retries : Z;
  retry_delay : float;
  filings_lookback_days : Z;
}.

Definition default_config : Config :=
  {| batch_size := 10; save_frequency := 5; max_retries := 2;
     retry_delay := 1%float; filings_lookback_days := 365 |}.

(** ** The outside world *)

(** What the pipeline reaches through the Supabase client and the clock.
    [E] is the state of the outside world; every operation may change it,
    and the database operations may fail. Time is counted in microseconds. *)
Record services (E : Type) : Type := {
  clock : E → Z * E;
  isoformat : Z → string;
  (* [table('companies_bbt').select('*')], with [.limit(n)] when given *)
  db_select : option Z → E → outcome (list dict) * E;
  (* [table('companies_bbt').update(updates).eq('Ticker', ticker)] *)
  db_update : pyval → dict → E → outcome unit * E;
  (* [table('enrichment_logs').insert(log_entry)] *)
  db_insert_log : dict → E → outcome unit * E;
}.
Arguments clock {E}.
Arguments isoformat {E}.
Arguments db_select {E}.
Arguments db_update {E}.
Arguments db_insert_log {E}.

(** [datetime.now()] *)
Definition now {E} (env : services E) : M E Z :=
  λ e, match clock env e with (t, e1) => (Ok t, e1, []) end.

(** [(t1 - t0).total_seconds()] *)
Definition total_seconds (t0 t1 : Z) : float :=
  (to_float (t1 - t0) / 1000000)%float.

Definition opt_int (o : option Z) : pyval :=
  match o with Some z => VInt z | None => VNone end.

(** ** database.py *)

Module DatabaseManager.
Section db.
Context {E : Type}.
Variable env : services E.

Definition fetch_companies (limit : option Z) : M E (list dict) :=
  let query := if truthy (opt_int limit) then limit else None in
  data ← call_service "companies_bbt.select" [opt_int query] (db_select env query);
  log INFO (FetchedCompanies (length data)) ;;
  mret data.

Definition update_company (ticker : pyval) (updates : dict) : M E unit :=
  try_except
    (call_service "companies_bbt.update" [ticker; VDict updates]
       (db_update env ticker updates) ;;
     log DEBUG (UpdatedCompany ticker (size updates)))
    (λ e, log ERROR (FailedToUpdate ticker e) ;; raise e).

Definition batch_update_companies (updates : list dict) : M E unit :=
  for_each (λ update : dict,
      match update !! "Ticker" with
      | Some ticker => update_company ticker update
      | None => mret tt
      end) updates.

Definition create_enrichment_log (log_entry : dict) : M E unit :=
  try_except
    (call_service "enrichment_logs.insert" [VDict log_entry]
       (db_insert_log env log_entry))
    (λ _, log WARNING LogsTableMightNotExist).
End db.
End DatabaseManager.

(** ** main.py: the orchestrator *)

(** An enricher instance as the orchestrator sees it: its [name] and its
    (retry-wrapped) [enrich] method. *)
Record enricher (E : Type) : Type := {
  name : string;
  enrich : dict → M E dict;
}.
Arguments name {E}.
Arguments enrich {E}.

(** The mutable fields of an [EnrichmentPipeline], with the world it acts on. *)
Record pipeline (E : Type) : Type := {
  results_buffer : list dict;
  processed_count : Z;
  world : E;
}.
Arguments results_buffer {E}.
Arguments processed_count {E}.
Arguments world {E}.

Definition new_pipeline {E} (e : E) : pipeline E :=
  {| results_buffer := []; processed_count := 0; world := e |}.

(** [str(e)] for the exceptions of this model. *)
Definition exn_str (e : exn) : string :=
  match e with
  | Exception m | TypeError m | AttributeError m | IndexError m | KeyError m
  | JSONDecodeError m | ValueError m | OverflowError m => m
  | NotImplementedError => ""
  end.

Module EnrichmentPipeline.
Section orchestrator.
Context {E : Type}.
Variable config : Config.
Variable env : services E.
Variable enrichers : list (enricher E).

Definition set_world (w : E) (p : pipeline E) : pipeline E :=
  {| results_buffer := results_buffer p;
     processed_count := processed_count p;
     world := w |}.

Definition with_buffer (b : list dict) (p : pipeline E) : pipeline E :=
  {| results_buffer := b;
     processed_count := processed_count p;
     world := world p |}.

Definition bump_processed (p : pipeline E) : pipeline E :=
  {| results_buffer := results_buffer p;
     processed_count := processed_count p + 1;
     world := world p |}.

(** A computation on the world, run from inside the pipeline. *)
Definition in_world {A} (m : M E A) : M (pipeline E) A :=
  zoom world set_world m.

Definition set_buffer (b : list dict) : M (pipeline E) unit :=
  modify (with_buffer b).

Definition incr_processed : M (pipeline E) unit :=
  modify bump_processed.

(** The body of [for enricher in self.enrichers]. *)
Definition enrich_step (company : dict) (enriched_data : dict) (en : enricher E)
    : M E dict :=
  r ← catch (enrich en company);
  match r with
  | Ok result => mret (dict_update enriched_data result)
  | Raise e =>
      log WARNING (EnricherFailed (name en) (dict_get company "Ticker") e) ;;
      mret enriched_data
  end.

Definition _enrich_company (company : dict) : M E dict :=
  for_fold (enrich_step company) enrichers ∅.

Definition _save_buffer : M (pipeline E) unit :=
  p ← get;
  match results_buffer p with
  | [] => mret tt
  | _ :: _ =>
      log INFO (SavingRecords (length (results_buffer p))) ;;
      try_except
        (in_world (DatabaseManager.batch_update_companies env (results_buffer p)) ;;
         set_buffer [])
        (λ e, log ERROR (FailedToSaveBuffer e))
  end.

Definition _log_enrichment_error (ticker : pyval) (error : string) : M (pipeline E) unit :=
  t ← in_world (now env);
  let log_entry : dict :=
    {[ "ticker" := ticker; "error" := VStr error;
       "timestamp" := VStr (isoformat env t); "enricher" := VStr "pipeline" ]} in
  in_world (DatabaseManager.create_enrichment_log env log_entry).

(** Lines 83-90 of [run]: buffer the aggregate, flush at the threshold. *)
Definition buffer_result (ticker : pyval) (enriched_data : dict) : M (pipeline E) unit :=
  (if negb (Nat.eqb (size enriched_data) 0) then
     t ← in_world (now env);
     p ← get;
     set_buffer (results_buffer p ++
                 [<["last_enriched" := VStr (isoformat env t)]>
                    (<["Ticker" := ticker]> enriched_data)])
   else mret tt) ;;
  p ← get;
  if Z.of_nat (length (results_buffer p)) >=? save_frequency config
  then _save_buffer
  else mret tt.

(** The body of [for idx, company in enumerate(companies)]. *)
Definition run_body (total_companies : nat) (ic : Z * dict) : M (pipeline E) unit :=
  let '(idx, company) := ic in
  let ticker := dict_get_default company "Ticker" (VStr "Unknown") in
  log INFO (Processing ticker (idx + 1) total_companies) ;;
  try_except
    (enriched_data ← in_world (_enrich_company company);
     buffer_result ticker enriched_data ;;
     incr_processed)
    (λ e, log ERROR (FailedToProcess ticker e) ;;
          _log_enrichment_error ticker (exn_str e)).

Definition run_loop (companies : list dict) : M (pipeline E) unit :=
  for_each (run_body (length companies)) (enumerate companies).

Definition run (limit : option Z) : M (pipeline E) unit :=
  log INFO StartingPipeline ;;
  start_time ← in_world (now env);
  companies ← in_world (DatabaseManager.fetch_companies env limit);
  let total_companies := length companies in
  log INFO (TotalCompanies total_companies) ;;
  run_loop companies ;;
  p ← get;
  (match results_buffer p with
   | [] => mret tt
   | _ :: _ => _save_buffer
   end) ;;
  end_time ← in_world (now env);
  p ← get;
  log INFO (PipelineCompleted (processed_count p) total_companies
              (total_seconds start_time end_time)).
End orchestrator.
End EnrichmentPipeline.

(** ** String helpers used by the enrichers *)

(** A [str] is represented by its UTF-8 encoding, one [ascii] per byte. *)

(** A byte [10xxxxxx], which continues a character. *)
Definition is_continuation (c : ascii) : bool :=
  let n := N_of_ascii c in ((128 <=? n) && (n <? 192))%N.

(** The characters of a string: each leading byte with the continuation
    bytes that follow it. *)
Fixpoint chars (l : list ascii) : list (list ascii) :=
  match l with
  | [] => []
  | c :: l' =>
      match l' with
      | d :: _ =>
          if is_continuation d
          then match chars l' with
               | ch :: chs => (c :: ch) :: chs
               | [] => [[c]]
               end
          else [c] :: chars l'
      | [] => [[c]]
      end
  end.

(** The code point a character encodes. *)
Definition code_point (ch : list ascii) : option N :=
  match N_of_ascii <$> ch with
  | [b] => if (b <? 128)%N then Some b else None
  | [b1; b2] =>
      if ((192 <=? b1) && (b1 <? 224))%N
      then Some ((b1 - 192) * 64 + (b2 - 128))%N else None
  | [b1; b2; b3] =>
      if ((224 <=? b1) && (b1 <? 240))%N
      then Some ((b1 - 224) * 4096 + (b2 - 128) * 64 + (b3 - 128))%N else None
  | [b1; b2; b3; b4] =>
      if ((240 <=? b1) && (b1 <? 248))%N
      then Some ((b1 - 240) * 262144 + (b2 - 128) * 4096 + (b3 - 128) * 64
                 + (b4 - 128))%N
      else None
  | _ => None
  end.

(** The code points [str.isspace] accepts: U+0009-000D, U+001C-0020,
    U+0085, U+00A0, U+1680, U+2000-200A, U+2028, U+2029, U+202F, U+205F and
    U+3000. *)
Definition whitespace : list N :=
  [9; 10; 11; 12; 13; 28; 29; 30; 31; 32; 133; 160; 5760;
   8192; 8193; 8194; 8195; 8196; 8197; 8198; 8199; 8200; 8201; 8202;
   8232; 8233; 8239; 8287; 12288]%N.

(** White space, as stripped and split on by [str.strip()] and
    [str.split()]. *)
Definition is_space (ch : list ascii) : bool :=
  match code_point ch with
  | Some n => existsb (N.eqb n) whitespace
  | None => false
  end.

Fixpoint split_words (l cur : list (list ascii)) : list (list ascii) :=
  match l with
  | [] => match cur with [] => [] | _ => [concat (reverse cur)] end
  | c :: l' =>
      if is_space c
      then match cur with
           | [] => split_words l' []
           | _ => concat (reverse cur) :: split_words l' []
           end
      else split_words l' (c :: cur)
  end.

(** [s.split()] *)
Definition py_split (s : string) : list string :=
  string_of_list_ascii <$> split_words (chars (list_ascii_of_string s)) [].

Fixpoint lstrip (l : list (list ascii)) : list (list ascii) :=
  match l with
  | c :: l' => if is_space c then lstrip l' else l
  | [] => []
  end.

(** [s.strip()] *)
Definition py_strip (s : string) : string :=
  string_of_list_ascii
    (concat (reverse (lstrip (reverse (lstrip (chars (list_ascii_of_string s))))))).

(** [len(s)] *)
Definition str_len (s : string) : nat := length (chars (list_ascii_of_string s)).

(** [s.endswith(suffix)], for a suffix of ASCII characters *)
Definition endswith (s suffix : string) : bool :=
  let n := String.length s in
  let k := String.length suffix in
  (k <=? n)%nat && String.eqb (String.substring (n - k) k s) suffix.

(** [s[k:]] and [s[:-k]] for [k > 0], where the [k] characters dropped
    are ASCII *)
Definition drop_prefix (k : nat) (s : string) : string :=
  String.substring k (String.length s - k) s.
Definition drop_suffix (k : nat) (s : string) : string :=
  String.substring 0 (String.length s - k) s.

(** [len(x)] *)
Definition py_len (v : pyval) : outcome Z :=
  match v with
  | VStr s => Ok (Z.of_nat (str_len s))
  | VList l => Ok (Z.of_nat (length l))
  | VDict d => Ok (Z.of_nat (size d))
  | _ => Raise (TypeError "object has no len()")
  end.

(** [a or b] *)
Definition py_or (a b : pyval) : pyval := if truthy a then a else b.

(** ** enrichers/base.py: BaseEnricher *)

Module BaseEnricher.
(** ['Ticker' in company and company['Ticker']] *)
Definition validate_input (company : dict) : pyval :=
  match company !! "Ticker" with
  | None => VBool false
  | Some ticker => ticker
  end.

Definition enrich {E} (company : dict) : M E dict :=
  retry_on_failure 2 1%float "enrich" (raise NotImplementedError).
End BaseEnricher.

(** ** The data providers *)

(** Snapshot of the attributes [_process_filings] reads from one filing.
    Attributes guarded by [hasattr] or by a truth test carry [VNone] (or
    [None] for the attachments) when the guard fails. *)
Record filing : Type := {
  form : string;
  filing_date : option string;        (* already in ISO format *)
  accession_number : pyval;
  url : pyval;
  document_url : pyval;
  viewer_url : pyval;
  file_number : pyval;
  filing_size : pyval;
  attachments : option (list (string * pyval));   (* document type, url *)
}.

(** What [Company(ticker)] returns when the company is known. *)
Record edgar_entity : Type := {
  cik : pyval;
  entity_name : pyval;
}.

(** The external collaborators of the enrichers. Reading a filing may
    itself fail, so a filing is delivered as an operation on the world. *)
Record providers (E : Type) : Type := {
  (* [yf.Ticker(ticker).info] *)
  yf_info : pyval → E → outcome dict * E;
  (* [stock.history(period="3mo")]: [None] for an empty frame, otherwise
     the means of the Volume and Close columns *)
  yf_history : pyval → E → outcome (option (float * float)) * E;
  (* [Company(ticker)] *)
  edgar_company : string → E → outcome (option edgar_entity) * E;
  (* [company.get_filings(form=forms).filter(date=range)] *)
  edgar_get_filings :
    edgar_entity → list string → string → E → outcome (list (E → outcome filing * E)) * E;
  (* [create_client(url, key)] and [table('company_filings').upsert(...)] *)
  create_client : E → outcome unit * E;
  filings_upsert : dict → E → outcome unit * E;
  (* [client.models.generate_content(model=..., contents=prompt).text] *)
  generate_content : string → string → E → outcome pyval * E;
  (* [prompt_template.format(company_name=..., ticker=...)] *)
  format_prompt : pyval → pyval → string;
  (* [json.loads] *)
  json_loads : string → outcome pyval;
}.
Arguments yf_info {E}.
Arguments yf_history {E}.
Arguments edgar_company {E}.
Arguments edgar_get_filings {E}.
Arguments create_client {E}.
Arguments filings_upsert {E}.
Arguments generate_content {E}.
Arguments format_prompt {E}.
Arguments json_loads {E}.

(** ** enrichers/yahoo_finance.py *)

Module YahooFinanceEnricher.
Section yahoo.
Context {E : Type}.
Variable prov : providers E.

Definition _calculate_avg_volume_value (ticker : pyval) : M E pyval :=
  try_except
    (hist ← call_service "yfinance.history" [ticker] (yf_history prov ticker);
     match hist with
     | Some (avg_volume, avg_price) => mret (VFloat (avg_volume * avg_price)%float)
     | None => mret VNone
     end)
    (λ _, mret VNone).

Definition enrich_once (company : dict) : M E dict :=
  if negb (truthy (BaseEnricher.validate_input company)) then mret ∅
  else
    let ticker := dict_get company "Ticker" in
    log INFO (YahooEnriching ticker) ;;
    try_except
      (info ← call_service "yfinance.info" [ticker] (yf_info prov ticker);
       avg ← _calculate_avg_volume_value ticker;
       let enriched_data : dict :=
         {[ "Market Cap" := dict_get info "marketCap";
            "EV" := dict_get info "enterpriseValue";
            "Avg D Val Traded 3M" := avg;
            "GICS Sector" := dict_get info "sector";
            "GICS Ind Grp Name" := dict_get info "industry";
            "Cntry Tertry Of Dom" := dict_get info "country" ]} in
       mret (clean_none enriched_data))
      (λ e, log ERROR (YahooFailed ticker e) ;; raise e).

Definition enrich (company : dict) : M E dict :=
  retry_on_failure 2 1%float "enrich" (enrich_once company).
End yahoo.
End YahooFinanceEnricher.

(** ** enrichers/isin.py *)

Module ISINEnricher.
Section isin.
Context {E : Type}.

Definition enrich_once (company : dict) : M E dict :=
  if negb (truthy (BaseEnricher.validate_input company)) then mret ∅
  else
    let ticker := dict_get company "Ticker" in
    log INFO (IsinFetching ticker) ;;
    try_except (mret ∅) (λ e, log ERROR (IsinFailed ticker e) ;; raise e).

Definition enrich (company : dict) : M E dict :=
  retry_on_failure 2 1%float "enrich" (enrich_once company).
End isin.
End ISINEnricher.

(** ** enrichers/sector_classification.py *)

Module SectorClassificationEnricher.
Section bics.
Context {E : Type}.

Definition enrich_once (company : dict) : M E dict :=
  if negb (truthy (BaseEnricher.validate_input company)) then mret ∅
  else
    let ticker := dict_get company "Ticker" in
    log INFO (BicsFetching ticker) ;;
    mret ∅.

Definition enrich (company : dict) : M E dict :=
  retry_on_failure 2 1%float "enrich" (enrich_once company).
End bics.
End SectorClassificationEnricher.

(** ** enrichers/sec_filings.py *)

Module SECFilingsEnricher.

(** Filing types tracked, in declaration order. *)
Definition FILING_TYPES : list (string * string) :=
  [ ("10-K", "Annual report");
    ("10-Q", "Quarterly report");
    ("8-K", "Current report (material events)");
    ("DEF 14A", "Proxy statement");
    ("20-F", "Annual report (foreign)");
    ("S-1", "Registration statement");
    ("424B", "Prospectus");
    ("11-K", "Employee stock plan annual report");
    ("SC 13D", "Beneficial ownership report");
    ("SC 13G", "Beneficial ownership report (passive)");
    ("13F", "Institutional holdings");
    ("DEFA14A", "Additional proxy materials");
    ("S-3", "Registration statement (simplified)");
    ("S-8", "Employee benefit plan registration");
    ("6-K", "Current report (foreign)");
    ("40-F", "Annual report (Canadian)") ].

(** [FILING_TYPES.get(form, form)] *)
Definition describe (f : string) : string :=
  match find (λ kv, String.eqb kv.1 f) FILING_TYPES with
  | Some kv => kv.2
  | None => f
  end.

Definition opt_str (o : option string) : pyval :=
  match o with Some s => VStr s | None => VNone end.

(** The [filing_data] dictionary built for one filing. *)
Definition filing_data (f : filing) : dict :=
  let base : dict :=
    {[ "form_type" := VStr (form f);
       "filing_date" := opt_str (filing_date f);
       "accession_number" := accession_number f;
       "description" := VStr (describe (form f));
       "filing_url" := url f;
       "document_url" := document_url f;
       "interactive_url" := viewer_url f;
       "file_number" := file_number f;
       "size" := filing_size f ]} in
  match attachments f with
  | Some atts =>
      match find (λ att : string * pyval, String.eqb att.1 (form f)) atts with
      | Some primary_doc => <["primary_document_url" := primary_doc.2]> base
      | None => base
      end
  | None => base
  end.

(** Sort key [x.get('filing_date', '')]: a string, or [None]. *)
Definition date_key (d : dict) : option string :=
  match dict_get_default d "filing_date" (VStr "") with
  | VStr s => Some s
  | _ => None
  end.

Definition str_ltb (a b : string) : bool :=
  match String.compare a b with Lt => true | _ => false end.

(** Insertion into a list sorted by decreasing key, after the entries
    whose key is not smaller (the sort is stable). *)
Fixpoint insert_desc (key : dict → string) (x : dict) (l : list dict) : list dict :=
  match l with
  | [] => [x]
  | y :: l' =>
      if str_ltb (key y) (key x) then x :: y :: l'
      else y :: insert_desc key x l'
  end.

(** [l.sort(key=lambda x: x.get('filing_date', ''), reverse=True)]:
    with two or more entries every key takes part in a comparison, and
    a comparison with a key that is not a string raises. *)
Definition sort_by_date (l : list dict) : outcome (list dict) :=
  if (2 <=? length l)%nat && negb (forallb (λ d, bool_decide (is_Some (date_key d))) l)
  then Raise (TypeError "'<' not supported between instances")
  else Ok (foldl (λ acc x, insert_desc (λ d, default "" (date_key d)) x acc) [] l).

(** [_get_latest_filing_url] *)
Fixpoint _get_latest_filing_url (filings : list dict) (form_type : string) : pyval :=
  match filings with
  | [] => VNone
  | f :: rest =>
      match dict_get f "form_type" with
      | VStr s =>
          if String.eqb s form_type
          then py_or (dict_get f "document_url") (dict_get f "filing_url")
          else _get_latest_filing_url rest form_type
      | _ => _get_latest_filing_url rest form_type
      end
  end.

(** [a > b] on a filing date and the latest date kept so far. *)
Definition date_gt (a b : pyval) : outcome bool :=
  match a, b with
  | VStr x, VStr y => Ok (str_ltb y x)
  | _, _ => Raise (TypeError "'>' not supported between instances")
  end.

(** One step of the loop of [_create_filings_summary]; the summary maps
    a form type to its count and latest date. Form types are strings,
    as [filing_data] produces them. *)
Definition summary_step (summary : gmap string (Z * pyval)) (f : dict)
    : outcome (gmap string (Z * pyval)) :=
  match dict_get f "form_type" with
  | VStr form_type =>
      if truthy (VStr form_type) then
        let '(count, latest) := default (0, VNone) (summary !! form_type) in
        let date := dict_get_default f "filing_date" (VStr "") in
        if negb (truthy latest)
        then Ok (<[form_type := (count + 1, dict_get f "filing_date")]> summary)
        else match date_gt date latest with
             | Ok true => Ok (<[form_type := (count + 1, dict_get f "filing_date")]> summary)
             | Ok false => Ok (<[form_type := (count + 1, latest)]> summary)
             | Raise e => Raise e
             end
      else Ok summary
  | _ => Ok summary
  end.

Fixpoint summary_loop (filings : list dict) (summary : gmap string (Z * pyval))
    : outcome (gmap string (Z * pyval)) :=
  match filings with
  | [] => Ok summary
  | f :: rest =>
      match summary_step summary f with
      | Ok summary' => summary_loop rest summary'
      | Raise e => Raise e
      end
  end.

Definition _create_filings_summary (filings : list dict) : outcome pyval :=
  match summary_loop filings ∅ with
  | Ok summary =>
      Ok (VDict ((λ cl : Z * pyval,
                    VDict {[ "count" := VInt cl.1; "latest_date" := cl.2 ]}) <$> summary))
  | Raise e => Raise e
  end.

(** [raw_ticker.split()[0] if raw_ticker else raw_ticker] *)
Definition clean_ticker (raw_ticker : pyval) : outcome pyval :=
  if truthy raw_ticker then
    match raw_ticker with
    | VStr s =>
        match py_split s with
        | w :: _ => Ok (VStr w)
        | [] => Raise (IndexError "list index out of range")
        end
    | _ => Raise (AttributeError "object has no attribute 'split'")
    end
  else Ok raw_ticker.

Section sec.
Context {E : Type}.
Variable env : services E.
Variable prov : providers E.
(** [self.lookback_date.strftime('%Y-%m-%d')], fixed at construction. *)
Variable lookback_date : string.

Definition _process_filings (filings : list (E → outcome filing * E)) : M E (list dict) :=
  processed ← for_fold (λ (processed_filings : list dict) raw,
      try_except
        (f ← run_op raw;
         mret (processed_filings ++ [filing_data f]))
        (λ e, log WARNING (FilingFailed e) ;; mret processed_filings))
    filings [];
  lift_outcome (sort_by_date processed).

Definition _store_detailed_filings (ticker : pyval) (filings : list dict) : M E unit :=
  try_except
    (call_service "supabase.create_client" [] (create_client prov) ;;
     log INFO ConnectedToSupabase ;;
     for_each (λ f : dict,
         let filing_record : dict :=
           {[ "ticker" := ticker;
              "form_type" := dict_get f "form_type";
              "filing_date" := dict_get f "filing_date";
              "accession_number" := dict_get f "accession_number";
              "filing_url" := dict_get f "filing_url";
              "document_url" := dict_get f "document_url";
              "metadata" := VDict f ]} in
         try_except
           (call_service "company_filings.upsert" [VDict filing_record]
              (filings_upsert prov filing_record))
           (λ _, mret tt))
       (take 20 filings))
    (λ e, log WARNING (StoreFilingsFailed ticker e)).

Definition enrich_once (company : dict) : M E dict :=
  if negb (truthy (BaseEnricher.validate_input company)) then mret ∅
  else
    let raw_ticker := dict_get company "Ticker" in
    ticker ← lift_outcome (clean_ticker raw_ticker);
    log INFO (SecFetching ticker raw_ticker) ;;
    try_except
      (edgar ← match ticker with
               | VStr t => call_service "edgar.Company" [ticker] (edgar_company prov t)
               | _ => raise (TypeError "ticker is not a string")
               end;
       match edgar with
       | None => log INFO (SecNotFound ticker) ;; mret ∅
       | Some edgar_co =>
           let forms := FILING_TYPES.*1 in
           let date := (lookback_date +:+ ":") in
           filings ← call_service "edgar.get_filings"
                       [VList (VStr <$> forms); VStr date]
                       (edgar_get_filings prov edgar_co forms date);
           filings_data ← _process_filings filings;
           summary ← lift_outcome (_create_filings_summary filings_data);
           t ← now env;
           let enriched_data : dict :=
             {[ "sec_cik" := cik edgar_co;
                "sec_company_name" := entity_name edgar_co;
                "sec_filings_count" := VInt (Z.of_nat (length filings_data));
                "sec_latest_10k" := _get_latest_filing_url filings_data "10-K";
                "sec_latest_10q" := _get_latest_filing_url filings_data "10-Q";
                "sec_latest_8k" := _get_latest_filing_url filings_data "8-K";
                "sec_latest_proxy" := _get_latest_filing_url filings_data "DEF 14A";
                "sec_filings_summary" := summary;
                "sec_last_updated" := VStr (isoformat env t) ]} in
           _store_detailed_filings ticker filings_data ;;
           mret enriched_data
       end)
      (λ e, log ERROR (SecFailed ticker e) ;; raise e).

Definition enrich (company : dict) : M E dict :=
  retry_on_failure 2 1%float "enrich" (enrich_once company).
End sec.
End SECFilingsEnricher.

(** ** enrichers/llm_investor_information.py *)

Module LLMInvestorInformationEnricher.
Section llm.
Context {E : Type}.
Variable env : services E.
Variable prov : providers E.

Definition model : string := "gemini-2.5-flash".

(** The text handed to [json.loads]: stripped, without code fences. *)
Definition unfence (response_text : string) : string :=
  let t := py_strip response_text in
  let t := if String.prefix "```json" t then drop_prefix 7 t else t in
  let t := if endswith t "```" then drop_suffix 3 t else t in
  py_strip t.

Definition _parse_llm_response (response_text : pyval) : M E (option dict) :=
  let text := match response_text with
              | VStr s => Some (unfence s)
              | _ => None
              end in
  try_except
    (match text with
     | Some t =>
         data ← lift_outcome (json_loads prov t);
         match data with
         | VDict d => mret (Some d)
         | _ => log WARNING (LlmNotDict data) ;; mret None
         end
     | None => raise (AttributeError "object has no attribute 'strip'")
     end)
    (λ e, match e with
          | JSONDecodeError _ =>
              log ERROR (LlmJsonError e) ;;
              log DEBUG (LlmRawResponse (default "" text)) ;;
              mret None
          | _ => log ERROR (LlmParseError e) ;; mret None
          end).

Definition _get_current_timestamp : M E string :=
  t ← now env; mret (isoformat env t).

Definition enrich_once (company : dict) : M E dict :=
  if negb (truthy (BaseEnricher.validate_input company)) then mret ∅
  else
    let ticker := dict_get company "Ticker" in
    let company_name := dict_get_default company "Security" ticker in
    log INFO (LlmFetching company_name ticker) ;;
    try_except
      (let prompt := format_prompt prov company_name ticker in
       response_text ← call_service "gemini.generate_content" [VStr model; VStr prompt]
                         (generate_content prov model prompt);
       investor_data ← _parse_llm_response response_text;
       match investor_data with
       | Some d =>
           if negb (Nat.eqb (size d) 0) then
             count ← lift_outcome
                       (py_len (dict_get_default d "corporate_presentation_urls" (VList [])));
             ts ← _get_current_timestamp;
             let enriched_data : dict :=
               {[ "llm_primary_website" := dict_get d "primary_website";
                  "llm_investor_section_url" := dict_get d "investor_section_url";
                  "llm_corporate_presentations" := dict_get d "corporate_presentation_urls";
                  "llm_presentations_count" := VInt count;
                  "llm_enrichment_model" := VStr model;
                  "llm_last_updated" := VStr ts ]} in
             log INFO (LlmExtracted ticker) ;;
             mret (clean_none enriched_data)
           else log WARNING (LlmNoData ticker) ;; mret ∅
       | None => log WARNING (LlmNoData ticker) ;; mret ∅
       end)
      (λ e, log ERROR (LlmFailed ticker e) ;; raise e).

Definition enrich (company : dict) : M E dict :=
  retry_on_failure 2 1%float "enrich" (enrich_once company).
End llm.
End LLMInvestorInformationEnricher.

(** The registry of [main.py] once instantiated: the enabled enrichers,
    in order. *)
Definition ENABLED_ENRICHERS {E} (env : services E) (prov : providers E)
    : list (enricher E) :=
  [ {| name := "LLMInvestorInformationEnricher";
       enrich := LLMInvestorInformationEnricher.enrich env prov |} ].

(** ** Observations on a run of the orchestrator *)

(** The outcome of each enricher's call on [company], in the enabled
    order, each call starting in the world left by the previous one. *)
Fixpoint enricher_outcomes {E} (es : list (enricher E)) (company : dict) (w : E)
    : list (outcome dict) :=
  match es with
  | [] => []
  | en :: rest =>
      result_of (enrich en company w)
      :: enricher_outcomes rest company (state_of (enrich en company w))
  end.

(** What [dict.update] makes of a sequence of outcomes: the results of
    the calls that returned, merged in order into [acc]. *)
Fixpoint merge_outcomes (outs : list (outcome dict)) (acc : dict) : dict :=
  match outs with
  | [] => acc
  | Ok r :: rest => merge_outcomes rest (dict_update acc r)
  | Raise _ :: rest => merge_outcomes rest acc
  end.

(** The pipeline after lines 83-86 of [run]: the aggregate, unless empty,
    is stamped with the ticker and the time and appended to the buffer. *)
Definition appended {E} (env : services E) (ticker : pyval) (agg : dict)
    (p : pipeline E) : pipeline E :=
  if (size agg =? 0)%nat then p
  else
    let '(t, w1) := clock env (world p) in
    EnrichmentPipeline.with_buffer
      (results_buffer p ++
       [<["last_enriched" := VStr (isoformat env t)]> (<["Ticker" := ticker]> agg)])
      (EnrichmentPipeline.set_world w1 p).

(** The pipeline as it stands when company number [n] (from 0) is about
    to be processed. *)
Definition state_before {E} (config : Config) (env : services E)
    (enrichers : list (enricher E)) (companies : list dict) (n : nat)
    (p : pipeline E) : pipeline E :=
  state_of (for_each (EnrichmentPipeline.run_body config env enrichers (length companies))
              (take n (enumerate companies)) p).

(** A flush that reaches the database: [_save_buffer] announces it. *)
Definition is_flush (ev : event) : bool :=
  match ev with Log INFO (SavingRecords _) => true | _ => false end.

(** No entry of the mapping is [None]. *)
Definition no_none (d : dict) : Prop := ∀ k v, d !! k = Some v → v ≠ VNone.

(** ** Concrete operations, worlds and enrichers for the examples *)

Module Fixtures.

(** An operation on a call counter: it fails on its first [failures]
    invocations and returns 42 afterwards. *)
Definition flaky (failures : nat) : M nat Z :=
  λ n, if (n <? failures)%nat
       then (Raise (Exception "boom"), Datatypes.S n, [])
       else (Ok 42, Datatypes.S n, []).

(** The same, logging an error before each failure, as the enrichers'
    own [except] blocks do. *)
Definition noisy_flaky (failures : nat) : M nat Z :=
  λ n, if (n <? failures)%nat
       then (Raise (Exception "boom"), Datatypes.S n,
             [Log ERROR (YahooFailed (VStr "AAPL") (Exception "boom"))])
       else (Ok 42, Datatypes.S n, []).

(** Enrichers with a fixed behaviour. *)
Definition const_enricher {E} (nm : string) (result : dict) : enricher E :=
  {| name := nm; enrich := λ _, mret result |}.

Definition failing_enricher {E} (nm : string) : enricher E :=
  {| name := nm; enrich := λ _, raise (Exception "provider down") |}.

(** A world with a clock, a record of the updates written and a count of
    the updates attempted. *)
Record test_world : Type := {
  time : Z;
  written : list (pyval * dict);
  attempts : nat;
}.

Definition w0 : test_world := {| time := 0; written := []; attempts := 0 |}.

(** Services over [test_world]: [table] is the company table; update
    attempt number [n] (from 0) on [ticker] fails when [fails n ticker]. *)
Definition test_services (table : list dict) (fails : nat → pyval → bool)
    : services test_world :=
  {| clock := λ w, (time w, {| time := time w + 1; written := written w;
                               attempts := attempts w |});
     isoformat := λ _, "2026-01-01T00:00:00";
     db_select := λ limit w,
       (Ok (match limit with
            | Some n => take (Z.to_nat n) table
            | None => table
            end), w);
     db_update := λ ticker updates w,
       if fails (attempts w) ticker
       then (Raise (Exception "update failed"),
             {| time := time w; written := written w;
                attempts := Datatypes.S (attempts w) |})
       else (Ok tt,
             {| time := time w; written := written w ++ [(ticker, updates)];
                attempts := Datatypes.S (attempts w) |});
     db_insert_log := λ _ w, (Ok tt, w) |}.

Definition never_fails : nat → pyval → bool := λ _ _, false.
Definition always_fails : nat → pyval → bool := λ _ _, true.

Definition is_str (s : string) (v : pyval) : bool :=
  match v with VStr s' => String.eqb s s' | _ => false end.

Definition company (ticker : string) : dict := {[ "Ticker" := VStr ticker ]}.

(** An update as the buffer holds it. *)
Definition update_for (ticker : string) : dict :=
  {[ "Ticker" := VStr ticker; "x" := VInt 1 ]}.

(** Updates of ticker ["B"] fail. *)
Definition fails_on_B : nat → pyval → bool := λ _ t, is_str "B" t.


(** Providers over [test_world]; every call is counted in [attempts].
    EDGAR knows the company and has one filing in the lookback window, a
    current report. *)
Definition bump (w : test_world) : test_world :=
  {| time := time w; written := written w; attempts := Datatypes.S (attempts w) |}.

Definition filing_8k : filing :=
  {| form := "8-K";
     filing_date := Some "2026-02-01";
     accession_number := VStr "0000320193-26-000010";
     url := VStr "https://sec.example/aapl-8k";
     document_url := VNone;
     viewer_url := VNone;
     file_number := VNone;
     filing_size := VNone;
     attachments := None |}.

Definition test_providers : providers test_world :=
  {| yf_info := λ _ w,
       (Ok {[ "marketCap" := VInt 100; "sector" := VStr "Technology" ]}, bump w);
     yf_history := λ _ w, (Ok None, bump w);
     edgar_company := λ _ w,
       (Ok (Some {| cik := VInt 320193; entity_name := VStr "Apple Inc." |}), bump w);
     edgar_get_filings := λ _ _ _ w,
       (Ok [λ w', (Ok filing_8k, w')], bump w);
     create_client := λ w, (Ok tt, bump w);
     filings_upsert := λ _ w, (Ok tt, bump w);
     generate_content := λ _ _ w, (Ok (VStr "{}"), bump w);
     format_prompt := λ _ _, "prompt";
     json_loads := λ _, Ok (VDict ∅) |}.

Definition config_with (sf : Z) : Config :=
  {| batch_size := 10; save_frequency := sf; max_retries := 2;
     retry_delay := 1%float; filings_lookback_days := 365 |}.

End Fixtures.

(** ** Further observations *)

Definition is_sleep (ev : event) : bool :=
  match ev with Sleep _ => true | _ => false end.

(** The sleeps of a trace, in order. *)
Definition sleeps (tr : list event) : list event :=
  filter (λ ev, is_sleep ev = true) tr.

(** The pauses of a linear backoff after attempts [a+1 .. a+n]. *)
Definition backoff (delay : float) (a n : nat) : list event :=
  (λ i : nat, Sleep (delay * to_float (Z.of_nat i + 1))%float) <$> seq a n.

(** The operation itself never sleeps. *)
Definition sleepless {S A} (func : M S A) : Prop :=
  ∀ s, sleeps (trace_of (func s)) = [].

(** An entry of the buffer carries its identity and its time stamp. *)
Definition stamped (d : dict) : Prop :=
  is_Some (d !! "Ticker") ∧ is_Some (d !! "last_enriched").

Definition has_ticker (u : dict) : bool := bool_decide (is_Some (u !! "Ticker")).

Definition is_update_call (ev : event) : bool :=
  match ev with Call service _ => String.eqb service "companies_bbt.update" | _ => false end.

Definition is_upsert_call (ev : event) : bool :=
  match ev with Call service _ => String.eqb service "company_filings.upsert" | _ => false end.

(** The date a filing record is sorted by: its ["filing_date"], or the
    empty string when it has none. *)
Definition date_of (d : dict) : string := default "" (SECFilingsEnricher.date_key d).

(** [x] is dated no earlier than [y]. *)
Definition not_older (x y : dict) : Prop :=
  SECFilingsEnricher.str_ltb (date_of x) (date_of y) = false.

(** The outcome of reading each filing in turn, each read starting in the
    world left by the previous one; and the filings that could be read. *)
Fixpoint read_filings {E} (raws : list (E → outcome filing * E)) (w : E)
    : list (outcome filing) :=
  match raws with
  | [] => []
  | raw :: rest => (raw w).1 :: read_filings rest (raw w).2
  end.

Definition readable (outs : list (outcome filing)) : list filing :=
  omap (λ o, match o with Ok f => Some f | Raise _ => None end) outs.

Definition unreadable (outs : list (outcome filing)) : nat :=
  length (filter (λ o, is_ok o = false) outs).

(** A filing with no date and a dated one, for the examples. *)
Definition undated_filing : filing :=
  {| form := "8-K"; filing_date := None; accession_number := VStr "a-1";
     url := VStr "u-1"; document_url := VNone; viewer_url := VNone;
     file_number := VNone; filing_size := VNone; attachments := None |}.

Definition dated_filing : filing :=
  {| form := "10-K"; filing_date := Some "2026-02-01"; accession_number := VStr "a-2";
     url := VStr "u-2"; document_url := VStr "d-2"; viewer_url := VNone;
     file_number := VNone; filing_size := VNone;
     attachments := Some [("EX-99", VStr "x-2"); ("10-K", VStr "p-2")] |}.

(** The filing record is of the given form type. *)
Definition is_form (form_type : string) (f : dict) : bool :=
  match dict_get f "form_type" with
  | VStr s => String.eqb s form_type
  | _ => false
  end.

(** The count a summary under construction holds for a form type. *)
Definition count_in (summary : gmap string (Z * pyval)) (form_type : string) : Z :=
  match summary !! form_type with Some (c, _) => c | None => 0 end.

(** U+00A0, the no-break space. *)
Definition nbsp : string := String (ascii_of_nat 194) (String (ascii_of_nat 160) "").

(** Providers for which EDGAR does not know the company. *)
Definition unknown_to_edgar : providers Fixtures.test_world :=
  {| yf_info := yf_info Fixtures.test_providers;
     yf_history := yf_history Fixtures.test_providers;
     edgar_company := λ _ w, (Ok None, Fixtures.bump w);
     edgar_get_filings := edgar_get_filings Fixtures.test_providers;
     create_client := create_client Fixtures.test_providers;
     filings_upsert := filings_upsert Fixtures.test_providers;
     generate_content := generate_content Fixtures.test_providers;
     format_prompt := format_prompt Fixtures.test_providers;
     json_loads := json_loads Fixtures.test_providers |}.

(** Providers whose model answers with [null] for the presentations. *)
Definition null_answer : providers Fixtures.test_world :=
  {| yf_info := yf_info Fixtures.test_providers;
     yf_history := yf_history Fixtures.test_providers;
     edgar_company := edgar_company Fixtures.test_providers;
     edgar_get_filings := edgar_get_filings Fixtures.test_providers;
     create_client := create_client Fixtures.test_providers;
     filings_upsert := filings_upsert Fixtures.test_providers;
     generate_content := λ _ _ w, (Ok (VStr "{...}"), Fixtures.bump w);
     format_prompt := format_prompt Fixtures.test_providers;
     json_loads := λ _,
       Ok (VDict {[ "primary_website" := VStr "https://www.apple.com";
                    "investor_section_url" := VNone;
                    "corporate_presentation_urls" := VNone ]}) |}.

(** Providers whose model names one presentation. *)
Definition one_presentation : providers Fixtures.test_world :=
  {| yf_info := yf_info Fixtures.test_providers;
     yf_history := λ _ w, (Raise (Exception "no history"), Fixtures.bump w);
     edgar_company := edgar_company Fixtures.test_providers;
     edgar_get_filings := edgar_get_filings Fixtures.test_providers;
     create_client := create_client Fixtures.test_providers;
     filings_upsert := filings_upsert Fixtures.test_providers;
     generate_content := λ _ _ w, (Ok (VStr "{...}"), Fixtures.bump w);
     format_prompt := format_prompt Fixtures.test_providers;
     json_loads := λ _,
       Ok (VDict {[ "primary_website" := VStr "https://www.apple.com";
                    "corporate_presentation_urls" := VList [VStr "https://p.pdf"] ]}) |}.

(** A sequence of characters that is empty or begins with white space. *)
Definition starts_with_space (l : list (list ascii)) : Prop :=
  l = [] ∨ ∃ c l', l = c :: l' ∧ is_space c = true.

(** The call by which [update_company] writes an entry of the buffer. *)
Definition update_call (u : dict) : event :=
  Call "companies_bbt.update" [dict_get u "Ticker"; VDict u].

(** The update calls of a trace, in order. *)
Definition writes (tr : list event) : list event :=
  filter (λ ev, is_update_call ev = true) tr.

(** What lines 81-86 of [run] append to the buffer for a company, the
    enrichers being run in world [w]: the aggregate with its ticker and
    time stamp, or nothing when the aggregate is empty. *)
Definition new_entries {E} (env : services E) (enrichers : list (enricher E))
    (company : dict) (w : E) : list dict :=
  let e := EnrichmentPipeline._enrich_company enrichers company w in
  match result_of e with
  | Ok agg =>
      if (size agg =? 0)%nat then []
      else [<["last_enriched" := VStr (isoformat env (clock env (state_of e)).1)]>
              (<["Ticker" := dict_get_default company "Ticker" (VStr "Unknown")]> agg)]
  | Raise _ => []
  end.

(** The entries appended to the buffer over the run loop, in order. *)
Fixpoint appended_entries {E} (config : Config) (env : services E)
    (enrichers : list (enricher E)) (total : nat) (xs : list (Z * dict))
    (p : pipeline E) : list dict :=
  match xs with
  | [] => []
  | ic :: rest =>
      new_entries env enrichers ic.2 (world p)
      ++ appended_entries config env enrichers total rest
           (state_of (EnrichmentPipeline.run_body config env enrichers total ic p))
  end.

(** * Properties *)

(** ** Generic lemmas on traces and computations *)

Lemma count_events_app p (tr1 tr2 : list event) :
  count_events p (tr1 ++ tr2) = (count_events p tr1 + count_events p tr2)%nat.
Proof. unfold count_events. by rewrite filter_app, length_app. Qed.

Lemma count_events_nil p : count_events p [] = 0%nat.
Proof. reflexivity. Qed.

Lemma count_events_cons p ev tr :
  count_events p (ev :: tr) = ((if p ev then 1 else 0) + count_events p tr)%nat.
Proof.
  unfold count_events. rewrite filter_cons.
  destruct (p ev); case_decide; simpl; congruence.
Qed.

Ltac unfold_M :=
  unfold mbind, M_bind, mret, M_ret, bind, ret, raise, catch, try_except,
    log, emit, get, modify, zoom in *.

(** Projections of an explicit run. *)
Ltac simpl_run :=
  repeat match goal with
  | |- context [trace_of (?a, ?b, ?c)] => change (trace_of (a, b, c)) with c
  | |- context [state_of (?a, ?b, ?c)] => change (state_of (a, b, c)) with b
  | |- context [result_of (?a, ?b, ?c)] => change (result_of (a, b, c)) with a
  end.

(** Reduction of the plumbing of a run, leaving the data alone. *)
Ltac red_run := cbv beta iota zeta delta [fst snd].

(** ** The retry wrapper *)

Section retry_facts.
Context {S A : Type}.
Variable max_retries : Z.
Variable delay : float.
Variable func_name : string.
Variable func : M S A.

#[local] Abbreviation retry_loop' := (retry_loop max_retries delay func_name func).

Lemma state_after_succ n s :
  state_after func (Datatypes.S n) s = state_after func n (state_of (func s)).
Proof. reflexivity. Qed.

Lemma nth_attempt_succ n s :
  nth_attempt func (Datatypes.S n) s = nth_attempt func n (state_of (func s)).
Proof. reflexivity. Qed.

Lemma attempts_trace_succ n s :
  attempts_trace func (Datatypes.S n) s
  = trace_of (func s) ++ attempts_trace func n (state_of (func s)).
Proof. reflexivity. Qed.

Lemma valid_pause_inv (a : nat) :
  valid_pause delay a = true →
  float_mul_int delay (Z.of_nat a + 1)
  = Ok (delay * to_float (Z.of_nat a + 1))%float
  ∧ check_sleep (delay * to_float (Z.of_nat a + 1))%float = Ok tt.
Proof.
  unfold valid_pause, float_mul_int, float_of_int.
  destruct (is_infinity _); [done|].
  by destruct (check_sleep _) as [[]|].
Qed.

(** One turn of the loop, by what the attempt does. *)
Lemma retry_loop_returns attempt rest last s v s1 tr1 :
  func s = (Ok v, s1, tr1) →
  retry_loop' (attempt :: rest) last s = (Ok v, s1, tr1 ++ []).
Proof. intros Hf. simpl. unfold_M. by rewrite Hf. Qed.

Lemma retry_loop_retries (a : nat) rest last s e s1 tr1 :
  func s = (Raise e, s1, tr1) →
  Z.of_nat a < max_retries →
  valid_pause delay a = true →
  retry_loop' (Z.of_nat a :: rest) last s
  = (result_of (retry_loop' rest (Some e) s1),
     state_of (retry_loop' rest (Some e) s1),
     tr1 ++ Log WARNING (AttemptFailed (Z.of_nat a + 1) func_name e)
         :: Sleep (delay * to_float (Z.of_nat a + 1))%float
         :: trace_of (retry_loop' rest (Some e) s1)).
Proof.
  intros Hf Hlt [Hmul Hsleep]%valid_pause_inv. apply Z.ltb_lt in Hlt.
  cbn [retry_loop]. rewrite Hlt. unfold time_sleep, lift_outcome. unfold_M.
  rewrite Hf, Hmul, Hsleep. unfold result_of, state_of, trace_of.
  by destruct (retry_loop' rest (Some e) s1) as [[r2 s2] tr2].
Qed.

Lemma retry_loop_gives_up (a : nat) last s e s1 tr1 :
  func s = (Raise e, s1, tr1) →
  max_retries ≤ Z.of_nat a →
  retry_loop' [Z.of_nat a] last s
  = (Raise e, s1, tr1 ++ [Log ERROR (AllAttemptsFailed (max_retries + 1) func_name)]).
Proof.
  intros Hf Hge. apply Z.ltb_ge in Hge.
  cbn [retry_loop]. rewrite Hge. unfold_M. by rewrite Hf.
Qed.

(** [k] failures followed by a success, inside the attempts still allowed. *)
Lemma retry_loop_succeeds (k : nat) :
  ∀ (n a : nat) last s v,
    (k < n)%nat →
    Z.of_nat a + Z.of_nat n = max_retries + 1 →
    (∀ i, (i < k)%nat → valid_pause delay (a + i) = true) →
    (∀ i, (i < k)%nat → is_ok (nth_attempt func i s) = false) →
    nth_attempt func k s = Ok v →
    let r := retry_loop' (Z.of_nat <$> seq a n) last s in
    let own := attempts_trace func (Datatypes.S k) s in
    result_of r = Ok v
    ∧ state_of r = state_after func (Datatypes.S k) s
    ∧ count_events is_warning (trace_of r) = (k + count_events is_warning own)%nat
    ∧ count_events is_error (trace_of r) = count_events is_error own.
Proof.
  induction k as [|k IH]; intros n a last s v Hn Hsum Hpause Hfail Hok; cbv zeta.
  - destruct n as [|n]; [lia|]. cbn [seq fmap list_fmap].
    unfold nth_attempt, result_of in Hok. cbn [state_after] in Hok.
    destruct (func s) as [[r s1] tr1] eqn:Hf. cbn [fst] in Hok. subst r.
    rewrite (retry_loop_returns _ _ _ _ _ _ _ Hf).
    cbn [attempts_trace state_after]. rewrite Hf. by simpl_run.
  - destruct n as [|n]; [lia|]. cbn [seq fmap list_fmap].
    pose proof (Hfail 0%nat ltac:(lia)) as H0.
    unfold nth_attempt, result_of in H0. cbn [state_after] in H0.
    rewrite state_after_succ, (attempts_trace_succ (Datatypes.S k)).
    rewrite nth_attempt_succ in Hok.
    assert (Hfail' : ∀ i, (i < k)%nat →
              is_ok (nth_attempt func i (state_of (func s))) = false).
    { intros i Hi. apply (Hfail (Datatypes.S i)). lia. }
    destruct (func s) as [[r s1] tr1] eqn:Hf. cbn [fst] in H0.
    destruct r as [x|e]; [discriminate|].
    rewrite (retry_loop_retries a _ _ _ _ _ _ Hf); [|lia|].
    2:{ rewrite <- (Nat.add_0_r a). apply Hpause. lia. }
    revert Hfail' Hok. simpl_run. intros Hfail' Hok.
    destruct (IH n (Datatypes.S a) (Some e) s1 v ltac:(lia) ltac:(lia)) as
      (Hr & Hs & Hcw & Hce); [|done|done|].
    { intros i Hi. replace (Datatypes.S a + i)%nat with (a + Datatypes.S i)%nat by lia.
      apply Hpause. lia. }
    cbv zeta in Hcw, Hce. split; [done|]. split; [done|].
    rewrite !count_events_app, !count_events_cons, Hcw, Hce.
    cbn [is_warning is_error]. split; lia.
Qed.

(** Every remaining attempt fails: the loop ends by raising what the last
    attempt raised, after one warning per attempt but the last. *)
Lemma retry_loop_exhausted (n : nat) :
  ∀ (a : nat) last s,
    Z.of_nat a + Z.of_nat (Datatypes.S n) = max_retries + 1 →
    (∀ i, (i < n)%nat → valid_pause delay (a + i) = true) →
    (∀ i, (i ≤ n)%nat → is_ok (nth_attempt func i s) = false) →
    let r := retry_loop' (Z.of_nat <$> seq a (Datatypes.S n)) last s in
    let own := attempts_trace func (Datatypes.S n) s in
    result_of r = nth_attempt func n s
    ∧ state_of r = state_after func (Datatypes.S n) s
    ∧ count_events is_warning (trace_of r) = (n + count_events is_warning own)%nat
    ∧ count_events is_error (trace_of r) = (1 + count_events is_error own)%nat.
Proof.
  induction n as [|n IH]; intros a last s Hsum Hpause Hfail; cbv zeta.
  - pose proof (Hfail 0%nat ltac:(lia)) as H0.
    unfold nth_attempt, result_of in *. cbn [state_after attempts_trace] in *.
    cbn [seq fmap list_fmap].
    destruct (func s) as [[r s1] tr1] eqn:Hf. cbn [fst] in *.
    destruct r as [x|e]; [discriminate|].
    rewrite (retry_loop_gives_up a _ _ _ _ _ Hf); [|lia].
    cbn [fst snd]. simpl_run. split; [done|]. split; [done|].
    rewrite !count_events_app, !count_events_cons, !count_events_nil.
    cbn [is_warning is_error]. split; lia.
  - pose proof (Hfail 0%nat ltac:(lia)) as H0.
    assert (Hfail' : ∀ i, (i ≤ n)%nat →
              is_ok (nth_attempt func i (state_of (func s))) = false).
    { intros i Hi. apply (Hfail (Datatypes.S i)). lia. }
    rewrite nth_attempt_succ, state_after_succ.
    unfold nth_attempt, result_of in H0. cbn [state_after] in H0.
    rewrite (attempts_trace_succ (Datatypes.S n)).
    remember (Datatypes.S n) as m eqn:Hm.
    cbn [seq fmap list_fmap].
    destruct (func s) as [[r s1] tr1] eqn:Hf. cbn [fst] in H0.
    destruct r as [x|e]; [discriminate|].
    rewrite (retry_loop_retries a _ _ _ _ _ _ Hf); [|lia|].
    2:{ rewrite <- (Nat.add_0_r a). apply Hpause. lia. }
    revert Hfail'. simpl_run. intros Hfail'. subst m.
    destruct (IH (Datatypes.S a) (Some e) s1 ltac:(lia)) as (Hr & Hs & Hcw & Hce);
      [|done|].
    { intros i Hi. replace (Datatypes.S a + i)%nat with (a + Datatypes.S i)%nat by lia.
      apply Hpause. lia. }
    cbv zeta in Hcw, Hce. split; [done|]. split; [done|].
    rewrite !count_events_app, !count_events_cons, Hcw, Hce.
    cbn [is_warning is_error]. split; lia.
Qed.
End retry_facts.

(** C1. Let the maximum retry count be [R ≥ 0] and the pauses the wrapper
    takes be pauses it can take. An operation that fails [k ≤ R] times and
    then succeeds makes the wrapper return the success value after exactly
    [k + 1] invocations; to what the operation records itself the wrapper
    adds exactly [k] warning records and no error record. An operation that
    fails on all [R + 1] attempts makes the wrapper raise what the last
    attempt raised; the wrapper adds [R] warning records and one error
    record. *)
Theorem retry_on_failure_spec {S A : Type} (R : Z) (delay : float)
    (func_name : string) (func : M S A) (s : S) :
  0 ≤ R →
  (∀ (k : nat) (v : A),
     Z.of_nat k ≤ R →
     (∀ i, (i < k)%nat → valid_pause delay i = true) →
     (∀ i, (i < k)%nat → is_ok (nth_attempt func i s) = false) →
     nth_attempt func k s = Ok v →
     let r := retry_on_failure R delay func_name func s in
     let own := attempts_trace func (Datatypes.S k) s in
     result_of r = Ok v
     ∧ state_of r = state_after func (Datatypes.S k) s
     ∧ count_events is_warning (trace_of r) = (k + count_events is_warning own)%nat
     ∧ count_events is_error (trace_of r) = count_events is_error own)
  ∧ ((∀ i, (i < Z.to_nat R)%nat → valid_pause delay i = true) →
     (∀ i, (i ≤ Z.to_nat R)%nat → is_ok (nth_attempt func i s) = false) →
     let r := retry_on_failure R delay func_name func s in
     let own := attempts_trace func (Datatypes.S (Z.to_nat R)) s in
     (∃ e, nth_attempt func (Z.to_nat R) s = Raise e ∧ result_of r = Raise e)
     ∧ state_of r = state_after func (Datatypes.S (Z.to_nat R)) s
     ∧ count_events is_warning (trace_of r)
       = (Z.to_nat R + count_events is_warning own)%nat
     ∧ count_events is_error (trace_of r) = (1 + count_events is_error own)%nat).
Proof.
  intros HR. unfold retry_on_failure, py_range. split.
  - intros k v Hk Hpause Hfail Hok.
    apply (retry_loop_succeeds R delay func_name func k); auto; lia.
  - intros Hpause Hfail.
    replace (Z.to_nat (R + 1)) with (Datatypes.S (Z.to_nat R)) by lia.
    destruct (retry_loop_exhausted R delay func_name func (Z.to_nat R)
                0%nat None s ltac:(lia) Hpause Hfail) as (Hr & Hs & Hw & He).
    repeat split; auto.
    pose proof (Hfail (Z.to_nat R) ltac:(lia)) as Hlast.
    destruct (nth_attempt func (Z.to_nat R) s) as [x|e]; [discriminate|].
    by exists e.
Qed.

(** The number of invocations, read off a counter: [k + 1] when the
    operation succeeds after [k] failures. *)
Lemma state_after_counted {S A : Type} (func : M S A) n s c :
  state_after (counted func) n (s, c) = (state_after func n s, (n + c)%nat).
Proof.
  revert s c. induction n as [|n IH]; intros s c; [done|].
  assert (Hstep : state_of (counted func (s, c)) = (state_of (func s), Datatypes.S c)).
  { unfold counted, state_of. by destruct (func s) as [[r s1] tr]. }
  rewrite !state_after_succ, Hstep, IH. f_equal. lia.
Qed.

Lemma valid_pause_default (i : nat) : (i < 2)%nat → valid_pause 1 i = true.
Proof. intros Hi. destruct i as [|[|i]]; [reflexivity|reflexivity|lia]. Qed.

Lemma retry_on_failure_spec_witness :
  (let r := retry_on_failure 2 1%float "enrich" (Fixtures.noisy_flaky 2) 0%nat in
   result_of r = Ok 42
   ∧ state_of r = 3%nat
   ∧ count_events is_warning (trace_of r) = (2 + 0)%nat
   ∧ count_events is_error (trace_of r) = 2%nat)
  ∧ (let r := retry_on_failure 2 1%float "enrich" (Fixtures.flaky 5) 0%nat in
     (∃ e, nth_attempt (Fixtures.flaky 5) 2 0%nat = Raise e ∧ result_of r = Raise e)
     ∧ state_of r = 3%nat
     ∧ count_events is_warning (trace_of r) = (2 + 0)%nat
     ∧ count_events is_error (trace_of r) = (1 + 0)%nat).
Proof.
  split.
  - apply (proj1 (retry_on_failure_spec 2 1%float "enrich" (Fixtures.noisy_flaky 2)
                    0%nat ltac:(lia)) 2%nat 42).
    + lia.
    + apply valid_pause_default.
    + intros i Hi. destruct i as [|[|i]]; [reflexivity|reflexivity|lia].
    + reflexivity.
  - apply (proj2 (retry_on_failure_spec 2 1%float "enrich" (Fixtures.flaky 5) 0%nat
                    ltac:(lia))).
    + apply valid_pause_default.
    + intros i Hi. destruct i as [|[|[|i]]]; [reflexivity|reflexivity|reflexivity|].
      simpl in Hi. lia.
Defined.

(** ** Loops *)

Lemma for_fold_cons {S X B} (body : B → X → M S B) x xs acc s :
  for_fold body (x :: xs) acc s =
  match body acc x s with
  | (Ok acc', s1, tr1) =>
      match for_fold body xs acc' s1 with (r, s2, tr2) => (r, s2, tr1 ++ tr2) end
  | (Raise e, s1, tr1) => (Raise e, s1, tr1)
  end.
Proof. reflexivity. Qed.

Lemma for_each_nil {S X} (body : X → M S unit) s :
  for_each body [] s = (Ok tt, s, []).
Proof. reflexivity. Qed.

Lemma for_each_cons {S X} (body : X → M S unit) x xs s :
  for_each body (x :: xs) s =
  match body x s with
  | (Ok _, s1, tr1) =>
      match for_each body xs s1 with (r, s2, tr2) => (r, s2, tr1 ++ tr2) end
  | (Raise e, s1, tr1) => (Raise e, s1, tr1)
  end.
Proof.
  unfold for_each. rewrite for_fold_cons.
  by destruct (body x s) as [[[[]|e] s1] tr1].
Qed.

Lemma for_each_app {S X} (body : X → M S unit) xs ys s :
  for_each body (xs ++ ys) s =
  match for_each body xs s with
  | (Ok _, s1, tr1) =>
      match for_each body ys s1 with (r, s2, tr2) => (r, s2, tr1 ++ tr2) end
  | (Raise e, s1, tr1) => (Raise e, s1, tr1)
  end.
Proof.
  revert s. induction xs as [|x xs IH]; intros s.
  - rewrite app_nil_l, for_each_nil. by destruct (for_each body ys s) as [[r s2] tr2].
  - rewrite <- app_comm_cons, !for_each_cons.
    destruct (body x s) as [[[[]|e] s1] tr1]; [|done].
    rewrite IH.
    destruct (for_each body xs s1) as [[[[]|e] s2] tr2]; [|done].
    destruct (for_each body ys s2) as [[r s3] tr3].
    by rewrite app_assoc.
Qed.



(** ** Merging the enrichers' results *)

Lemma merge_outcomes_untouched (outs : list (outcome dict)) (acc : dict) X :
  (∀ j r, outs !! j = Some (Ok r) → r !! X = None) →
  merge_outcomes outs acc !! X = acc !! X.
Proof.
  revert acc. induction outs as [|o outs IH]; intros acc Hnone; [done|].
  assert (Hrest : ∀ j r, outs !! j = Some (Ok r) → r !! X = None).
  { intros j r Hj. apply (Hnone (Datatypes.S j) r Hj). }
  destruct o as [r|e]; simpl.
  - rewrite IH by done. unfold dict_update.
    rewrite lookup_union_r; [done|]. by apply (Hnone 0%nat r).
  - by apply IH.
Qed.

Lemma merge_outcomes_last_writer (outs : list (outcome dict)) (acc : dict) j rj X v :
  outs !! j = Some (Ok rj) →
  rj !! X = Some v →
  (∀ j' r', (j < j')%nat → outs !! j' = Some (Ok r') → r' !! X = None) →
  merge_outcomes outs acc !! X = Some v.
Proof.
  revert acc j. induction outs as [|o outs IH]; intros acc j Hj HX Hlater; [done|].
  destruct j as [|j].
  - simpl in Hj. injection Hj as ->. simpl.
    rewrite merge_outcomes_untouched.
    + unfold dict_update. by apply lookup_union_Some_l.
    + intros j' r' Hj'. apply (Hlater (Datatypes.S j') r'); [lia|done].
  - assert (Hlater' : ∀ j' r', (j < j')%nat → outs !! j' = Some (Ok r') → r' !! X = None).
    { intros j' r' Hlt Hj'. apply (Hlater (Datatypes.S j') r'); [lia|done]. }
    destruct o as [r|e]; simpl; by apply (IH _ j).
Qed.

Section enrich_company_facts.
Context {E : Type}.

(** The loop over the enrichers never raises; it returns the merge of the
    results of the calls that returned and warns about each call that
    raised. *)
Lemma enrich_loop_spec (company : dict) (es : list (enricher E)) :
  ∀ (acc : dict) (w : E),
    ∃ w' tr,
      for_fold (EnrichmentPipeline.enrich_step company) es acc w
      = (Ok (merge_outcomes (enricher_outcomes es company w) acc), w', tr)
      ∧ ∀ i en ex,
          es !! i = Some en →
          enricher_outcomes es company w !! i = Some (Raise ex) →
          Log WARNING (EnricherFailed (name en) (dict_get company "Ticker") ex) ∈ tr.
Proof.
  induction es as [|en es IH]; intros acc w.
  - exists w, []. split; [done|]. intros i en ex Hi. by rewrite lookup_nil in Hi.
  - rewrite for_fold_cons. unfold EnrichmentPipeline.enrich_step at 1.
    unfold_M. simpl. unfold result_of, state_of.
    destruct (enrich en company w) as [[[r|e] w1] tr1]; simpl.
    + destruct (IH (dict_update acc r) w1) as (w' & tr & Heq & Hwarn).
      rewrite Heq. eexists _, _. split; [done|].
      intros i en' ex Hi Ho. destruct i as [|i]; [done|].
      rewrite !elem_of_app. right. by apply (Hwarn i en' ex).
    + destruct (IH acc w1) as (w' & tr & Heq & Hwarn).
      rewrite Heq. eexists _, _. split; [done|].
      intros i en' ex Hi Ho. rewrite !elem_of_app. destruct i as [|i].
      * simpl in Hi, Ho. injection Hi as <-. injection Ho as <-.
        left. right. apply list_elem_of_here.
      * right. by apply (Hwarn i en' ex).
Qed.

Lemma enrich_company_spec (enrichers : list (enricher E)) (company : dict) (w : E) :
  ∃ w' tr,
    EnrichmentPipeline._enrich_company enrichers company w
    = (Ok (merge_outcomes (enricher_outcomes enrichers company w) ∅), w', tr)
    ∧ ∀ i en ex,
        enrichers !! i = Some en →
        enricher_outcomes enrichers company w !! i = Some (Raise ex) →
        Log WARNING (EnricherFailed (name en) (dict_get company "Ticker") ex) ∈ tr.
Proof. apply enrich_loop_spec. Qed.
End enrich_company_facts.

(** C3. When two enrichers of the enabled order both return a value for
    field [X], the later one being the last to do so, the aggregate of the
    company carries the later one's value for [X]. *)
Theorem enrich_company_last_writer_wins {E : Type} (enrichers : list (enricher E))
    (company : dict) (w : E) (i j : nat) (ri rj : dict) (X : string) (vi vj : pyval) :
  (i < j)%nat →
  enricher_outcomes enrichers company w !! i = Some (Ok ri) →
  ri !! X = Some vi →
  enricher_outcomes enrichers company w !! j = Some (Ok rj) →
  rj !! X = Some vj →
  (∀ j' r', (j < j')%nat →
     enricher_outcomes enrichers company w !! j' = Some (Ok r') → r' !! X = None) →
  ∃ agg,
    result_of (EnrichmentPipeline._enrich_company enrichers company w) = Ok agg
    ∧ agg !! X = Some vj.
Proof.
  intros _ _ _ Hj HX Hlater.
  destruct (enrich_company_spec enrichers company w) as (w' & tr & Heq & _).
  rewrite Heq. eexists. split; [reflexivity|].
  by apply (merge_outcomes_last_writer _ _ j rj).
Qed.

Lemma enrich_company_last_writer_wins_witness :
  ∃ agg,
    result_of (EnrichmentPipeline._enrich_company
                 [Fixtures.const_enricher "first" {[ "x" := VInt 1; "a" := VInt 0 ]};
                  Fixtures.const_enricher "second" {[ "x" := VInt 2 ]}]
                 (Fixtures.company "AAPL") Fixtures.w0) = Ok agg
    ∧ agg !! "x" = Some (VInt 2).
Proof.
  apply (enrich_company_last_writer_wins _ _ _ 0%nat 1%nat
           {[ "x" := VInt 1; "a" := VInt 0 ]} {[ "x" := VInt 2 ]} "x" (VInt 1) (VInt 2)).
  - lia.
  - reflexivity.
  - reflexivity.
  - reflexivity.
  - reflexivity.
  - intros j' r' Hlt Hj'. destruct j' as [|[|j']]; [lia|lia|]. simpl in Hj'. discriminate.
Defined.

(** ** The orchestrator: flushing and the per-company step *)

Section pipeline_facts.
Context {E : Type}.
Variable config : Config.
Variable env : services E.
Variable enrichers : list (enricher E).

#[local] Abbreviation _save_buffer := (EnrichmentPipeline._save_buffer env).
#[local] Abbreviation buffer_result := (EnrichmentPipeline.buffer_result config env).
#[local] Abbreviation run_body := (EnrichmentPipeline.run_body config env enrichers).
#[local] Abbreviation run_loop := (EnrichmentPipeline.run_loop config env enrichers).
#[local] Abbreviation set_world := EnrichmentPipeline.set_world.
#[local] Abbreviation with_buffer := EnrichmentPipeline.with_buffer.
#[local] Abbreviation bump_processed := EnrichmentPipeline.bump_processed.

(** What a flush does, according to the outcome of the batch update. *)
Lemma save_buffer_eq (p : pipeline E) :
  _save_buffer p =
  match results_buffer p with
  | [] => (Ok tt, p, [])
  | _ :: _ =>
      let b := DatabaseManager.batch_update_companies env (results_buffer p) (world p) in
      match result_of b with
      | Ok _ =>
          (Ok tt, with_buffer [] (set_world (state_of b) p),
           Log INFO (SavingRecords (length (results_buffer p))) :: trace_of b)
      | Raise e =>
          (Ok tt, set_world (state_of b) p,
           Log INFO (SavingRecords (length (results_buffer p)))
             :: trace_of b ++ [Log ERROR (FailedToSaveBuffer e)])
      end
  end.
Proof.
  unfold EnrichmentPipeline._save_buffer. unfold_M.
  destruct (results_buffer p) as [|u us] eqn:Hbuf; [done|].
  unfold EnrichmentPipeline.in_world, EnrichmentPipeline.set_buffer. unfold_M.
  unfold result_of, state_of, trace_of. simpl.
  destruct (DatabaseManager.batch_update_companies env (u :: us) (world p))
    as [[[[]|e] w1] tr1]; simpl.
  - by rewrite !app_nil_r.
  - done.
Qed.

Lemma save_buffer_total (p : pipeline E) : result_of (_save_buffer p) = Ok tt.
Proof.
  rewrite save_buffer_eq. destruct (results_buffer p); [done|].
  cbv zeta. by destruct (result_of (DatabaseManager.batch_update_companies _ _ _)).
Qed.

Lemma buffer_result_eq (ticker : pyval) (agg : dict) (p : pipeline E) :
  buffer_result ticker agg p =
  let p1 := appended env ticker agg p in
  if Z.of_nat (length (results_buffer p1)) >=? save_frequency config
  then _save_buffer p1
  else (Ok tt, p1, []).
Proof.
  unfold EnrichmentPipeline.buffer_result, appended.
  unfold EnrichmentPipeline.in_world, EnrichmentPipeline.set_buffer, now. unfold_M.
  destruct (size agg =? 0)%nat; simpl.
  - destruct (_ >=? _); [|done].
    by destruct (_save_buffer p) as [[r s1] tr1].
  - destruct (clock env (world p)) as [t w1]. simpl.
    destruct (_ >=? _); [|done].
    by destruct (_save_buffer _) as [[r s1] tr1].
Qed.

Lemma buffer_result_total (ticker : pyval) (agg : dict) (p : pipeline E) :
  result_of (buffer_result ticker agg p) = Ok tt.
Proof.
  rewrite buffer_result_eq. cbv zeta.
  destruct (_ >=? _); [apply save_buffer_total|done].
Qed.

(** The per-company step: enrich, buffer, count. Nothing escapes. *)
Lemma run_body_eq (total : nat) (idx : Z) (company : dict) (p : pipeline E) :
  let ticker := dict_get_default company "Ticker" (VStr "Unknown") in
  let e := EnrichmentPipeline._enrich_company enrichers company (world p) in
  let agg := merge_outcomes (enricher_outcomes enrichers company (world p)) ∅ in
  let b := buffer_result ticker agg (set_world (state_of e) p) in
  run_body total (idx, company) p =
  (Ok tt, bump_processed (state_of b),
   Log INFO (Processing ticker (idx + 1) total) :: trace_of e ++ trace_of b).
Proof.
  intros ticker e agg b.
  unfold EnrichmentPipeline.run_body. fold ticker.
  unfold EnrichmentPipeline.in_world, EnrichmentPipeline.incr_processed. unfold_M.
  destruct (enrich_company_spec enrichers company (world p)) as (w' & tr & Heq & _).
  subst b e. fold agg in Heq. rewrite Heq. unfold state_of, trace_of. simpl.
  pose proof (buffer_result_total ticker agg (set_world w' p)) as Hb.
  unfold result_of in Hb.
  destruct (buffer_result ticker agg (set_world w' p)) as [[r s1] tr1].
  simpl in *. subst r. by rewrite !app_nil_r.
Qed.

Lemma run_body_total (total : nat) (ic : Z * dict) (p : pipeline E) :
  result_of (run_body total ic p) = Ok tt.
Proof. destruct ic as [idx company]. by rewrite run_body_eq. Qed.

Lemma run_body_count (total : nat) (ic : Z * dict) (p : pipeline E) :
  processed_count (state_of (run_body total ic p)) = processed_count p + 1.
Proof.
  destruct ic as [idx company]. rewrite run_body_eq. unfold state_of at 1. simpl.
  rewrite buffer_result_eq. cbv zeta.
  assert (Happ : ∀ t a q, processed_count (appended env t a q) = processed_count q).
  { intros t a q. unfold appended. destruct (size a =? 0)%nat; [done|].
    by destruct (clock env (world q)). }
  destruct (_ >=? _).
  - rewrite save_buffer_eq. destruct (results_buffer _) eqn:Hb.
    + unfold state_of. simpl. by rewrite Happ.
    + cbv zeta. destruct (result_of _); unfold state_of; simpl; by rewrite Happ.
  - unfold state_of. simpl. by rewrite Happ.
Qed.

Lemma save_buffer_count (p : pipeline E) :
  processed_count (state_of (_save_buffer p)) = processed_count p.
Proof.
  rewrite save_buffer_eq. destruct (results_buffer p); [done|].
  cbv zeta. by destruct (result_of _).
Qed.

Lemma length_enumerate {X} (xs : list X) : length (enumerate xs) = length xs.
Proof.
  unfold enumerate, py_range.
  rewrite length_zip_with, length_fmap, length_seq. lia.
Qed.

Lemma loop_count (total : nat) (xs : list (Z * dict)) :
  ∀ p, result_of (for_each (run_body total) xs p) = Ok tt
       ∧ processed_count (state_of (for_each (run_body total) xs p))
         = processed_count p + Z.of_nat (length xs).
Proof.
  induction xs as [|x xs IH]; intros p.
  - split; [done|]. unfold state_of. simpl. lia.
  - rewrite for_each_cons.
    pose proof (run_body_total total x p) as Ht.
    pose proof (run_body_count total x p) as Hc.
    unfold result_of, state_of in *.
    destruct (run_body total x p) as [[r s1] tr1]. simpl in *. subst r.
    destruct (IH s1) as [Hr Hn].
    destruct (for_each (run_body total) xs s1) as [[r2 s2] tr2]. simpl in *.
    split; [done|]. lia.
Qed.

Lemma run_loop_total (companies : list dict) (p : pipeline E) :
  result_of (run_loop companies p) = Ok tt.
Proof. apply loop_count. Qed.

Lemma run_loop_count (companies : list dict) (p : pipeline E) :
  processed_count (state_of (run_loop companies p))
  = processed_count p + Z.of_nat (length companies).
Proof.
  unfold EnrichmentPipeline.run_loop.
  rewrite (proj2 (loop_count _ _ _)), length_enumerate. done.
Qed.
End pipeline_facts.

(** The summary of a run whose fetch succeeds. *)
Lemma run_summary {E : Type} (config : Config) (env : services E)
    (enrichers : list (enricher E)) (limit : option Z) (w : E) (companies : list dict) :
  result_of (DatabaseManager.fetch_companies env limit (clock env w).2) = Ok companies →
  let r := EnrichmentPipeline.run config env enrichers limit (new_pipeline w) in
  result_of r = Ok tt
  ∧ processed_count (state_of r) = Z.of_nat (length companies)
  ∧ ∃ duration,
      last (trace_of r)
      = Some (Log INFO (PipelineCompleted (Z.of_nat (length companies))
                          (length companies) duration)).
Proof.
  intros Hfetch.
  unfold EnrichmentPipeline.run, EnrichmentPipeline.in_world, now. unfold_M.
  simpl. destruct (clock env w) as [t0 w1]. simpl in *.
  unfold result_of in Hfetch.
  destruct (DatabaseManager.fetch_companies env limit w1) as [[r1 w2] tr1].
  simpl in Hfetch. subst r1. simpl.
  set (p2 := EnrichmentPipeline.set_world w2 _).
  pose proof (run_loop_total config env enrichers companies p2) as Ht.
  pose proof (run_loop_count config env enrichers companies p2) as Hc.
  unfold result_of, state_of in Ht, Hc.
  destruct (EnrichmentPipeline.run_loop config env enrichers companies p2)
    as [[r3 p3] tr3]. simpl in Ht, Hc. subst r3.
  assert (Hflush : ∃ p4 tr4,
    EnrichmentPipeline._save_buffer env p3 = (Ok tt, p4, tr4)
    ∧ processed_count p4 = processed_count p3).
  { pose proof (save_buffer_total env p3) as H1.
    pose proof (save_buffer_count env p3) as H2.
    unfold result_of, state_of in H1, H2.
    destruct (EnrichmentPipeline._save_buffer env p3) as [[r4 p4] tr4].
    simpl in *. subst r4. by eexists _, _. }
  destruct Hflush as (p4' & tr4' & Heq & Hc4').
  assert (∃ p4 tr4,
    (match results_buffer p3 with
     | [] => (Ok tt, p3, [])
     | _ :: _ => EnrichmentPipeline._save_buffer env p3
     end) = (Ok tt, p4, tr4) ∧ processed_count p4 = processed_count p3)
    as (p4 & tr4 & Heq4 & Hc4).
  { destruct (results_buffer p3); eauto. }
  destruct (results_buffer p3) eqn:Hb; [injection Heq4 as <- <-|rewrite Heq4]; simpl.
  all: destruct (clock env (world _)) as [t1 w5]; simpl.
  all: unfold result_of, state_of, trace_of; simpl.
  all: (split; [done|]); split;
    [rewrite ?Hc4, Hc; subst p2; simpl; lia|].
  all: eexists; rewrite ?Hc4, Hc; subst p2; simpl.
  all: repeat (rewrite last_cons || rewrite last_app); simpl.
  all: by rewrite Z.add_0_l.
Qed.

(** C10. Every fetched company is counted as processed, whatever its
    enrichers did: a run of a fresh pipeline whose fetch returns
    [companies] ends normally and reports [total/total], for any enrichers,
    failing ones included. *)
Theorem run_reports_all_processed {E : Type} (config : Config) (env : services E)
    (enrichers : list (enricher E)) (limit : option Z) (w : E) (companies : list dict) :
  result_of (DatabaseManager.fetch_companies env limit (clock env w).2) = Ok companies →
  let r := EnrichmentPipeline.run config env enrichers limit (new_pipeline w) in
  result_of r = Ok tt
  ∧ processed_count (state_of r) = Z.of_nat (length companies)
  ∧ ∃ duration,
      last (trace_of r)
      = Some (Log INFO (PipelineCompleted (Z.of_nat (length companies))
                          (length companies) duration)).
Proof. apply run_summary. Qed.

Lemma run_reports_all_processed_witness :
  let env := Fixtures.test_services [Fixtures.company "AAPL"; Fixtures.company "MSFT"]
               Fixtures.never_fails in
  let r := EnrichmentPipeline.run default_config env
             [Fixtures.failing_enricher "down"] None (new_pipeline Fixtures.w0) in
  result_of r = Ok tt
  ∧ processed_count (state_of r) = 2
  ∧ ∃ duration,
      last (trace_of r) = Some (Log INFO (PipelineCompleted 2 2 duration)).
Proof.
  apply (run_reports_all_processed default_config
           (Fixtures.test_services [Fixtures.company "AAPL"; Fixtures.company "MSFT"]
              Fixtures.never_fails)
           [Fixtures.failing_enricher "down"] None Fixtures.w0
           [Fixtures.company "AAPL"; Fixtures.company "MSFT"]).
  reflexivity.
Defined.

(** ** The database gateway *)

Section database_facts.
Context {E : Type}.
Variable env : services E.

#[local] Abbreviation update_company := (DatabaseManager.update_company env).
#[local] Abbreviation batch_update_companies := (DatabaseManager.batch_update_companies env).

Lemma update_company_eq (ticker : pyval) (updates : dict) (w : E) :
  update_company ticker updates w =
  match db_update env ticker updates w with
  | (Ok _, w1) =>
      (Ok tt, w1, [Call "companies_bbt.update" [ticker; VDict updates];
                   Log DEBUG (UpdatedCompany ticker (size updates))])
  | (Raise e, w1) =>
      (Raise e, w1, [Call "companies_bbt.update" [ticker; VDict updates];
                     Log ERROR (FailedToUpdate ticker e)])
  end.
Proof.
  unfold DatabaseManager.update_company. unfold_M. unfold call_service.
  by destruct (db_update env ticker updates w) as [[[]|e] w1].
Qed.

Lemma batch_nil (w : E) : batch_update_companies [] w = (Ok tt, w, []).
Proof. reflexivity. Qed.

Lemma batch_cons (u : dict) (us : list dict) (w : E) :
  batch_update_companies (u :: us) w =
  match u !! "Ticker" with
  | None => batch_update_companies us w
  | Some ticker =>
      match update_company ticker u w with
      | (Ok _, w1, tr1) =>
          match batch_update_companies us w1 with
          | (r, w2, tr2) => (r, w2, tr1 ++ tr2)
          end
      | (Raise e, w1, tr1) => (Raise e, w1, tr1)
      end
  end.
Proof.
  unfold DatabaseManager.batch_update_companies. rewrite for_each_cons.
  destruct (u !! "Ticker") as [ticker|]; [done|].
  unfold_M. by destruct (for_each _ us w) as [[r w2] tr2].
Qed.

Lemma batch_app (us vs : list dict) (w : E) :
  batch_update_companies (us ++ vs) w =
  match batch_update_companies us w with
  | (Ok _, w1, tr1) =>
      match batch_update_companies vs w1 with
      | (r, w2, tr2) => (r, w2, tr1 ++ tr2)
      end
  | (Raise e, w1, tr1) => (Raise e, w1, tr1)
  end.
Proof. apply for_each_app. Qed.

End database_facts.

(** ** Failure isolation in the run loop *)

Arguments EnrichmentPipeline.run_body : simpl never.
Arguments EnrichmentPipeline.run_loop : simpl never.
Arguments EnrichmentPipeline.buffer_result : simpl never.
Arguments EnrichmentPipeline._save_buffer : simpl never.
Arguments EnrichmentPipeline._enrich_company : simpl never.
Arguments DatabaseManager.batch_update_companies : simpl never.

Section isolation.
Context {E : Type}.
Variable config : Config.
Variable env : services E.
Variable enrichers : list (enricher E).

#[local] Abbreviation run_body := (EnrichmentPipeline.run_body config env enrichers).
#[local] Abbreviation run_loop := (EnrichmentPipeline.run_loop config env enrichers).
#[local] Abbreviation buffer_result := (EnrichmentPipeline.buffer_result config env).




End isolation.



(** ** Fetching with a limit *)

Arguments DatabaseManager.fetch_companies : simpl never.

Lemma fetch_companies_eq {E : Type} (env : services E) (limit : option Z) (w : E) :
  DatabaseManager.fetch_companies env limit w =
  let query := if truthy (opt_int limit) then limit else None in
  match db_select env query w with
  | (Ok data, w1) =>
      (Ok data, w1, [Call "companies_bbt.select" [opt_int query];
                     Log INFO (FetchedCompanies (length data))])
  | (Raise e, w1) => (Raise e, w1, [Call "companies_bbt.select" [opt_int query]])
  end.
Proof.
  unfold DatabaseManager.fetch_companies. unfold_M. unfold call_service. cbv zeta.
  by destruct (db_select env _ w) as [[data|e] w1].
Qed.

(** C9. A limit of 0 is no limit: the table is queried without [.limit],
    [fetch_companies] and [run] behave exactly as with [None], and every
    row the unlimited query returns is fetched and counted as processed. *)
Theorem limit_zero_is_no_limit {E : Type} (config : Config) (env : services E)
    (enrichers : list (enricher E)) :
  (∀ w, DatabaseManager.fetch_companies env (Some 0) w
        = DatabaseManager.fetch_companies env None w)
  ∧ (∀ p, EnrichmentPipeline.run config env enrichers (Some 0) p
          = EnrichmentPipeline.run config env enrichers None p)
  ∧ (∀ w rows,
       (db_select env None w).1 = Ok rows →
       result_of (DatabaseManager.fetch_companies env (Some 0) w) = Ok rows
       ∧ head (trace_of (DatabaseManager.fetch_companies env (Some 0) w))
         = Some (Call "companies_bbt.select" [VNone]))
  ∧ (∀ w rows,
       (db_select env None (clock env w).2).1 = Ok rows →
       processed_count
         (state_of (EnrichmentPipeline.run config env enrichers (Some 0) (new_pipeline w)))
       = Z.of_nat (length rows)).
Proof.
  assert (Hfetch : ∀ w, DatabaseManager.fetch_companies env (Some 0) w
                        = DatabaseManager.fetch_companies env None w).
  { intros w. by rewrite !fetch_companies_eq. }
  split; [done|]. split; [|split].
  - intros p. unfold EnrichmentPipeline.run, EnrichmentPipeline.in_world, now.
    unfold_M. simpl. destruct (clock env (world p)) as [t0 w1]. simpl.
    by rewrite Hfetch.
  - intros w rows Hrows. rewrite fetch_companies_eq. simpl.
    destruct (db_select env None w) as [[data|e] w1]; simpl in *; [|done].
    by injection Hrows as ->.
  - intros w rows Hrows.
    apply (run_summary config env enrichers (Some 0) w rows).
    rewrite fetch_companies_eq. simpl.
    destruct (db_select env None (clock env w).2) as [[data|e] w1]; simpl in *; [|done].
    by injection Hrows as ->.
Qed.

Lemma limit_zero_is_no_limit_witness :
  let table := [Fixtures.company "AAPL"; Fixtures.company "MSFT"] in
  let env := Fixtures.test_services table Fixtures.never_fails in
  (db_select env (Some 0) Fixtures.w0).1 = Ok []
  ∧ result_of (DatabaseManager.fetch_companies env (Some 0) Fixtures.w0) = Ok table
  ∧ head (trace_of (DatabaseManager.fetch_companies env (Some 0) Fixtures.w0))
    = Some (Call "companies_bbt.select" [VNone])
  ∧ processed_count
      (state_of (EnrichmentPipeline.run default_config env
                   [Fixtures.const_enricher "good" {[ "x" := VInt 1 ]}]
                   (Some 0) (new_pipeline Fixtures.w0)))
    = 2.
Proof.
  intros table env.
  pose proof (limit_zero_is_no_limit default_config env
                [Fixtures.const_enricher "good" {[ "x" := VInt 1 ]}])
    as (_ & _ & Hfetch & Hrun).
  split; [reflexivity|].
  destruct (Hfetch Fixtures.w0 table) as [H1 H2]; [reflexivity|].
  split; [exact H1|]. split; [exact H2|].
  apply (Hrun Fixtures.w0 table). reflexivity.
Defined.

(** ** Batch updates *)

(** C7, as stated, fails: once the update of ["B"] has failed, the update
    of ["C"] is never attempted, and the failure reaches the caller. *)
Lemma batch_update_best_effort_counterexample :
  let env := Fixtures.test_services [] Fixtures.fails_on_B in
  let r := DatabaseManager.batch_update_companies env
             [Fixtures.update_for "A"; Fixtures.update_for "B"; Fixtures.update_for "C"]
             Fixtures.w0 in
  result_of r = Raise (Exception "update failed")
  ∧ Fixtures.attempts (state_of r) = 2%nat
  ∧ Fixtures.written (state_of r) = [(VStr "A", Fixtures.update_for "A")]
  ∧ trace_of r
    = [Call "companies_bbt.update" [VStr "A"; VDict (Fixtures.update_for "A")];
       Log DEBUG (UpdatedCompany (VStr "A") 2);
       Call "companies_bbt.update" [VStr "B"; VDict (Fixtures.update_for "B")];
       Log ERROR (FailedToUpdate (VStr "B") (Exception "update failed"))]
  ∧ Call "companies_bbt.update" [VStr "C"; VDict (Fixtures.update_for "C")]
    ∉ trace_of r.
Proof.
  repeat split; try reflexivity.
  intros H. repeat (apply elem_of_cons in H as [H|H]; [discriminate|]).
  by apply elem_of_nil in H.
Qed.

(** C7, amended. The updates are attempted in order. After a prefix that
    went through: an update without a ticker is skipped without a trace; an
    update whose write fails is logged and its exception raised to the
    caller, nothing after it being attempted; an update whose write succeeds
    is logged and the batch goes on with the rest. *)
Theorem batch_update_fail_fast {E : Type} (env : services E)
    (pre : list dict) (u : dict) (post : list dict) (w : E) :
  is_ok (result_of (DatabaseManager.batch_update_companies env pre w)) = true →
  let done := DatabaseManager.batch_update_companies env pre w in
  (u !! "Ticker" = None →
     DatabaseManager.batch_update_companies env (pre ++ u :: post) w
     = DatabaseManager.batch_update_companies env (pre ++ post) w)
  ∧ (∀ t e,
       u !! "Ticker" = Some t →
       (db_update env t u (state_of done)).1 = Raise e →
       DatabaseManager.batch_update_companies env (pre ++ u :: post) w
       = (Raise e, (db_update env t u (state_of done)).2,
          trace_of done ++ [Call "companies_bbt.update" [t; VDict u];
                            Log ERROR (FailedToUpdate t e)]))
  ∧ (∀ t,
       u !! "Ticker" = Some t →
       (db_update env t u (state_of done)).1 = Ok tt →
       let rest := DatabaseManager.batch_update_companies env post
                     (db_update env t u (state_of done)).2 in
       DatabaseManager.batch_update_companies env (pre ++ u :: post) w
       = (result_of rest, state_of rest,
          trace_of done ++ [Call "companies_bbt.update" [t; VDict u];
                            Log DEBUG (UpdatedCompany t (size u))] ++ trace_of rest)).
Proof.
  intros Hok done. subst done. unfold result_of, state_of, trace_of in *.
  rewrite !batch_app.
  destruct (DatabaseManager.batch_update_companies env pre w) as [[[[]|e0] w1] tr1];
    [|done]. cbn [fst snd].
  rewrite batch_cons.
  split; [|split].
  - by intros ->.
  - intros t e -> Hfail. rewrite update_company_eq.
    destruct (db_update env t u w1) as [[[]|e'] w2]; [done|].
    simpl in *. by injection Hfail as ->.
  - intros t -> Hsucc. rewrite update_company_eq.
    destruct (db_update env t u w1) as [[[]|e'] w2]; [|done].
    cbn [fst snd].
    by destruct (DatabaseManager.batch_update_companies env post w2) as [[r w3] tr3].
Qed.

Lemma batch_update_fail_fast_witness :
  let env := Fixtures.test_services [] Fixtures.fails_on_B in
  DatabaseManager.batch_update_companies env
    ([Fixtures.update_for "A"] ++ Fixtures.update_for "B" :: [Fixtures.update_for "C"])
    Fixtures.w0
  = (Raise (Exception "update failed"),
     {| Fixtures.time := 0;
        Fixtures.written := [(VStr "A", Fixtures.update_for "A")];
        Fixtures.attempts := 2 |},
     [Call "companies_bbt.update" [VStr "A"; VDict (Fixtures.update_for "A")];
      Log DEBUG (UpdatedCompany (VStr "A") 2)]
     ++ [Call "companies_bbt.update" [VStr "B"; VDict (Fixtures.update_for "B")];
         Log ERROR (FailedToUpdate (VStr "B") (Exception "update failed"))]).
Proof.
  intros env.
  apply (proj1 (proj2 (batch_update_fail_fast env [Fixtures.update_for "A"]
                         (Fixtures.update_for "B") [Fixtures.update_for "C"]
                         Fixtures.w0 eq_refl))
           (VStr "B") (Exception "update failed")).
  - reflexivity.
  - reflexivity.
Defined.

(** ** Failing flushes *)




(** ** Flushing at the threshold *)

Lemma count_zero_elem (q : event → bool) (tr : list event) (ev : event) :
  count_events q tr = 0%nat → ev ∈ tr → q ev = false.
Proof.
  induction tr as [|ev' tr IH]; intros Hc Hin.
  - by apply elem_of_nil in Hin.
  - rewrite count_events_cons in Hc. apply elem_of_cons in Hin as [->|Hin].
    + destruct (q ev'); [discriminate|done].
    + apply IH; [|done]. destruct (q ev'); [discriminate|done].
Qed.

Section flush_facts.
Context {E : Type}.
Variable config : Config.
Variable env : services E.
Variable enrichers : list (enricher E).
Hypothesis Hsf : 1 ≤ save_frequency config.
Hypothesis Hdb : ∀ t u w, (db_update env t u w).1 = Ok tt.
Hypothesis Hquiet : ∀ en company w,
  en ∈ enrichers → count_events is_flush (trace_of (enrich en company w)) = 0%nat.

#[local] Abbreviation run_body := (EnrichmentPipeline.run_body config env enrichers).
#[local] Abbreviation _save_buffer := (EnrichmentPipeline._save_buffer env).
#[local] Abbreviation batch_update_companies := (DatabaseManager.batch_update_companies env).

Lemma batch_ok_quiet (us : list dict) :
  ∀ w, result_of (batch_update_companies us w) = Ok tt
       ∧ count_events is_flush (trace_of (batch_update_companies us w)) = 0%nat.
Proof.
  induction us as [|u us IH]; intros w; [done|].
  rewrite batch_cons. destruct (u !! "Ticker") as [t|]; [|apply IH].
  rewrite update_company_eq. pose proof (Hdb t u w) as Hu.
  destruct (db_update env t u w) as [[[]|e] w1]; [|done].
  destruct (IH w1) as [Hr Hc]. unfold result_of, trace_of in *.
  destruct (batch_update_companies us w1) as [[r w2] tr2]. simpl in *.
  split; [done|]. by rewrite !count_events_cons, Hc.
Qed.

(** With a database that accepts every update, a flush of a non-empty
    buffer empties it, and announces itself once with the buffer's size. *)
Lemma save_buffer_flushes (p : pipeline E) :
  results_buffer p ≠ [] →
  results_buffer (state_of (_save_buffer p)) = []
  ∧ count_events is_flush (trace_of (_save_buffer p)) = 1%nat
  ∧ ∀ k, Log INFO (SavingRecords k) ∈ trace_of (_save_buffer p) →
         k = length (results_buffer p).
Proof.
  intros Hne. rewrite save_buffer_eq.
  destruct (results_buffer p) as [|u us] eqn:Hb; [done|]. cbv zeta.
  destruct (batch_ok_quiet (u :: us) (world p)) as [Hr Hc]. rewrite Hr.
  split; [done|]. unfold trace_of at 1 3. cbn [snd]. split.
  - by rewrite count_events_cons, Hc.
  - intros k Hin. apply elem_of_cons in Hin as [Hin|Hin]; [by injection Hin|].
    by apply (count_zero_elem _ _ _ Hc) in Hin.
Qed.

Lemma enrich_loop_quiet (company : dict) (es : list (enricher E)) :
  (∀ en, en ∈ es → en ∈ enrichers) →
  ∀ acc w,
    count_events is_flush
      (trace_of (for_fold (EnrichmentPipeline.enrich_step company) es acc w)) = 0%nat.
Proof.
  induction es as [|en es IH]; intros Hsub acc w; [done|].
  rewrite for_fold_cons. unfold EnrichmentPipeline.enrich_step at 1. unfold_M.
  pose proof (Hquiet en company w ltac:(apply Hsub; by left)) as Hq.
  assert (Hsub' : ∀ en', en' ∈ es → en' ∈ enrichers).
  { intros en' Hin. apply Hsub. by right. }
  unfold trace_of in *.
  destruct (enrich en company w) as [[[r|e] w1] tr1]; simpl in *.
  - specialize (IH Hsub' (dict_update acc r) w1).
    destruct (for_fold _ es (dict_update acc r) w1) as [[r2 w2] tr2]. simpl in *.
    by rewrite !count_events_app, Hq, IH.
  - specialize (IH Hsub' acc w1).
    destruct (for_fold _ es acc w1) as [[r2 w2] tr2]. simpl in *.
    by rewrite !count_events_app, !count_events_cons, Hq, IH.
Qed.

Lemma enrich_company_quiet (company : dict) (w : E) :
  count_events is_flush
    (trace_of (EnrichmentPipeline._enrich_company enrichers company w)) = 0%nat.
Proof. by apply enrich_loop_quiet. Qed.

Lemma appended_length (ticker : pyval) (agg : dict) (p : pipeline E) :
  length (results_buffer (appended env ticker agg p))
  = (length (results_buffer p) + (if (size agg =? 0)%nat then 0 else 1))%nat.
Proof.
  unfold appended. destruct (size agg =? 0)%nat; [lia|].
  destruct (clock env (world p)) as [t w1]. simpl. rewrite length_app. simpl. lia.
Qed.

(** One company with the buffer below the threshold: either the buffer
    stays below it and nothing is flushed, or it reaches it and is flushed
    once, whole. *)
Lemma run_body_flush (total : nat) (idx : Z) (company : dict) (p : pipeline E) :
  Z.of_nat (length (results_buffer p)) < save_frequency config →
  let agg := merge_outcomes (enricher_outcomes enrichers company (world p)) ∅ in
  let y := if (size agg =? 0)%nat then 0%nat else 1%nat in
  let r := run_body total (idx, company) p in
  ((Z.of_nat (length (results_buffer p) + y) < save_frequency config
    ∧ length (results_buffer (state_of r)) = (length (results_buffer p) + y)%nat
    ∧ count_events is_flush (trace_of r) = 0%nat)
   ∨ (Z.of_nat (length (results_buffer p) + y) = save_frequency config
      ∧ results_buffer (state_of r) = []
      ∧ count_events is_flush (trace_of r) = 1%nat))
  ∧ ∀ k, Log INFO (SavingRecords k) ∈ trace_of r → Z.of_nat k = save_frequency config.
Proof.
  intros Hlt agg y r. subst r. rewrite run_body_eq. cbv zeta. fold agg.
  pose proof (enrich_company_quiet company (world p)) as Hq.
  set (e := EnrichmentPipeline._enrich_company enrichers company (world p)) in *.
  set (ticker := dict_get_default company "Ticker" (VStr "Unknown")).
  set (p1 := EnrichmentPipeline.set_world (state_of e) p).
  rewrite buffer_result_eq. cbv zeta.
  pose proof (appended_length ticker agg p1) as Hlen. fold y in Hlen.
  change (results_buffer p1) with (results_buffer p) in Hlen.
  assert (Hle : Z.of_nat (length (results_buffer p) + y) ≤ save_frequency config).
  { subst y. destruct (size agg =? 0)%nat; lia. }
  destruct (_ >=? _) eqn:Hge.
  - apply Z.geb_le in Hge. rewrite Hlen in Hge.
    assert (Hne : results_buffer (appended env ticker agg p1) ≠ []).
    { intros Hnil. rewrite Hnil in Hlen. simpl in Hlen. lia. }
    destruct (save_buffer_flushes (appended env ticker agg p1) Hne) as (Hb & Hc & Hk).
    simpl_run. split.
    + right. split; [lia|]. split; [done|].
      by rewrite count_events_cons, count_events_app, Hq, Hc.
    + intros k Hin. apply elem_of_cons in Hin as [Hin|Hin]; [done|].
      apply elem_of_app in Hin as [Hin|Hin].
      * by apply (count_zero_elem _ _ _ Hq) in Hin.
      * apply Hk in Hin. lia.
  - rewrite Z.geb_leb in Hge. apply Z.leb_gt in Hge. rewrite Hlen in Hge.
    simpl_run. split.
    + left. split; [lia|]. split; [done|].
      by rewrite count_events_cons, count_events_app, Hq.
    + intros k Hin. apply elem_of_cons in Hin as [Hin|Hin]; [done|].
      rewrite app_nil_r in Hin. by apply (count_zero_elem _ _ _ Hq) in Hin.
Qed.

Lemma loop_buffer_bounded (total : nat) (xs : list (Z * dict)) :
  ∀ p, Z.of_nat (length (results_buffer p)) < save_frequency config →
       let r := for_each (run_body total) xs p in
       Z.of_nat (length (results_buffer (state_of r))) < save_frequency config
       ∧ ∀ k, Log INFO (SavingRecords k) ∈ trace_of r →
              Z.of_nat k = save_frequency config.
Proof.
  induction xs as [|[idx company] xs IH]; intros p Hlt; cbv zeta.
  - rewrite for_each_nil. simpl_run. split; [done|].
    intros k Hin. by apply elem_of_nil in Hin.
  - rewrite for_each_cons.
    pose proof (run_body_total config env enrichers total (idx, company) p) as Ht.
    destruct (run_body_flush total idx company p Hlt) as [Hcases Hk].
    cbv zeta in Hcases, Hk.
    destruct (run_body total (idx, company) p) as [[r1 p1] tr1].
    revert Ht Hcases Hk. simpl_run. intros -> Hcases Hk.
    assert (Hlt1 : Z.of_nat (length (results_buffer p1)) < save_frequency config).
    { destruct Hcases as [(H1 & H2 & _)|(_ & H2 & _)]; rewrite H2; simpl; lia. }
    destruct (IH p1 Hlt1) as [Hb Hk2]. cbv zeta in Hb, Hk2.
    destruct (for_each (run_body total) xs p1) as [[r2 p2] tr2].
    revert Hb Hk2. simpl_run. intros Hb Hk2. split; [done|].
    intros k Hin. apply elem_of_app in Hin as [Hin|Hin]; auto.
Qed.

Hypothesis Hnowrite : ∀ en company w,
  en ∈ enrichers →
  count_events is_update_call (trace_of (enrich en company w)) = 0%nat.

Lemma writes_app (tr1 tr2 : list event) : writes (tr1 ++ tr2) = writes tr1 ++ writes tr2.
Proof. unfold writes. apply filter_app. Qed.

Lemma writes_none (tr : list event) :
  count_events is_update_call tr = 0%nat → writes tr = [].
Proof. unfold count_events, writes. apply length_zero_iff_nil. Qed.

(** With a database that accepts every update, a batch writes each of its
    entries that carries a ticker, in order. *)
Lemma batch_ok_writes (us : list dict) :
  ∀ w, Forall (λ u, has_ticker u = true) us →
       writes (trace_of (batch_update_companies us w)) = update_call <$> us.
Proof.
  induction us as [|u us IH]; intros w Hus; [done|].
  apply Forall_cons in Hus as [Hu Hus]. rewrite batch_cons.
  unfold has_ticker in Hu. apply bool_decide_eq_true in Hu as [t Ht].
  rewrite Ht, update_company_eq. pose proof (Hdb t u w) as Hw.
  destruct (db_update env t u w) as [[[]|e] w1]; [|done].
  specialize (IH w1 Hus). unfold trace_of in *.
  destruct (batch_update_companies us w1) as [[r w2] tr2]. cbn [snd] in *.
  rewrite writes_app, IH. cbn [fmap list_fmap].
  unfold update_call, dict_get. by rewrite Ht.
Qed.

Lemma enrich_company_nowrite (company : dict) (w : E) :
  writes (trace_of (EnrichmentPipeline._enrich_company enrichers company w)) = [].
Proof.
  apply writes_none. unfold EnrichmentPipeline._enrich_company.
  assert (Hgen : ∀ es, (∀ en, en ∈ es → en ∈ enrichers) →
            ∀ acc w0, count_events is_update_call
              (trace_of (for_fold (EnrichmentPipeline.enrich_step company) es acc w0))
            = 0%nat); [|by apply Hgen].
  induction es as [|en es IH]; intros Hsub acc w0; [done|].
  rewrite for_fold_cons. unfold EnrichmentPipeline.enrich_step at 1. unfold_M.
  pose proof (Hnowrite en company w0 ltac:(apply Hsub; by left)) as Hq.
  assert (Hsub' : ∀ en', en' ∈ es → en' ∈ enrichers).
  { intros en' Hin. apply Hsub. by right. }
  unfold trace_of in *.
  destruct (enrich en company w0) as [[[r|e] w1] tr1]; simpl in *.
  - specialize (IH Hsub' (dict_update acc r) w1).
    destruct (for_fold _ es (dict_update acc r) w1) as [[r2 w2] tr2]. simpl in *.
    by rewrite !count_events_app, Hq, IH.
  - specialize (IH Hsub' acc w1).
    destruct (for_fold _ es acc w1) as [[r2 w2] tr2]. simpl in *.
    by rewrite !count_events_app, !count_events_cons, Hq, IH.
Qed.

(** The buffer after lines 83-86 is the buffer before them followed by the
    company's entry, if any. *)
Lemma appended_new (company : dict) (p : pipeline E) :
  let e := EnrichmentPipeline._enrich_company enrichers company (world p) in
  let agg := merge_outcomes (enricher_outcomes enrichers company (world p)) ∅ in
  results_buffer
    (appended env (dict_get_default company "Ticker" (VStr "Unknown")) agg
       (EnrichmentPipeline.set_world (state_of e) p))
  = results_buffer p ++ new_entries env enrichers company (world p).
Proof.
  intros e agg. subst e. unfold appended, new_entries.
  destruct (enrich_company_spec enrichers company (world p)) as (w' & tr & Heq & _).
  fold agg in Heq. rewrite Heq. simpl_run.
  cbv beta iota. destruct (size agg =? 0)%nat.
  - cbn [results_buffer EnrichmentPipeline.set_world]. by rewrite app_nil_r.
  - cbn [world EnrichmentPipeline.set_world]. by destruct (clock env w') as [t w1].
Qed.

Lemma new_entries_tickered (company : dict) (w : E) :
  Forall (λ u, has_ticker u = true) (new_entries env enrichers company w)
  ∧ (length (new_entries env enrichers company w) ≤ 1)%nat.
Proof.
  unfold new_entries.
  destruct (result_of _) as [agg|e]; [|by split; [constructor|simpl; lia]].
  destruct (size agg =? 0)%nat; [by split; [constructor|simpl; lia]|].
  split; [|simpl; lia]. repeat constructor. unfold has_ticker.
  apply bool_decide_eq_true. rewrite lookup_insert_ne by done.
  rewrite lookup_insert_eq. by eexists.
Qed.

(** One company with the buffer below the threshold: its entry either
    leaves the buffer below the threshold, and nothing is written, or
    takes it to the threshold, and the whole buffer is written, in order,
    by one flush. *)
Lemma run_body_writes (total : nat) (idx : Z) (company : dict) (p : pipeline E) :
  Z.of_nat (length (results_buffer p)) < save_frequency config →
  Forall (λ u, has_ticker u = true) (results_buffer p) →
  let now_in := results_buffer p ++ new_entries env enrichers company (world p) in
  let r := run_body total (idx, company) p in
  (Z.of_nat (length now_in) < save_frequency config
   ∧ results_buffer (state_of r) = now_in
   ∧ count_events is_flush (trace_of r) = 0%nat
   ∧ writes (trace_of r) = [])
  ∨ (Z.of_nat (length now_in) = save_frequency config
     ∧ results_buffer (state_of r) = []
     ∧ count_events is_flush (trace_of r) = 1%nat
     ∧ writes (trace_of r) = update_call <$> now_in).
Proof.
  intros Hlt Htick now_in r. subst r. rewrite run_body_eq. cbv zeta.
  pose proof (enrich_company_quiet company (world p)) as Hq.
  pose proof (enrich_company_nowrite company (world p)) as Hnw.
  pose proof (appended_new company p) as Hbuf. cbv zeta in Hbuf. fold now_in in Hbuf.
  destruct (new_entries_tickered company (world p)) as [Hnew Hlen].
  assert (Htick' : Forall (λ u, has_ticker u = true) now_in) by by apply Forall_app.
  assert (Hle : Z.of_nat (length now_in) ≤ save_frequency config).
  { subst now_in. rewrite length_app. lia. }
  set (e := EnrichmentPipeline._enrich_company enrichers company (world p)) in *.
  set (ticker := dict_get_default company "Ticker" (VStr "Unknown")) in *.
  set (agg := merge_outcomes (enricher_outcomes enrichers company (world p)) ∅) in *.
  set (p1 := EnrichmentPipeline.set_world (state_of e) p) in *.
  rewrite buffer_result_eq. cbv zeta. rewrite Hbuf.
  destruct (_ >=? _) eqn:Hge.
  - apply Z.geb_le in Hge. right. split; [lia|].
    rewrite save_buffer_eq, Hbuf.
    destruct now_in as [|u us] eqn:Hnow; [simpl in Hge; lia|]. cbv zeta.
    destruct (batch_ok_quiet (u :: us) (world (appended env ticker agg p1))) as [Hr Hc].
    pose proof (batch_ok_writes (u :: us) (world (appended env ticker agg p1)) Htick')
      as Hw.
    rewrite Hr. simpl_run. split; [done|]. split.
    + by rewrite count_events_cons, count_events_app, Hq, count_events_cons, Hc.
    + change (Log INFO (Processing ticker (idx + 1) total) :: trace_of e ++ ?tr)
        with ([Log INFO (Processing ticker (idx + 1) total)] ++ trace_of e ++ tr).
      rewrite !writes_app, Hnw.
      change (Log INFO (SavingRecords (length (u :: us))) :: ?tr)
        with ([Log INFO (SavingRecords (length (u :: us)))] ++ tr).
      by rewrite writes_app, Hw.
  - rewrite Z.geb_leb in Hge. apply Z.leb_gt in Hge. left. split; [lia|].
    simpl_run. split; [done|]. split.
    + by rewrite count_events_cons, count_events_app, Hq.
    + change (Log INFO (Processing ticker (idx + 1) total) :: trace_of e ++ ?tr)
        with ([Log INFO (Processing ticker (idx + 1) total)] ++ trace_of e ++ tr).
      by rewrite !writes_app, Hnw.
Qed.

(** Over the loop, every entry that was in the buffer or was appended to it
    has been written once, in order, or is still in the buffer; the flushes
    wrote a threshold's worth of entries each. *)
Lemma loop_writes (total : nat) (xs : list (Z * dict)) :
  ∀ p, Z.of_nat (length (results_buffer p)) < save_frequency config →
       Forall (λ u, has_ticker u = true) (results_buffer p) →
       let r := for_each (run_body total) xs p in
       ∃ written,
         writes (trace_of r) = update_call <$> written
         ∧ written ++ results_buffer (state_of r)
           = results_buffer p ++ appended_entries config env enrichers total xs p
         ∧ Z.of_nat (length written)
           = Z.of_nat (count_events is_flush (trace_of r)) * save_frequency config.
Proof.
  induction xs as [|[idx company] xs IH]; intros p Hlt Htick; cbv zeta.
  - rewrite for_each_nil. simpl_run. exists []. cbn [appended_entries].
    rewrite app_nil_r. by repeat split.
  - rewrite for_each_cons. cbn [appended_entries snd].
    pose proof (run_body_total config env enrichers total (idx, company) p) as Ht.
    pose proof (run_body_writes total idx company p Hlt Htick) as Hcases.
    cbv zeta in Hcases.
    destruct (new_entries_tickered company (world p)) as [Hnew _].
    set (new := new_entries env enrichers company (world p)) in *.
    destruct (run_body total (idx, company) p) as [[r1 p1] tr1].
    revert Ht Hcases. simpl_run. intros -> Hcases.
    assert (Hp1 : Z.of_nat (length (results_buffer p1)) < save_frequency config
                  ∧ Forall (λ u, has_ticker u = true) (results_buffer p1)).
    { destruct Hcases as [(H1 & H2 & _)|(_ & H2 & _)]; rewrite H2.
      - split; [done|]. by apply Forall_app.
      - split; [simpl; lia|constructor]. }
    destruct Hp1 as [Hlt1 Htick1].
    destruct (IH p1 Hlt1 Htick1) as (written & Hw & Hcons & Hnum).
    cbv zeta in Hw, Hcons, Hnum.
    destruct (for_each (run_body total) xs p1) as [[r2 p2] tr2].
    revert Hw Hcons Hnum. simpl_run. intros Hw Hcons Hnum.
    rewrite writes_app, count_events_app, Hw.
    destruct Hcases as [(H1 & H2 & H3 & H4)|(H1 & H2 & H3 & H4)]; rewrite H3, H4.
    + exists written. split; [done|]. rewrite Hcons, H2, <- app_assoc.
      split; [done|]. lia.
    + exists ((results_buffer p ++ new) ++ written).
      split; [by rewrite !fmap_app|]. rewrite <- !app_assoc, Hcons, H2.
      split; [done|]. rewrite !length_app in *. lia.
Qed.
End flush_facts.

(** C2, as stated, fails when the database rejects the updates: with a
    threshold of 1, the first flush leaves its entry in the buffer, and the
    second company takes the buffer to 2 entries before the next flush. *)
Lemma buffer_bound_counterexample :
  let config := Fixtures.config_with 1 in
  let env := Fixtures.test_services [] Fixtures.always_fails in
  let r := EnrichmentPipeline.run_loop config env
             [Fixtures.const_enricher "good" {[ "x" := VInt 1 ]}]
             [Fixtures.company "AAPL"; Fixtures.company "MSFT"]
             (new_pipeline Fixtures.w0) in
  save_frequency config = 1
  ∧ filter (λ ev, is_flush ev = true) (trace_of r)
    = [Log INFO (SavingRecords 1); Log INFO (SavingRecords 2)]
  ∧ length (results_buffer (state_of r)) = 2%nat.
Proof. repeat split; vm_compute; reflexivity. Qed.

(** C2, amended. Let the threshold be at least 1, the database accept
    every update, and the enrichers emit no flush announcement and no
    company update call of their own. In a run loop started with the
    buffer below the threshold, every entry of it carrying a ticker:
    before each company the buffer is below the threshold, so the entry a
    company may append never takes it beyond; every flush announces exactly
    a threshold's worth of records; the entries written, in order, followed
    by the entries left in the buffer are the entries that were in the
    buffer followed by those appended, and their number is the threshold
    times the number of flushes. So, started with an empty buffer,
    appending exactly [save_frequency] results triggers exactly one flush,
    which writes them and leaves the buffer empty, while appending
    [save_frequency - 1] results triggers no flush and writes nothing. *)
Theorem flush_at_threshold {E : Type} (config : Config) (env : services E)
    (enrichers : list (enricher E)) (companies : list dict) (p : pipeline E) :
  1 ≤ save_frequency config →
  (∀ t u w, (db_update env t u w).1 = Ok tt) →
  (∀ en company w,
     en ∈ enrichers →
     count_events is_flush (trace_of (enrich en company w)) = 0%nat
     ∧ count_events is_update_call (trace_of (enrich en company w)) = 0%nat) →
  Z.of_nat (length (results_buffer p)) < save_frequency config →
  Forall (λ u, has_ticker u = true) (results_buffer p) →
  let r := EnrichmentPipeline.run_loop config env enrichers companies p in
  let new := appended_entries config env enrichers (length companies)
               (enumerate companies) p in
  let flushes := count_events is_flush (trace_of r) in
  (∀ n, Z.of_nat (length (results_buffer
                            (state_before config env enrichers companies n p)))
        < save_frequency config)
  ∧ (∀ k, Log INFO (SavingRecords k) ∈ trace_of r → Z.of_nat k = save_frequency config)
  ∧ (∃ written,
       writes (trace_of r) = update_call <$> written
       ∧ written ++ results_buffer (state_of r) = results_buffer p ++ new
       ∧ Z.of_nat (length written) = Z.of_nat flushes * save_frequency config)
  ∧ (results_buffer p = [] →
     (Z.of_nat (length new) = save_frequency config →
        flushes = 1%nat
        ∧ writes (trace_of r) = update_call <$> new
        ∧ results_buffer (state_of r) = [])
     ∧ (Z.of_nat (length new) = save_frequency config - 1 →
          flushes = 0%nat
          ∧ writes (trace_of r) = []
          ∧ results_buffer (state_of r) = new)).
Proof.
  intros Hsf Hdb Hquiet Hlt Htick r new flushes.
  assert (Hq1 : ∀ en company w, en ∈ enrichers →
            count_events is_flush (trace_of (enrich en company w)) = 0%nat).
  { intros en company w Hin. by apply Hquiet. }
  assert (Hq2 : ∀ en company w, en ∈ enrichers →
            count_events is_update_call (trace_of (enrich en company w)) = 0%nat).
  { intros en company w Hin. by apply Hquiet. }
  destruct (loop_buffer_bounded config env enrichers Hsf Hdb Hq1
              (length companies) (enumerate companies) p Hlt) as [Hbound Hsaving].
  destruct (loop_writes config env enrichers Hsf Hdb Hq1 Hq2
              (length companies) (enumerate companies) p Hlt Htick)
    as (written & Hw & Hcons & Hnum).
  cbv zeta in Hbound, Hsaving, Hw, Hcons, Hnum.
  fold (EnrichmentPipeline.run_loop config env enrichers companies p)
    in Hbound, Hsaving, Hw, Hcons, Hnum.
  fold r new in Hbound, Hsaving, Hw, Hcons, Hnum. fold flushes in Hnum.
  split; [|split; [done|split]].
  - intros n. unfold state_before.
    apply (loop_buffer_bounded config env enrichers Hsf Hdb Hq1); done.
  - by exists written.
  - intros Hempty. rewrite Hempty in Hcons. cbn [app] in Hcons.
    pose proof (f_equal length Hcons) as Hlen. rewrite length_app in Hlen.
    split; intros Hnew.
    + assert (flushes = 1%nat ∧ length (results_buffer (state_of r)) = 0%nat)
        as [Hf Hl].
      { destruct flushes as [|[|f]]; [lia|lia|nia]. }
      apply length_zero_iff_nil in Hl. rewrite Hl, app_nil_r in Hcons.
      by rewrite Hw, Hcons.
    + assert (flushes = 0%nat) as Hf.
      { destruct flushes as [|f]; [done|nia]. }
      rewrite Hf in Hnum. assert (written = []) as ->.
      { apply length_zero_iff_nil. lia. }
      by rewrite Hw.
Qed.

Lemma flush_at_threshold_witness :
  let config := Fixtures.config_with 2 in
  let env := Fixtures.test_services [] Fixtures.never_fails in
  let enrichers := [Fixtures.const_enricher "good" {[ "x" := VInt 1 ]}] in
  let two := [Fixtures.company "AAPL"; Fixtures.company "MSFT"] in
  let one := [Fixtures.company "AAPL"] in
  let run := λ companies,
    EnrichmentPipeline.run_loop config env enrichers companies
      (new_pipeline Fixtures.w0) in
  let new := λ companies,
    appended_entries config env enrichers (length companies) (enumerate companies)
      (new_pipeline Fixtures.w0) in
  (count_events is_flush (trace_of (run two)) = 1%nat
   ∧ writes (trace_of (run two)) = update_call <$> new two
   ∧ results_buffer (state_of (run two)) = [])
  ∧ (count_events is_flush (trace_of (run one)) = 0%nat
     ∧ writes (trace_of (run one)) = []
     ∧ results_buffer (state_of (run one)) = new one).
Proof.
  intros config env enrichers two one run new.
  assert (Hquiet : ∀ (en : enricher Fixtures.test_world) company w,
            en ∈ enrichers →
            count_events is_flush (trace_of (enrich en company w)) = 0%nat
            ∧ count_events is_update_call (trace_of (enrich en company w)) = 0%nat).
  { intros en company w Hin. apply list_elem_of_singleton in Hin as ->. done. }
  split.
  - apply (proj1 (proj2 (proj2 (proj2 (flush_at_threshold config env enrichers two
             (new_pipeline Fixtures.w0) ltac:(simpl; lia) ltac:(done) Hquiet
             ltac:(simpl; lia) ltac:(constructor)))) eq_refl)).
    vm_compute. reflexivity.
  - apply (proj2 (proj2 (proj2 (proj2 (flush_at_threshold config env enrichers one
             (new_pipeline Fixtures.w0) ltac:(simpl; lia) ltac:(done) Hquiet
             ltac:(simpl; lia) ltac:(constructor)))) eq_refl)).
    vm_compute. reflexivity.
Defined.

(** ** The enrichers *)

Arguments retry_on_failure : simpl never.

Lemma retry_first_success {S A : Type} (R : Z) (delay : float) (func_name : string)
    (func : M S A) (s s1 : S) (a : A) (tr : list event) :
  0 ≤ R →
  func s = (Ok a, s1, tr) →
  retry_on_failure R delay func_name func s = (Ok a, s1, tr).
Proof.
  intros HR Hf. unfold retry_on_failure, py_range.
  destruct (Z.to_nat (R + 1)) as [|n] eqn:Hn; [lia|].
  simpl. unfold_M. rewrite Hf. by rewrite app_nil_r.
Qed.

(** What the wrapper returns was returned by some invocation. *)
Lemma retry_loop_result {S A : Type} (R : Z) (delay : float) (func_name : string)
    (func : M S A) (attempts : list Z) :
  ∀ last s a,
    result_of (retry_loop R delay func_name func attempts last s) = Ok a →
    ∃ s', result_of (func s') = Ok a.
Proof.
  induction attempts as [|attempt rest IH]; intros last s a.
  - simpl. by destruct last.
  - simpl. unfold time_sleep, lift_outcome. unfold_M. unfold result_of in *.
    destruct (func s) as [[[x|e] s1] tr1] eqn:Hf; simpl.
    + intros [= ->]. exists s. by rewrite Hf.
    + destruct (attempt <? R); simpl.
      * destruct (float_mul_int delay (attempt + 1)) as [secs|e1]; [|done].
        destruct (check_sleep secs) as [[]|e2]; [|done]. simpl.
        destruct (retry_loop R delay func_name func rest (Some e) s1)
          as [[r2 s2] tr2] eqn:Hl. simpl. intros ->.
        apply (IH (Some e) s1). by rewrite Hl.
      * destruct (retry_loop R delay func_name func rest (Some e) s1)
          as [[r2 s2] tr2] eqn:Hl. simpl. intros ->.
        apply (IH (Some e) s1). by rewrite Hl.
Qed.

Lemma not_valid (company : dict) :
  (company !! "Ticker" = None
   ∨ ∃ v, company !! "Ticker" = Some v ∧ truthy v = false) →
  negb (truthy (BaseEnricher.validate_input company)) = true.
Proof.
  unfold BaseEnricher.validate_input.
  intros [->|(v & -> & Hv)]; [done|]. by rewrite Hv.
Qed.

(** C8. A company without a ticker, or whose ticker is empty (or any other
    false value), makes every enricher return the empty mapping at once:
    nothing is raised, the trace is empty (no provider call, no retry) and
    the world is untouched. *)
Theorem ineligible_company_skipped {E : Type} (env : services E) (prov : providers E)
    (lookback_date : string) (company : dict) (w : E) :
  (company !! "Ticker" = None
   ∨ ∃ v, company !! "Ticker" = Some v ∧ truthy v = false) →
  YahooFinanceEnricher.enrich prov company w = (Ok ∅, w, [])
  ∧ ISINEnricher.enrich company w = (Ok ∅, w, [])
  ∧ SectorClassificationEnricher.enrich company w = (Ok ∅, w, [])
  ∧ SECFilingsEnricher.enrich env prov lookback_date company w = (Ok ∅, w, [])
  ∧ LLMInvestorInformationEnricher.enrich env prov company w = (Ok ∅, w, []).
Proof.
  intros Hbad. apply not_valid in Hbad.
  repeat split; apply retry_first_success; try lia.
  - unfold YahooFinanceEnricher.enrich_once. by rewrite Hbad.
  - unfold ISINEnricher.enrich_once. by rewrite Hbad.
  - unfold SectorClassificationEnricher.enrich_once. by rewrite Hbad.
  - unfold SECFilingsEnricher.enrich_once. by rewrite Hbad.
  - unfold LLMInvestorInformationEnricher.enrich_once. by rewrite Hbad.
Qed.

Lemma ineligible_company_skipped_witness :
  let env := Fixtures.test_services [] Fixtures.never_fails in
  let prov := Fixtures.test_providers in
  let company : dict := {[ "Ticker" := VStr ""; "Security" := VStr "Nameless" ]} in
  YahooFinanceEnricher.enrich prov company Fixtures.w0 = (Ok ∅, Fixtures.w0, [])
  ∧ ISINEnricher.enrich company Fixtures.w0 = (Ok ∅, Fixtures.w0, [])
  ∧ SectorClassificationEnricher.enrich company Fixtures.w0 = (Ok ∅, Fixtures.w0, [])
  ∧ SECFilingsEnricher.enrich env prov "2025-11-03" company Fixtures.w0
    = (Ok ∅, Fixtures.w0, [])
  ∧ LLMInvestorInformationEnricher.enrich env prov company Fixtures.w0
    = (Ok ∅, Fixtures.w0, []).
Proof.
  intros env prov company.
  apply (ineligible_company_skipped env prov "2025-11-03" company Fixtures.w0).
  right. exists (VStr ""). split; reflexivity.
Defined.

(** C6 at a company EDGAR knows, with a current report but no annual
    report, quarterly report or proxy statement in the lookback window: the
    SEC enricher returns normally, and the mapping it returns carries
    [None] under [sec_latest_10k], [sec_latest_10q] and [sec_latest_proxy]. *)
Theorem sec_enricher_returns_none_values :
  let env := Fixtures.test_services [] Fixtures.never_fails in
  let r := SECFilingsEnricher.enrich env Fixtures.test_providers "2025-11-03"
             (Fixtures.company "AAPL") Fixtures.w0 in
  ∃ d, result_of r = Ok d
       ∧ d !! "sec_latest_8k" = Some (VStr "https://sec.example/aapl-8k")
       ∧ d !! "sec_latest_10k" = Some VNone
       ∧ d !! "sec_latest_10q" = Some VNone
       ∧ d !! "sec_latest_proxy" = Some VNone
       ∧ ¬ no_none d.
Proof.
  intros env r.
  assert (H : match result_of r with
              | Ok d => [d !! "sec_latest_8k"; d !! "sec_latest_10k";
                         d !! "sec_latest_10q"; d !! "sec_latest_proxy"]
              | Raise _ => []
              end
              = [Some (VStr "https://sec.example/aapl-8k"); Some VNone;
                 Some VNone; Some VNone])
    by (vm_compute; reflexivity).
  destruct (result_of r) as [d|e]; [|discriminate].
  injection H as H8k H10k H10q Hproxy.
  exists d. repeat split; try assumption.
  intros Hnone. by apply (Hnone "sec_latest_10k" VNone).
Qed.

(** The sibling enrichers do drop [None]: what the market-data, identifier,
    classification and LLM enrichers return carries no [None] entry. *)
Lemma clean_none_no_none (d : dict) : no_none (clean_none d).
Proof.
  intros k v Hk. unfold clean_none in Hk.
  apply map_lookup_filter_Some in Hk as [_ Hv]. simpl in Hv. by intros ->.
Qed.

Lemma empty_no_none : no_none ∅.
Proof. intros k v Hk. by rewrite lookup_empty in Hk. Qed.

Lemma Ok_inj {A : Type} (a b : A) : Ok a = Ok b → a = b.
Proof. by intros [= ->]. Qed.

Lemma yahoo_once_no_none {E : Type} (prov : providers E) (company : dict) (w : E) d :
  result_of (YahooFinanceEnricher.enrich_once prov company w) = Ok d → no_none d.
Proof.
  unfold YahooFinanceEnricher.enrich_once.
  destruct (negb _); [intros <-%Ok_inj; apply empty_no_none|].
  unfold YahooFinanceEnricher._calculate_avg_volume_value. unfold_M.
  unfold call_service, result_of.
  destruct (yf_info prov _ w) as [[info|e] w1]; red_run; [|done].
  destruct (yf_history prov _ w1) as [[[[a b]|]|e] w2]; red_run;
    intros <-%Ok_inj; apply clean_none_no_none.
Qed.

Lemma isin_once_no_none {E : Type} (company : dict) (w : E) d :
  result_of (ISINEnricher.enrich_once company w) = Ok d → no_none d.
Proof.
  unfold ISINEnricher.enrich_once.
  destruct (negb _); intros <-%Ok_inj; apply empty_no_none.
Qed.

Lemma bics_once_no_none {E : Type} (company : dict) (w : E) d :
  result_of (SectorClassificationEnricher.enrich_once company w) = Ok d → no_none d.
Proof.
  unfold SectorClassificationEnricher.enrich_once.
  destruct (negb _); intros <-%Ok_inj; apply empty_no_none.
Qed.

Lemma llm_once_no_none {E : Type} (env : services E) (prov : providers E)
    (company : dict) (w : E) d :
  result_of (LLMInvestorInformationEnricher.enrich_once env prov company w) = Ok d →
  no_none d.
Proof.
  unfold LLMInvestorInformationEnricher.enrich_once.
  destruct (negb _); [intros <-%Ok_inj; apply empty_no_none|].
  unfold LLMInvestorInformationEnricher._get_current_timestamp, now, lift_outcome.
  unfold_M. unfold call_service, result_of.
  destruct (generate_content prov _ _ w) as [[text|e] w1]; red_run; [|done].
  destruct (LLMInvestorInformationEnricher._parse_llm_response prov text w1)
    as [[[[investor_data|]|e] w2] tr2]; red_run; [| |done].
  - destruct (negb (size investor_data =? 0)%nat); red_run.
    + destruct (py_len _) as [count|e]; red_run; [|done].
      destruct (clock env w2) as [t w3]. red_run.
      intros <-%Ok_inj. apply clean_none_no_none.
    + intros <-%Ok_inj. apply empty_no_none.
  - intros <-%Ok_inj. apply empty_no_none.
Qed.

Lemma sibling_enrichers_drop_none {E : Type} (env : services E) (prov : providers E)
    (company : dict) (w : E) (d : dict) :
  (result_of (YahooFinanceEnricher.enrich prov company w) = Ok d → no_none d)
  ∧ (result_of (ISINEnricher.enrich company w) = Ok d → no_none d)
  ∧ (result_of (SectorClassificationEnricher.enrich company w) = Ok d → no_none d)
  ∧ (result_of (LLMInvestorInformationEnricher.enrich env prov company w) = Ok d →
     no_none d).
Proof.
  repeat split; intros Hr; apply retry_loop_result in Hr as [w' Hr].
  - by apply yahoo_once_no_none in Hr.
  - by apply isin_once_no_none in Hr.
  - by apply bics_once_no_none in Hr.
  - by apply llm_once_no_none in Hr.
Qed.

(** ** End to end *)

(** Two companies, one enricher that always returns [{"x": 1}] and a
    threshold of 2: one flush of two records, each with the enricher's
    field, the ticker and the time stamp, and a summary of 2 out of 2. *)
Example end_to_end :
  let env := Fixtures.test_services
               [Fixtures.company "AAPL"; Fixtures.company "MSFT"] Fixtures.never_fails in
  let r := EnrichmentPipeline.run (Fixtures.config_with 2) env
             [Fixtures.const_enricher "good" {[ "x" := VInt 1 ]}] None
             (new_pipeline Fixtures.w0) in
  let record (t : string) : dict :=
    {[ "x" := VInt 1; "Ticker" := VStr t;
       "last_enriched" := VStr "2026-01-01T00:00:00" ]} in
  result_of r = Ok tt
  ∧ filter (λ ev, is_flush ev = true) (trace_of r) = [Log INFO (SavingRecords 2)]
  ∧ Fixtures.written (world (state_of r))
    = [(VStr "AAPL", record "AAPL"); (VStr "MSFT", record "MSFT")]
  ∧ ∃ duration, last (trace_of r) = Some (Log INFO (PipelineCompleted 2 2 duration)).
Proof. repeat split; try (vm_compute; reflexivity). eexists. vm_compute. reflexivity. Qed.

(** The retry wrapper invokes a flaky operation once more than it fails. *)
Example retry_invocations :
  state_of (retry_on_failure 2 1%float "enrich" (counted (Fixtures.flaky 1))
              (0%nat, 0%nat))
  = (2%nat, 2%nat).
Proof. reflexivity. Qed.

(** White space beyond ASCII is white space to [split] and [strip]. *)
Example py_split_no_break_space :
  py_split ("AAPL" ++ nbsp ++ "US Equity")%string = ["AAPL"; "US"; "Equity"]
  ∧ py_split nbsp = []
  ∧ SECFilingsEnricher.clean_ticker (VStr nbsp)
    = Raise (IndexError "list index out of range").
Proof. repeat split; vm_compute; reflexivity. Qed.

Example unfence_no_break_space :
  LLMInvestorInformationEnricher.unfence ("```json" ++ nbsp ++ "{}```" ++ nbsp)%string
  = "{}".
Proof. vm_compute. reflexivity. Qed.

(** * Further properties of the code *)

(** ** The retry wrapper: backoff and degenerate retry counts *)

Lemma sleeps_app (tr1 tr2 : list event) : sleeps (tr1 ++ tr2) = sleeps tr1 ++ sleeps tr2.
Proof. unfold sleeps. apply filter_app. Qed.

Section backoff_facts.
Context {S A : Type}.
Variable max_retries : Z.
Variable delay : float.
Variable func_name : string.
Variable func : M S A.
Hypothesis Hsleepless : sleepless func.

Lemma backoff_cons (a n : nat) :
  backoff delay a (Datatypes.S n)
  = Sleep (delay * to_float (Z.of_nat a + 1))%float :: backoff delay (Datatypes.S a) n.
Proof. reflexivity. Qed.

Lemma sleeps_turn (tr1 tr2 : list event) (lvl : level) (msg : message) (d : float) :
  sleeps tr1 = [] →
  sleeps (tr1 ++ Log lvl msg :: Sleep d :: tr2) = Sleep d :: sleeps tr2.
Proof.
  intros Hs. rewrite sleeps_app, Hs. unfold sleeps. by rewrite !filter_cons.
Qed.

Lemma retry_loop_backoff_success (k : nat) :
  ∀ (n a : nat) last s v,
    (k < n)%nat →
    Z.of_nat a + Z.of_nat n = max_retries + 1 →
    (∀ i, (i < k)%nat → valid_pause delay (a + i) = true) →
    (∀ i, (i < k)%nat → is_ok (nth_attempt func i s) = false) →
    nth_attempt func k s = Ok v →
    sleeps (trace_of (retry_loop max_retries delay func_name func
                        (Z.of_nat <$> seq a n) last s))
    = backoff delay a k.
Proof.
  induction k as [|k IH]; intros n a last s v Hn Hsum Hpause Hfail Hok.
  - destruct n as [|n]; [lia|]. cbn [seq fmap list_fmap].
    unfold nth_attempt, result_of in Hok. cbn [state_after] in Hok.
    pose proof (Hsleepless s) as Hs.
    destruct (func s) as [[r s1] tr1] eqn:Hf. cbn [fst] in Hok. subst r.
    rewrite (retry_loop_returns _ _ _ _ _ _ _ _ _ _ _ Hf). simpl_run.
    revert Hs. simpl_run. intros Hs. by rewrite app_nil_r, Hs.
  - destruct n as [|n]; [lia|]. cbn [seq fmap list_fmap].
    pose proof (Hfail 0%nat ltac:(lia)) as H0.
    unfold nth_attempt, result_of in H0. cbn [state_after] in H0.
    rewrite nth_attempt_succ in Hok.
    assert (Hfail' : ∀ i, (i < k)%nat →
              is_ok (nth_attempt func i (state_of (func s))) = false).
    { intros i Hi. apply (Hfail (Datatypes.S i)). lia. }
    pose proof (Hsleepless s) as Hs.
    destruct (func s) as [[r s1] tr1] eqn:Hf. cbn [fst] in H0.
    destruct r as [x|e]; [discriminate|].
    rewrite (retry_loop_retries _ _ _ _ a _ _ _ _ _ _ Hf); [|lia|].
    2:{ rewrite <- (Nat.add_0_r a). apply Hpause. lia. }
    revert Hfail' Hok Hs. simpl_run. intros Hfail' Hok Hs.
    rewrite (sleeps_turn _ _ _ _ _ Hs), backoff_cons. f_equal.
    apply (IH n (Datatypes.S a) (Some e) s1 v); [lia|lia| |done|done].
    intros i Hi. replace (Datatypes.S a + i)%nat with (a + Datatypes.S i)%nat by lia.
    apply Hpause. lia.
Qed.

Lemma retry_loop_backoff_exhausted (n : nat) :
  ∀ (a : nat) last s,
    Z.of_nat a + Z.of_nat (Datatypes.S n) = max_retries + 1 →
    (∀ i, (i < n)%nat → valid_pause delay (a + i) = true) →
    (∀ i, (i ≤ n)%nat → is_ok (nth_attempt func i s) = false) →
    sleeps (trace_of (retry_loop max_retries delay func_name func
                        (Z.of_nat <$> seq a (Datatypes.S n)) last s))
    = backoff delay a n.
Proof.
  induction n as [|n IH]; intros a last s Hsum Hpause Hfail.
  - pose proof (Hfail 0%nat ltac:(lia)) as H0.
    pose proof (Hsleepless s) as Hs.
    unfold nth_attempt, result_of in H0. cbn [state_after] in H0.
    cbn [seq fmap list_fmap].
    destruct (func s) as [[r s1] tr1] eqn:Hf. cbn [fst] in H0.
    destruct r as [x|e]; [discriminate|].
    rewrite (retry_loop_gives_up _ _ _ _ a _ _ _ _ _ Hf); [|lia].
    revert Hs. simpl_run. intros Hs. by rewrite sleeps_app, Hs.
  - pose proof (Hfail 0%nat ltac:(lia)) as H0.
    assert (Hfail' : ∀ i, (i ≤ n)%nat →
              is_ok (nth_attempt func i (state_of (func s))) = false).
    { intros i Hi. apply (Hfail (Datatypes.S i)). lia. }
    pose proof (Hsleepless s) as Hs.
    unfold nth_attempt, result_of in H0. cbn [state_after] in H0.
    remember (Datatypes.S n) as m eqn:Hm.
    cbn [seq fmap list_fmap].
    destruct (func s) as [[r s1] tr1] eqn:Hf. cbn [fst] in H0.
    destruct r as [x|e]; [discriminate|].
    rewrite (retry_loop_retries _ _ _ _ a _ _ _ _ _ _ Hf); [|lia|].
    2:{ rewrite <- (Nat.add_0_r a). apply Hpause. lia. }
    revert Hfail' Hs. simpl_run. intros Hfail' Hs. subst m.
    rewrite (sleeps_turn _ _ _ _ _ Hs), backoff_cons. f_equal.
    apply (IH (Datatypes.S a) (Some e) s1); [lia| |done].
    intros i Hi. replace (Datatypes.S a + i)%nat with (a + Datatypes.S i)%nat by lia.
    apply Hpause. lia.
Qed.
End backoff_facts.

(** X1. As long as the pauses are pauses the wrapper can take, it waits
    [delay * 1], [delay * 2], ... between attempts: one pause after each
    failed attempt that is followed by another, growing linearly, and none
    after the attempt that succeeds or the one that exhausts the retries. *)
Theorem retry_backoff_is_linear {S A : Type} (R : Z) (delay : float)
    (func_name : string) (func : M S A) (s : S) :
  0 ≤ R →
  sleepless func →
  (∀ (k : nat) (v : A),
     Z.of_nat k ≤ R →
     (∀ i, (i < k)%nat → valid_pause delay i = true) →
     (∀ i, (i < k)%nat → is_ok (nth_attempt func i s) = false) →
     nth_attempt func k s = Ok v →
     sleeps (trace_of (retry_on_failure R delay func_name func s)) = backoff delay 0 k)
  ∧ ((∀ i, (i < Z.to_nat R)%nat → valid_pause delay i = true) →
     (∀ i, (i ≤ Z.to_nat R)%nat → is_ok (nth_attempt func i s) = false) →
     sleeps (trace_of (retry_on_failure R delay func_name func s))
     = backoff delay 0 (Z.to_nat R)).
Proof.
  intros HR Hsl. unfold retry_on_failure, py_range. split.
  - intros k v Hk Hpause Hfail Hok.
    apply (retry_loop_backoff_success R delay func_name func Hsl k _ _ _ _ v); auto; lia.
  - intros Hpause Hfail.
    replace (Z.to_nat (R + 1)) with (Datatypes.S (Z.to_nat R)) by lia.
    apply (retry_loop_backoff_exhausted R delay func_name func Hsl); auto; lia.
Qed.

Lemma flaky_sleepless n : sleepless (Fixtures.flaky n).
Proof. intros s. unfold Fixtures.flaky. by destruct (s <? n)%nat. Qed.

Lemma retry_backoff_is_linear_witness :
  sleeps (trace_of (retry_on_failure 2 1%float "enrich" (Fixtures.flaky 1) 0%nat))
  = [Sleep 1%float]
  ∧ sleeps (trace_of (retry_on_failure 2 1%float "enrich" (Fixtures.flaky 5) 0%nat))
    = [Sleep 1%float; Sleep 2%float].
Proof.
  split.
  - apply (proj1 (retry_backoff_is_linear 2 1%float "enrich" (Fixtures.flaky 1) 0%nat
                    ltac:(lia) (flaky_sleepless 1)) 1%nat 42).
    + lia.
    + intros i Hi. apply valid_pause_default. lia.
    + intros i Hi. destruct i as [|i]; [reflexivity|lia].
    + reflexivity.
  - apply (proj2 (retry_backoff_is_linear 2 1%float "enrich" (Fixtures.flaky 5) 0%nat
                    ltac:(lia) (flaky_sleepless 5))).
    + apply valid_pause_default.
    + intros i Hi. destruct i as [|[|[|i]]]; [reflexivity|reflexivity|reflexivity|].
      simpl in Hi. lia.
Defined.

(** X2. With a negative retry count the wrapped operation is never
    invoked: the loop over [range(max_retries + 1)] is empty, and the
    [raise last_exception] that follows it raises a [TypeError], leaving no
    trace and the state untouched. *)
Theorem retry_negative_never_calls {S A : Type} (R : Z) (delay : float)
    (func_name : string) (func : M S A) (s : S) :
  R < 0 →
  retry_on_failure R delay func_name func s
  = (Raise (TypeError "exceptions must derive from BaseException"), s, []).
Proof.
  intros HR. unfold retry_on_failure, py_range.
  replace (Z.to_nat (R + 1)) with 0%nat by lia. reflexivity.
Qed.

Lemma retry_negative_never_calls_witness :
  retry_on_failure (-1) 1%float "enrich" (Fixtures.flaky 0) 0%nat
  = (Raise (TypeError "exceptions must derive from BaseException"), 0%nat, []).
Proof. apply retry_negative_never_calls. lia. Defined.

(** X28. A pause that cannot be taken ends the retries: when the first
    attempt fails, a retry remains and [time.sleep] rejects [delay * 1] (a
    negative delay, a NaN, a delay beyond its range), the wrapper logs the
    first warning and raises the error of the sleep; the operation has been
    invoked once and is not invoked again. *)
Theorem retry_invalid_pause_raises {S A : Type} (R : Z) (delay : float)
    (func_name : string) (func : M S A) (s s1 : S) (e e' : exn) (tr1 : list event) :
  0 < R →
  func s = (Raise e, s1, tr1) →
  check_sleep (delay * 1)%float = Raise e' →
  retry_on_failure R delay func_name func s
  = (Raise e', s1, tr1 ++ [Log WARNING (AttemptFailed 1 func_name e)]).
Proof.
  intros HR Hf Hsleep. unfold retry_on_failure, py_range.
  destruct (Z.to_nat (R + 1)) as [|n] eqn:Hn; [lia|].
  cbn [seq fmap list_fmap retry_loop].
  assert (Hlt : (Z.of_nat 0 <? R) = true) by (apply Z.ltb_lt; lia).
  rewrite Hlt. unfold time_sleep, lift_outcome. unfold_M. rewrite Hf.
  change (float_mul_int delay (Z.of_nat 0 + 1)) with (Ok (delay * 1)%float).
  cbv beta iota. by rewrite Hsleep.
Qed.

Lemma retry_invalid_pause_raises_witness :
  retry_on_failure 2 (-1)%float "enrich" (Fixtures.flaky 1) 0%nat
  = (Raise (ValueError "sleep length must be non-negative"), 1%nat,
     [] ++ [Log WARNING (AttemptFailed 1 "enrich" (Exception "boom"))]).
Proof.
  apply (retry_invalid_pause_raises 2 (-1)%float "enrich" (Fixtures.flaky 1)
           0%nat 1%nat (Exception "boom")).
  - lia.
  - reflexivity.
  - reflexivity.
Defined.

(** ** The run as a whole *)

(** X3. A failing fetch is fatal: [run] raises what the query raised, right
    after announcing the start and issuing the query; no company is
    processed, nothing is flushed, and the buffer and the processed count
    are as before. *)
Theorem run_fetch_failure_is_fatal {E : Type} (config : Config) (env : services E)
    (enrichers : list (enricher E)) (limit : option Z) (p : pipeline E) (e : exn) :
  let query := if truthy (opt_int limit) then limit else None in
  (db_select env query (clock env (world p)).2).1 = Raise e →
  let r := EnrichmentPipeline.run config env enrichers limit p in
  result_of r = Raise e
  ∧ trace_of r = [Log INFO StartingPipeline; Call "companies_bbt.select" [opt_int query]]
  ∧ results_buffer (state_of r) = results_buffer p
  ∧ processed_count (state_of r) = processed_count p.
Proof.
  intros query Hfail.
  unfold EnrichmentPipeline.run, EnrichmentPipeline.in_world, now. unfold_M.
  simpl. destruct (clock env (world p)) as [t0 w1]. simpl in *.
  rewrite fetch_companies_eq. fold query. cbv zeta.
  destruct (db_select env query w1) as [[data|e'] w2]; simpl in Hfail; [done|].
  injection Hfail as ->. done.
Qed.

Lemma run_fetch_failure_is_fatal_witness :
  let env := {| clock := clock (Fixtures.test_services [] Fixtures.never_fails);
                isoformat := isoformat (Fixtures.test_services [] Fixtures.never_fails);
                db_select := λ _ w, (Raise (Exception "unreachable"), w);
                db_update := db_update (Fixtures.test_services [] Fixtures.never_fails);
                db_insert_log :=
                  db_insert_log (Fixtures.test_services [] Fixtures.never_fails) |} in
  let r := EnrichmentPipeline.run default_config env
             [Fixtures.const_enricher "good" {[ "x" := VInt 1 ]}] (Some 3)
             (new_pipeline Fixtures.w0) in
  result_of r = Raise (Exception "unreachable")
  ∧ trace_of r = [Log INFO StartingPipeline; Call "companies_bbt.select" [VInt 3]]
  ∧ results_buffer (state_of r) = []
  ∧ processed_count (state_of r) = 0.
Proof.
  intros env.
  apply (run_fetch_failure_is_fatal default_config env
           [Fixtures.const_enricher "good" {[ "x" := VInt 1 ]}] (Some 3)
           (new_pipeline Fixtures.w0) (Exception "unreachable")).
  reflexivity.
Defined.

(** X4. Appending to the enrichment log never raises: the insert is
    attempted once, and when it fails the only consequence is one warning. *)
Theorem create_enrichment_log_never_raises {E : Type} (env : services E)
    (log_entry : dict) (w : E) :
  DatabaseManager.create_enrichment_log env log_entry w
  = (Ok tt, (db_insert_log env log_entry w).2,
     Call "enrichment_logs.insert" [VDict log_entry]
     :: (if is_ok (db_insert_log env log_entry w).1 then []
         else [Log WARNING LogsTableMightNotExist])).
Proof.
  unfold DatabaseManager.create_enrichment_log. unfold_M. unfold call_service.
  by destruct (db_insert_log env log_entry w) as [[[]|e] w1].
Qed.

(** X5. Recording a company's failure never raises either, and touches
    neither the buffer nor the processed count; the entry submitted names
    the ticker, the error, the time and the source ["pipeline"]. *)
Theorem log_enrichment_error_is_harmless {E : Type} (env : services E)
    (ticker : pyval) (error : string) (p : pipeline E) :
  let r := EnrichmentPipeline._log_enrichment_error env ticker error p in
  let t := (clock env (world p)).1 in
  result_of r = Ok tt
  ∧ results_buffer (state_of r) = results_buffer p
  ∧ processed_count (state_of r) = processed_count p
  ∧ head (trace_of r)
    = Some (Call "enrichment_logs.insert"
              [VDict {[ "ticker" := ticker; "error" := VStr error;
                        "timestamp" := VStr (isoformat env t);
                        "enricher" := VStr "pipeline" ]}]).
Proof.
  unfold EnrichmentPipeline._log_enrichment_error, EnrichmentPipeline.in_world, now.
  unfold_M. red_run.
  destruct (clock env (world p)) as [t w1]. red_run.
  unfold DatabaseManager.create_enrichment_log. unfold_M. unfold call_service.
  unfold DatabaseManager.create_enrichment_log. unfold_M. unfold call_service.
  match goal with |- context [db_insert_log env ?entry ?w0] =>
    by destruct (db_insert_log env entry w0) as [[[]|e] w2] end.
Qed.

(** The end of a run whose fetch succeeds, from any pipeline state. *)
Lemma run_final {E : Type} (config : Config) (env : services E)
    (enrichers : list (enricher E)) (limit : option Z) (p : pipeline E)
    (companies : list dict) :
  result_of (DatabaseManager.fetch_companies env limit (clock env (world p)).2)
  = Ok companies →
  let fetched := DatabaseManager.fetch_companies env limit (clock env (world p)).2 in
  let looped := EnrichmentPipeline.run_loop config env enrichers companies
                  (EnrichmentPipeline.set_world (state_of fetched) p) in
  let flushed := match results_buffer (state_of looped) with
                 | [] => state_of looped
                 | _ :: _ => state_of (EnrichmentPipeline._save_buffer env (state_of looped))
                 end in
  let r := EnrichmentPipeline.run config env enrichers limit p in
  result_of r = Ok tt
  ∧ results_buffer (state_of r) = results_buffer flushed
  ∧ processed_count (state_of r) = processed_count p + Z.of_nat (length companies)
  ∧ ∃ duration,
      last (trace_of r)
      = Some (Log INFO (PipelineCompleted
                          (processed_count p + Z.of_nat (length companies))
                          (length companies) duration)).
Proof.
  intros Hfetch. cbv zeta.
  unfold EnrichmentPipeline.run, EnrichmentPipeline.in_world, now. unfold_M.
  simpl. destruct (clock env (world p)) as [t0 w1]. simpl in *.
  unfold result_of in Hfetch.
  destruct (DatabaseManager.fetch_companies env limit w1) as [[r1 w2] tr1].
  simpl in Hfetch. subst r1. simpl. simpl_run.
  change (EnrichmentPipeline.set_world w2 (EnrichmentPipeline.set_world w1 p))
    with (EnrichmentPipeline.set_world w2 p).
  set (p2 := EnrichmentPipeline.set_world w2 p).
  pose proof (run_loop_total config env enrichers companies p2) as Ht.
  pose proof (run_loop_count config env enrichers companies p2) as Hc.
  unfold result_of, state_of in Ht, Hc.
  destruct (EnrichmentPipeline.run_loop config env enrichers companies p2)
    as [[r3 p3] tr3]. simpl in Ht, Hc. subst r3. simpl_run. cbn [fst snd].
  pose proof (save_buffer_total env p3) as H1.
  pose proof (save_buffer_count env p3) as H2.
  unfold result_of, state_of in H1, H2.
  destruct (results_buffer p3) eqn:Hb.
  - simpl. destruct (clock env (world p3)) as [t1 w5]. simpl.
    unfold result_of, state_of, trace_of. simpl.
    split; [done|]. split; [done|]. split; [subst p2; simpl in *; lia|].
    eexists. rewrite Hc. subst p2. simpl.
    repeat (rewrite last_cons || rewrite last_app). simpl. reflexivity.
  - destruct (EnrichmentPipeline._save_buffer env p3) as [[r4 p4] tr4].
    simpl in H1, H2. subst r4. simpl.
    destruct (clock env (world p4)) as [t1 w5]. simpl.
    unfold result_of, state_of, trace_of. simpl.
    split; [done|]. split; [done|]. split; [subst p2; simpl in *; lia|].
    eexists. rewrite H2, Hc. subst p2. simpl.
    repeat (rewrite last_cons || rewrite last_app). simpl. reflexivity.
Qed.

(** X6. The processed counter is a running total that [run] never resets:
    on a pipeline that has already counted [c] companies, a run over [n]
    fetched companies ends with [c + n] and reports [c + n] out of [n]. *)
Theorem run_reports_running_total {E : Type} (config : Config) (env : services E)
    (enrichers : list (enricher E)) (limit : option Z) (p : pipeline E)
    (companies : list dict) :
  result_of (DatabaseManager.fetch_companies env limit (clock env (world p)).2)
  = Ok companies →
  let r := EnrichmentPipeline.run config env enrichers limit p in
  processed_count (state_of r) = processed_count p + Z.of_nat (length companies)
  ∧ ∃ duration,
      last (trace_of r)
      = Some (Log INFO (PipelineCompleted
                          (processed_count p + Z.of_nat (length companies))
                          (length companies) duration)).
Proof.
  intros Hfetch.
  destruct (run_final config env enrichers limit p companies Hfetch)
    as (_ & _ & Hc & Hlast).
  by split.
Qed.

Lemma run_reports_running_total_witness :
  let table := [Fixtures.company "AAPL"; Fixtures.company "MSFT"] in
  let env := Fixtures.test_services table Fixtures.never_fails in
  let enrichers := [Fixtures.const_enricher "good" {[ "x" := VInt 1 ]}] in
  let once := state_of (EnrichmentPipeline.run default_config env enrichers None
                          (new_pipeline Fixtures.w0)) in
  let r := EnrichmentPipeline.run default_config env enrichers None once in
  processed_count (state_of r) = processed_count once + 2
  ∧ ∃ duration,
      last (trace_of r)
      = Some (Log INFO (PipelineCompleted (processed_count once + 2) 2 duration)).
Proof.
  intros table env enrichers once.
  apply (run_reports_running_total default_config env enrichers None once table).
  vm_compute. reflexivity.
Defined.

(** X7. When the database accepts every update and the fetch succeeds, a
    run leaves nothing behind: the flush after the loop empties the buffer,
    whatever the threshold and whatever the buffer held at the start. *)
Theorem run_leaves_buffer_empty {E : Type} (config : Config) (env : services E)
    (enrichers : list (enricher E)) (limit : option Z) (p : pipeline E)
    (companies : list dict) :
  (∀ t u w, (db_update env t u w).1 = Ok tt) →
  result_of (DatabaseManager.fetch_companies env limit (clock env (world p)).2)
  = Ok companies →
  let r := EnrichmentPipeline.run config env enrichers limit p in
  result_of r = Ok tt ∧ results_buffer (state_of r) = [].
Proof.
  intros Hdb Hfetch.
  destruct (run_final config env enrichers limit p companies Hfetch)
    as (Hr & Hb & _ & _).
  split; [done|]. cbv zeta in Hb. rewrite Hb.
  destruct (results_buffer (state_of (EnrichmentPipeline.run_loop _ _ _ _ _)))
    eqn:Hbuf; [done|].
  apply (save_buffer_flushes env Hdb). by rewrite Hbuf.
Qed.

Lemma run_leaves_buffer_empty_witness :
  let table := [Fixtures.company "AAPL"; Fixtures.company "MSFT";
                Fixtures.company "NVDA"] in
  let env := Fixtures.test_services table Fixtures.never_fails in
  let r := EnrichmentPipeline.run (Fixtures.config_with 2) env
             [Fixtures.const_enricher "good" {[ "x" := VInt 1 ]}] None
             (new_pipeline Fixtures.w0) in
  result_of r = Ok tt ∧ results_buffer (state_of r) = [].
Proof.
  intros table env.
  apply (run_leaves_buffer_empty (Fixtures.config_with 2) env
           [Fixtures.const_enricher "good" {[ "x" := VInt 1 ]}] None
           (new_pipeline Fixtures.w0) table).
  - done.
  - reflexivity.
Defined.

(** ** The buffer *)

Section buffer_facts.
Context {E : Type}.
Variable config : Config.
Variable env : services E.
Variable enrichers : list (enricher E).

Lemma appended_stamped (ticker : pyval) (agg : dict) (p : pipeline E) :
  Forall stamped (results_buffer p) →
  Forall stamped (results_buffer (appended env ticker agg p)).
Proof.
  intros Hp. unfold appended. destruct (size agg =? 0)%nat; [done|].
  destruct (clock env (world p)) as [t w1]. simpl.
  apply Forall_app. split; [done|]. apply Forall_singleton. split.
  - rewrite lookup_insert_ne by done. rewrite lookup_insert_eq. by eexists.
  - rewrite lookup_insert_eq. by eexists.
Qed.

Lemma save_buffer_stamped (p : pipeline E) :
  Forall stamped (results_buffer p) →
  Forall stamped (results_buffer (state_of (EnrichmentPipeline._save_buffer env p))).
Proof.
  intros Hp. rewrite save_buffer_eq. destruct (results_buffer p) eqn:Hb.
  - simpl_run. by rewrite Hb.
  - cbv zeta. destruct (result_of _); simpl_run; simpl; [done|]. by rewrite Hb.
Qed.

Lemma run_body_stamped (total : nat) (ic : Z * dict) (p : pipeline E) :
  Forall stamped (results_buffer p) →
  Forall stamped (results_buffer
                    (state_of (EnrichmentPipeline.run_body config env enrichers total ic p))).
Proof.
  intros Hp. destruct ic as [idx company]. rewrite run_body_eq. cbv zeta. simpl_run.
  rewrite buffer_result_eq. cbv zeta.
  set (p1 := appended env _ _ _).
  assert (Hp1 : Forall stamped (results_buffer p1)) by by apply appended_stamped.
  destruct (_ >=? _); simpl_run; simpl; [|done].
  by apply save_buffer_stamped.
Qed.

Lemma loop_stamped (total : nat) (xs : list (Z * dict)) :
  ∀ p, Forall stamped (results_buffer p) →
       Forall stamped
         (results_buffer
            (state_of (for_each (EnrichmentPipeline.run_body config env enrichers total)
                         xs p))).
Proof.
  induction xs as [|x xs IH]; intros p Hp; [done|].
  rewrite for_each_cons.
  pose proof (run_body_total config env enrichers total x p) as Ht.
  pose proof (run_body_stamped total x p Hp) as Hs.
  destruct (EnrichmentPipeline.run_body config env enrichers total x p)
    as [[r1 p1] tr1].
  revert Ht Hs. simpl_run. intros -> Hs.
  specialize (IH p1 Hs).
  destruct (for_each _ xs p1) as [[r2 p2] tr2]. revert IH. by simpl_run.
Qed.
End buffer_facts.

(** X8. Every entry the run loop leaves in the buffer carries a ticker and
    a time stamp (provided those it found there did), so that a batch
    update never skips a buffered entry for want of an identity key. *)
Theorem run_loop_buffer_is_stamped {E : Type} (config : Config) (env : services E)
    (enrichers : list (enricher E)) (companies : list dict) (p : pipeline E) :
  Forall stamped (results_buffer p) →
  Forall stamped
    (results_buffer (state_of (EnrichmentPipeline.run_loop config env enrichers companies p)))
  ∧ Forall (λ u, has_ticker u = true)
      (results_buffer (state_of (EnrichmentPipeline.run_loop config env enrichers
                                   companies p))).
Proof.
  intros Hp.
  assert (Hs : Forall stamped
    (results_buffer (state_of (EnrichmentPipeline.run_loop config env enrichers
                                 companies p)))) by by apply loop_stamped.
  split; [done|]. eapply Forall_impl; [exact Hs|].
  intros u [Ht _]. unfold has_ticker. by apply bool_decide_eq_true.
Qed.

Lemma run_loop_buffer_is_stamped_witness :
  let env := Fixtures.test_services [] Fixtures.always_fails in
  let r := EnrichmentPipeline.run_loop (Fixtures.config_with 1) env
             [Fixtures.const_enricher "good" {[ "x" := VInt 1 ]}]
             [Fixtures.company "AAPL"; {[ "Security" := VStr "Nameless" ]}]
             (new_pipeline Fixtures.w0) in
  Forall stamped (results_buffer (state_of r))
  ∧ Forall (λ u, has_ticker u = true) (results_buffer (state_of r)).
Proof.
  intros env.
  apply (run_loop_buffer_is_stamped (Fixtures.config_with 1) env
           [Fixtures.const_enricher "good" {[ "x" := VInt 1 ]}]
           [Fixtures.company "AAPL"; {[ "Security" := VStr "Nameless" ]}]
           (new_pipeline Fixtures.w0)).
  apply Forall_nil_2.
Defined.

Lemma batch_ok_calls {E : Type} (env : services E) (us : list dict) :
  ∀ w, is_ok (result_of (DatabaseManager.batch_update_companies env us w)) = true →
       ∀ u, u ∈ us → has_ticker u = true →
            update_call u ∈ trace_of (DatabaseManager.batch_update_companies env us w).
Proof.
  induction us as [|u0 us IH]; intros w Hok u Hin Hu.
  - by apply elem_of_nil in Hin.
  - rewrite batch_cons in Hok |- *. apply elem_of_cons in Hin.
    destruct (u0 !! "Ticker") as [t0|] eqn:Ht0.
    + rewrite update_company_eq in Hok |- *.
      destruct (db_update env t0 u0 w) as [[[]|e] w1]; [|done].
      specialize (IH w1). unfold result_of, trace_of in *.
      destruct (DatabaseManager.batch_update_companies env us w1) as [[r w2] tr2].
      simpl in *. destruct Hin as [->|Hin].
      * apply elem_of_cons. left. unfold update_call, dict_get. by rewrite Ht0.
      * do 2 (apply elem_of_cons; right). by apply IH.
    + destruct Hin as [->|Hin]; [|by apply IH].
      unfold has_ticker in Hu. apply bool_decide_eq_true in Hu as [t Ht]. congruence.
Qed.

(** X9. The entry built for a company whose aggregate is not empty is the
    aggregate with the company's ticker (["Unknown"] when the company has
    none) under ["Ticker"] and the time under ["last_enriched"], these two
    replacing whatever the enrichers returned under the same names, every
    other field being kept. After the company's turn that entry is the last
    of the buffer, or else the buffer had reached the threshold, was
    flushed, and the entry was sent to the database in an update call. *)
Theorem buffered_entry_fields {E : Type} (config : Config) (env : services E)
    (enrichers : list (enricher E)) (total : nat) (idx : Z) (company : dict)
    (p : pipeline E) :
  let e := EnrichmentPipeline._enrich_company enrichers company (world p) in
  let agg := merge_outcomes (enricher_outcomes enrichers company (world p)) ∅ in
  let r := EnrichmentPipeline.run_body config env enrichers total (idx, company) p in
  size agg ≠ 0%nat →
  ∃ entry,
    entry !! "Ticker" = Some (dict_get_default company "Ticker" (VStr "Unknown"))
    ∧ entry !! "last_enriched"
      = Some (VStr (isoformat env (clock env (state_of e)).1))
    ∧ (∀ X, X ≠ "Ticker" → X ≠ "last_enriched" → entry !! X = agg !! X)
    ∧ (results_buffer (state_of r) = results_buffer p ++ [entry]
       ∨ (results_buffer (state_of r) = []
          ∧ save_frequency config ≤ Z.of_nat (length (results_buffer p)) + 1
          ∧ update_call entry ∈ trace_of r)).
Proof.
  intros e agg r Hne. subst r. rewrite run_body_eq. cbv zeta. fold e agg.
  set (ticker := dict_get_default company "Ticker" (VStr "Unknown")).
  set (p1 := EnrichmentPipeline.set_world (state_of e) p).
  set (entry := <["last_enriched" := VStr (isoformat env (clock env (state_of e)).1)]>
                  (<["Ticker" := ticker]> agg)).
  assert (Happ : results_buffer (appended env ticker agg p1)
                 = results_buffer p ++ [entry]).
  { unfold appended. destruct (size agg =? 0)%nat eqn:Hz; [by apply Nat.eqb_eq in Hz|].
    subst p1 entry. cbn [world EnrichmentPipeline.set_world].
    by destruct (clock env (state_of e)) as [t w1]. }
  assert (Htick : has_ticker entry = true).
  { unfold has_ticker. apply bool_decide_eq_true. subst entry.
    rewrite lookup_insert_ne by done. rewrite lookup_insert_eq. by eexists. }
  exists entry. split; [|split; [|split]].
  - subst entry. rewrite lookup_insert_ne by done. apply lookup_insert_eq.
  - apply lookup_insert_eq.
  - intros X H1 H2. subst entry. by rewrite !lookup_insert_ne.
  - rewrite buffer_result_eq. cbv zeta. destruct (_ >=? _) eqn:Hge.
    + apply Z.geb_le in Hge. rewrite Happ, length_app in Hge. simpl in Hge.
      rewrite save_buffer_eq, Happ.
      destruct (results_buffer p ++ [entry]) as [|u us] eqn:Hb.
      { by destruct (results_buffer p). }
      cbv zeta.
      pose proof (batch_ok_calls env (u :: us) (world (appended env ticker agg p1)))
        as Hcalls.
      destruct (result_of (DatabaseManager.batch_update_companies env (u :: us) _))
        as [[]|ex]; simpl_run.
      * right. split; [done|]. split; [lia|].
        apply elem_of_cons. right. apply elem_of_app. right.
        apply elem_of_cons. right. apply Hcalls; [done| |done].
        rewrite <- Hb. apply elem_of_app. right. by left.
      * left. cbn [results_buffer EnrichmentPipeline.bump_processed
                   EnrichmentPipeline.set_world]. by rewrite Happ.
    + left. simpl_run. cbn [results_buffer EnrichmentPipeline.bump_processed].
      exact Happ.
Qed.

Lemma buffered_entry_fields_witness :
  let env := Fixtures.test_services [] Fixtures.never_fails in
  let enrichers : list (enricher Fixtures.test_world) :=
    [Fixtures.const_enricher "spoof" {[ "Ticker" := VStr "spoofed"; "x" := VInt 1 ]}] in
  let company : dict := {[ "Security" := VStr "Nameless" ]} in
  let r := EnrichmentPipeline.run_body (Fixtures.config_with 5) env enrichers 1
             (0, company) (new_pipeline Fixtures.w0) in
  ∃ entry,
    entry !! "Ticker" = Some (VStr "Unknown")
    ∧ entry !! "last_enriched" = Some (VStr "2026-01-01T00:00:00")
    ∧ (∀ X, X ≠ "Ticker" → X ≠ "last_enriched" →
            entry !! X = ({[ "Ticker" := VStr "spoofed"; "x" := VInt 1 ]} : dict) !! X)
    ∧ (results_buffer (state_of r) = [] ++ [entry]
       ∨ (results_buffer (state_of r) = []
          ∧ 5 ≤ 0 + 1
          ∧ update_call entry ∈ trace_of r)).
Proof.
  intros env enrichers company r.
  apply (buffered_entry_fields (Fixtures.config_with 5) env enrichers 1 0 company
           (new_pipeline Fixtures.w0)).
  vm_compute. discriminate.
Defined.

Lemma merge_outcomes_nothing (outs : list (outcome dict)) (acc : dict) :
  (∀ i o, outs !! i = Some o → o = Ok ∅ ∨ ∃ e, o = Raise e) →
  merge_outcomes outs acc = acc.
Proof.
  revert acc. induction outs as [|o outs IH]; intros acc Hall; [done|].
  assert (Hrest : ∀ i o', outs !! i = Some o' → o' = Ok ∅ ∨ ∃ e, o' = Raise e).
  { intros i o' Hi. apply (Hall (Datatypes.S i) o' Hi). }
  destruct (Hall 0%nat o eq_refl) as [->|[e ->]]; simpl.
  - unfold dict_update. rewrite (left_id_L ∅ (∪)). by apply IH.
  - by apply IH.
Qed.

(** X10. A company for which every enricher raised or returned nothing is
    counted as processed but leaves no entry: the buffer is as before (taken
    below the threshold, so that no flush interferes) and the only change to
    the world is what the enrichers did. *)
Theorem company_without_results_not_buffered {E : Type} (config : Config)
    (env : services E) (enrichers : list (enricher E)) (total : nat) (idx : Z)
    (company : dict) (p : pipeline E) :
  (∀ i o, enricher_outcomes enrichers company (world p) !! i = Some o →
          o = Ok ∅ ∨ ∃ e, o = Raise e) →
  Z.of_nat (length (results_buffer p)) < save_frequency config →
  let r := EnrichmentPipeline.run_body config env enrichers total (idx, company) p in
  result_of r = Ok tt
  ∧ results_buffer (state_of r) = results_buffer p
  ∧ processed_count (state_of r) = processed_count p + 1
  ∧ world (state_of r)
    = state_of (EnrichmentPipeline._enrich_company enrichers company (world p)).
Proof.
  intros Hall Hlt. cbv zeta. rewrite run_body_eq. cbv zeta. simpl_run.
  rewrite (merge_outcomes_nothing _ _ Hall).
  rewrite buffer_result_eq. cbv zeta.
  change (appended env ?t ∅ ?q) with q.
  change (results_buffer (EnrichmentPipeline.set_world ?w p)) with (results_buffer p).
  assert (Hge : (Z.of_nat (length (results_buffer p)) >=? save_frequency config) = false).
  { rewrite Z.geb_leb. by apply Z.leb_gt. }
  rewrite Hge. by simpl_run.
Qed.

Lemma company_without_results_not_buffered_witness :
  let env := Fixtures.test_services [] Fixtures.never_fails in
  let enrichers := [Fixtures.failing_enricher "down"; Fixtures.const_enricher "idle" ∅] in
  let p := new_pipeline Fixtures.w0 in
  let r := EnrichmentPipeline.run_body (Fixtures.config_with 1) env enrichers 1
             (0, Fixtures.company "AAPL") p in
  result_of r = Ok tt
  ∧ results_buffer (state_of r) = results_buffer p
  ∧ processed_count (state_of r) = processed_count p + 1
  ∧ world (state_of r)
    = state_of (EnrichmentPipeline._enrich_company enrichers (Fixtures.company "AAPL")
                  (world p)).
Proof.
  intros env enrichers p.
  apply (company_without_results_not_buffered (Fixtures.config_with 1) env enrichers
           1 0 (Fixtures.company "AAPL") p).
  - intros i o Hi. destruct i as [|[|i]]; simpl in Hi.
    + injection Hi as <-. right. by eexists.
    + injection Hi as <-. by left.
    + discriminate.
  - simpl. lia.
Defined.

(** ** The database gateway, continued *)

Lemma tickered_cons (u : dict) (us : list dict) :
  length (filter (λ u, has_ticker u = true) (u :: us))
  = ((if has_ticker u then 1 else 0)
     + length (filter (λ u, has_ticker u = true) us))%nat.
Proof. rewrite filter_cons. destruct (has_ticker u); by case_decide. Qed.

(** X11. A batch attempts each update at most once and never retries: the
    number of update calls is at most the number of updates carrying a
    ticker, equals it when the batch returns, and when the batch raises the
    last record of the trace is the error logged for the failed update. *)
Theorem batch_attempts_each_update_once {E : Type} (env : services E)
    (updates : list dict) (w : E) :
  let r := DatabaseManager.batch_update_companies env updates w in
  let n := length (filter (λ u, has_ticker u = true) updates) in
  (count_events is_update_call (trace_of r) ≤ n)%nat
  ∧ (is_ok (result_of r) = true → count_events is_update_call (trace_of r) = n)
  ∧ (∀ e, result_of r = Raise e →
          ∃ t, last (trace_of r) = Some (Log ERROR (FailedToUpdate t e))).
Proof.
  revert w. induction updates as [|u us IH]; intros w; cbv zeta.
  - rewrite batch_nil. simpl_run. repeat split; try done.
  - rewrite batch_cons, tickered_cons.
    destruct (u !! "Ticker") as [t|] eqn:Ht.
    + assert (Hh : has_ticker u = true).
      { unfold has_ticker. rewrite Ht. by apply bool_decide_eq_true_2. }
      rewrite Hh, update_company_eq.
      destruct (db_update env t u w) as [[[]|e] w1].
      * specialize (IH w1). cbv zeta in IH. destruct IH as (Hle & Heq & Hlast).
        destruct (DatabaseManager.batch_update_companies env us w1) as [[r2 w2] tr2].
        revert Hle Heq Hlast. simpl_run. intros Hle Heq Hlast.
        rewrite count_events_app, !count_events_cons, count_events_nil. simpl.
        split; [lia|]. split.
        -- intros Hok. by rewrite (Heq Hok).
        -- intros e He. destruct (Hlast e He) as [t' Ht'].
           exists t'. by rewrite !last_cons, Ht'.
      * simpl_run. rewrite !count_events_cons, count_events_nil. simpl.
        split; [lia|]. split; [done|].
        intros e' [= ->]. by exists t.
    + assert (Hh : has_ticker u = false).
      { unfold has_ticker. rewrite Ht. apply bool_decide_eq_false_2. by intros [? ?]. }
      rewrite Hh. apply IH.
Qed.

Lemma batch_attempts_each_update_once_witness :
  let env := Fixtures.test_services [] Fixtures.fails_on_B in
  let ok := DatabaseManager.batch_update_companies env
              [Fixtures.update_for "A"; {[ "x" := VInt 1 ]}; Fixtures.update_for "C"]
              Fixtures.w0 in
  let ko := DatabaseManager.batch_update_companies env
              [Fixtures.update_for "A"; Fixtures.update_for "B"; Fixtures.update_for "C"]
              Fixtures.w0 in
  count_events is_update_call (trace_of ok) = 2%nat
  ∧ ∃ t, last (trace_of ko)
         = Some (Log ERROR (FailedToUpdate t (Exception "update failed"))).
Proof.
  intros env ok ko. split.
  - etransitivity.
    + apply (proj1 (proj2 (batch_attempts_each_update_once env
               [Fixtures.update_for "A"; {[ "x" := VInt 1 ]}; Fixtures.update_for "C"]
               Fixtures.w0))).
      reflexivity.
    + vm_compute. reflexivity.
  - apply (proj2 (proj2 (batch_attempts_each_update_once env
             [Fixtures.update_for "A"; Fixtures.update_for "B"; Fixtures.update_for "C"]
             Fixtures.w0))).
    reflexivity.
Defined.

(** ** The SEC filings enricher *)

Lemma latest_url_skips (pre rest : list dict) (form_type : string) :
  (∀ g, g ∈ pre → dict_get g "form_type" ≠ VStr form_type) →
  SECFilingsEnricher._get_latest_filing_url (pre ++ rest) form_type
  = SECFilingsEnricher._get_latest_filing_url rest form_type.
Proof.
  induction pre as [|g pre IH]; intros Hpre; [done|].
  simpl. pose proof (Hpre g ltac:(by left)) as Hg.
  assert (Hpre' : ∀ g', g' ∈ pre → dict_get g' "form_type" ≠ VStr form_type).
  { intros g' Hin. apply Hpre. by right. }
  destruct (dict_get g "form_type") as [| | | |s| |]; try by apply IH.
  destruct (String.eqb s form_type) eqn:Heq; [|by apply IH].
  apply String.eqb_eq in Heq. by subst.
Qed.

(** X12. [_get_latest_filing_url] is decided by the first filing of the
    requested type alone: it returns that filing's document URL, or its
    filing URL when the document URL is missing or empty, without looking at
    later filings (even when both are missing and a later filing has one);
    when no filing has the type the result is [None]. *)
Theorem latest_filing_url_first_match (pre : list dict) (f : dict) (post : list dict)
    (form_type : string) :
  (∀ g, g ∈ pre → dict_get g "form_type" ≠ VStr form_type) →
  (dict_get f "form_type" = VStr form_type →
   SECFilingsEnricher._get_latest_filing_url (pre ++ f :: post) form_type
   = py_or (dict_get f "document_url") (dict_get f "filing_url"))
  ∧ SECFilingsEnricher._get_latest_filing_url pre form_type = VNone.
Proof.
  intros Hpre. split.
  - intros Hf. rewrite latest_url_skips by done. simpl. rewrite Hf.
    by rewrite String.eqb_refl.
  - rewrite <- (app_nil_r pre) at 1. by rewrite latest_url_skips.
Qed.

Lemma latest_filing_url_first_match_witness :
  let older : dict := {[ "form_type" := VStr "8-K"; "filing_url" := VStr "u0";
                         "document_url" := VNone ]} in
  let first : dict := {[ "form_type" := VStr "10-K"; "filing_url" := VNone;
                         "document_url" := VNone ]} in
  let second : dict := {[ "form_type" := VStr "10-K"; "filing_url" := VStr "u2";
                          "document_url" := VStr "d2" ]} in
  SECFilingsEnricher._get_latest_filing_url ([older] ++ first :: [second]) "10-K" = VNone
  ∧ SECFilingsEnricher._get_latest_filing_url [older] "10-K" = VNone.
Proof.
  intros older first second.
  destruct (latest_filing_url_first_match [older] first [second] "10-K") as [H1 H2].
  - intros g Hg. apply list_elem_of_singleton in Hg as ->. vm_compute. discriminate.
  - split; [|exact H2]. rewrite H1; reflexivity.
Defined.

(** *** Sorting the filings *)

Lemma str_ltb_lt (a b : string) :
  SECFilingsEnricher.str_ltb a b = true ↔ OrderedTypeEx.String_as_OT.lt a b.
Proof.
  unfold SECFilingsEnricher.str_ltb. rewrite <- OrderedTypeEx.String_as_OT.cmp_lt.
  unfold OrderedTypeEx.String_as_OT.cmp. destruct (String.compare a b); by split.
Qed.

Lemma str_ltb_irrefl (a : string) : SECFilingsEnricher.str_ltb a a = false.
Proof.
  destruct (SECFilingsEnricher.str_ltb a a) eqn:H; [|done].
  apply str_ltb_lt in H. by apply OrderedTypeEx.String_as_OT.lt_not_eq in H.
Qed.

Lemma str_ltb_trans (a b c : string) :
  SECFilingsEnricher.str_ltb a b = true →
  SECFilingsEnricher.str_ltb b c = true →
  SECFilingsEnricher.str_ltb a c = true.
Proof.
  rewrite !str_ltb_lt. apply OrderedTypeEx.String_as_OT.lt_trans.
Qed.

Lemma str_ltb_asym (a b : string) :
  SECFilingsEnricher.str_ltb a b = true → SECFilingsEnricher.str_ltb b a = false.
Proof.
  intros Hab. destruct (SECFilingsEnricher.str_ltb b a) eqn:Hba; [|done].
  pose proof (str_ltb_trans _ _ _ Hab Hba) as Haa. by rewrite str_ltb_irrefl in Haa.
Qed.

Lemma insert_desc_perm (key : dict → string) (x : dict) (l : list dict) :
  SECFilingsEnricher.insert_desc key x l ≡ₚ x :: l.
Proof.
  induction l as [|y l IH]; [done|]. simpl.
  destruct (SECFilingsEnricher.str_ltb (key y) (key x)); [done|].
  rewrite IH. apply Permutation_swap.
Qed.

Lemma insert_desc_sorted (x : dict) (l : list dict) :
  StronglySorted not_older l →
  StronglySorted not_older (SECFilingsEnricher.insert_desc date_of x l).
Proof.
  induction 1 as [|y l Hl IH Hy]; simpl.
  - repeat constructor.
  - destruct (SECFilingsEnricher.str_ltb (date_of y) (date_of x)) eqn:Hyx.
    + constructor; [by constructor|]. constructor.
      * by apply str_ltb_asym.
      * apply Forall_forall. intros z Hz. rewrite Forall_forall in Hy.
        specialize (Hy z Hz). unfold not_older in *.
        destruct (SECFilingsEnricher.str_ltb (date_of x) (date_of z)) eqn:Hxz; [|done].
        by rewrite (str_ltb_trans _ _ _ Hyx Hxz) in Hy.
    + constructor; [done|].
      rewrite (insert_desc_perm date_of x l). by constructor.
Qed.

Lemma foldl_insert_desc (l : list dict) :
  ∀ acc, StronglySorted not_older acc →
         let r := foldl (λ acc x, SECFilingsEnricher.insert_desc date_of x acc) acc l in
         r ≡ₚ acc ++ l ∧ StronglySorted not_older r.
Proof.
  induction l as [|x l IH]; intros acc Hacc; cbv zeta.
  - simpl. by rewrite app_nil_r.
  - simpl. destruct (IH _ (insert_desc_sorted x acc Hacc)) as [Hp Hs].
    split; [|done]. rewrite Hp, insert_desc_perm. simpl. apply Permutation_middle.
Qed.

(** X13. When the sort of the processed filings goes through, it returns
    the same filings, most recent first. *)
Theorem sort_by_date_sorts (l l' : list dict) :
  SECFilingsEnricher.sort_by_date l = Ok l' →
  l' ≡ₚ l ∧ StronglySorted not_older l'.
Proof.
  unfold SECFilingsEnricher.sort_by_date. destruct (_ && _); [done|].
  intros [= <-]. apply (foldl_insert_desc l []). constructor.
Qed.

Lemma sort_by_date_sorts_witness :
  let a : dict := {[ "filing_date" := VStr "2026-01-15"; "form_type" := VStr "8-K" ]} in
  let b : dict := {[ "filing_date" := VStr "2026-03-01"; "form_type" := VStr "10-Q" ]} in
  [b; a] ≡ₚ [a; b] ∧ StronglySorted not_older [b; a].
Proof.
  intros a b. apply (sort_by_date_sorts [a; b] [b; a]). reflexivity.
Defined.

Lemma first_of_type (l : list dict) (form_type : string) (f : dict) :
  f ∈ l →
  dict_get f "form_type" = VStr form_type →
  ∃ pre f0 post,
    l = pre ++ f0 :: post
    ∧ dict_get f0 "form_type" = VStr form_type
    ∧ ∀ g, g ∈ pre → dict_get g "form_type" ≠ VStr form_type.
Proof.
  induction l as [|g l IH]; intros Hin Hf; [by apply elem_of_nil in Hin|].
  destruct (dict_get g "form_type") as [| | | |s| |] eqn:Hg.
  5:{ destruct (String.eqb s form_type) eqn:Heq.
      - apply String.eqb_eq in Heq. subst s.
        exists [], g, l. split; [done|]. split; [done|].
        intros g' Hg'. by apply elem_of_nil in Hg'.
      - apply String.eqb_neq in Heq.
        apply elem_of_cons in Hin as [->|Hin]; [congruence|].
        destruct (IH Hin Hf) as (pre & fm & post & -> & Hfm & Hpre).
        exists (g :: pre), fm, post. split; [done|]. split; [done|].
        intros g' Hg'. apply elem_of_cons in Hg' as [->|Hg']; [|by apply Hpre].
        rewrite Hg. congruence. }
  all: apply elem_of_cons in Hin as [->|Hin]; [congruence|].
  all: destruct (IH Hin Hf) as (pre & fm & post & -> & Hfm & Hpre).
  all: exists (g :: pre), fm, post; split; [done|]; split; [done|].
  all: intros g' Hg'; apply elem_of_cons in Hg' as [->|Hg']; [|by apply Hpre].
  all: by rewrite Hg.
Qed.

(** X14. Sorting and lookup together: once the filings are sorted, the URL
    reported for a form type is that of a filing of the type which no other
    filing of the type postdates. *)
Theorem latest_filing_is_most_recent (l l' : list dict) (form_type : string)
    (f : dict) :
  SECFilingsEnricher.sort_by_date l = Ok l' →
  f ∈ l →
  dict_get f "form_type" = VStr form_type →
  ∃ f0,
    f0 ∈ l
    ∧ dict_get f0 "form_type" = VStr form_type
    ∧ SECFilingsEnricher._get_latest_filing_url l' form_type
      = py_or (dict_get f0 "document_url") (dict_get f0 "filing_url")
    ∧ ∀ g, g ∈ l → dict_get g "form_type" = VStr form_type → not_older f0 g.
Proof.
  intros Hsort Hin Hf.
  assert (l' ≡ₚ l ∧ StronglySorted not_older l') as [Hperm Hsorted].
  { unfold SECFilingsEnricher.sort_by_date in Hsort.
    destruct (_ && _) in Hsort; [done|]. apply Ok_inj in Hsort as <-.
    apply (foldl_insert_desc l []). constructor. }
  assert (Hin' : f ∈ l') by by rewrite Hperm.
  destruct (first_of_type l' form_type f Hin' Hf) as (pre & f0 & post & -> & Hf0 & Hpre).
  exists f0. split; [|split; [done|split]].
  - rewrite <- Hperm. apply elem_of_app. right. by left.
  - rewrite latest_url_skips by done. simpl. rewrite Hf0.
    by rewrite String.eqb_refl.
  - intros g Hg Hgf. rewrite <- Hperm in Hg.
    apply elem_of_app in Hg as [Hg|Hg]; [by apply Hpre in Hg|].
    apply elem_of_cons in Hg as [->|Hg]; [apply str_ltb_irrefl|].
    apply StronglySorted_app in Hsorted as (_ & _ & Hsorted).
    apply StronglySorted_cons in Hsorted as [Hall _].
    rewrite Forall_forall in Hall. by apply Hall.
Qed.

Lemma latest_filing_is_most_recent_witness :
  let jan : dict := {[ "filing_date" := VStr "2026-01-15"; "form_type" := VStr "8-K";
                       "filing_url" := VStr "u-jan"; "document_url" := VNone ]} in
  let mar : dict := {[ "filing_date" := VStr "2026-03-01"; "form_type" := VStr "8-K";
                       "filing_url" := VStr "u-mar"; "document_url" := VNone ]} in
  ∃ f0,
    f0 ∈ [jan; mar]
    ∧ dict_get f0 "form_type" = VStr "8-K"
    ∧ SECFilingsEnricher._get_latest_filing_url [mar; jan] "8-K"
      = py_or (dict_get f0 "document_url") (dict_get f0 "filing_url")
    ∧ ∀ g, g ∈ [jan; mar] → dict_get g "form_type" = VStr "8-K" → not_older f0 g.
Proof.
  intros jan mar.
  apply (latest_filing_is_most_recent [jan; mar] [mar; jan] "8-K" jan).
  - reflexivity.
  - by left.
  - reflexivity.
Defined.

(** *** Processing the filings *)

Lemma process_loop_spec {E : Type} (raws : list (E → outcome filing * E)) :
  ∀ (acc : list dict) (w : E),
    let r := for_fold (λ (processed_filings : list dict) raw,
                 try_except
                   (f ← run_op raw;
                    mret (processed_filings ++ [SECFilingsEnricher.filing_data f]))
                   (λ e, log WARNING (FilingFailed e) ;; mret processed_filings))
               raws acc w in
    result_of r
    = Ok (acc ++ (SECFilingsEnricher.filing_data <$> readable (read_filings raws w)))
    ∧ count_events is_warning (trace_of r) = unreadable (read_filings raws w)
    ∧ count_events is_call (trace_of r) = 0%nat.
Proof.
  induction raws as [|raw raws IH]; intros acc w; cbv zeta.
  - simpl. simpl_run. by rewrite app_nil_r.
  - rewrite for_fold_cons. unfold_M. unfold run_op. simpl read_filings.
    destruct (raw w) as [[f|e] w1]; cbn [fst snd].
    + destruct (IH (acc ++ [SECFilingsEnricher.filing_data f]) w1) as (Hr & Hw & Hc).
      cbv zeta in Hr, Hw, Hc. unfold_M.
      destruct (for_fold _ raws _ w1) as [[r2 w2] tr2].
      revert Hr Hw Hc. simpl_run. intros -> Hw Hc.
      unfold readable, unreadable in *. simpl. rewrite <- app_assoc. done.
    + destruct (IH acc w1) as (Hr & Hw & Hc).
      cbv zeta in Hr, Hw, Hc. unfold_M.
      destruct (for_fold _ raws _ w1) as [[r2 w2] tr2].
      revert Hr Hw Hc. simpl_run. intros -> Hw Hc.
      unfold readable, unreadable in *. simpl.
      rewrite !count_events_cons. simpl. rewrite Hw, Hc. done.
Qed.

Lemma process_filings_spec {E : Type} (raws : list (E → outcome filing * E)) (w : E) :
  let r := SECFilingsEnricher._process_filings raws w in
  result_of r
  = SECFilingsEnricher.sort_by_date
      (SECFilingsEnricher.filing_data <$> readable (read_filings raws w))
  ∧ count_events is_warning (trace_of r) = unreadable (read_filings raws w)
  ∧ count_events is_call (trace_of r) = 0%nat.
Proof.
  cbv zeta. unfold SECFilingsEnricher._process_filings.
  destruct (process_loop_spec raws [] w) as (Hr & Hw & Hc). cbv zeta in Hr, Hw, Hc.
  set (loop := for_fold _ raws []) in *.
  unfold mbind, M_bind, bind, lift_outcome.
  destruct (loop w) as [[r1 w1] tr1].
  revert Hr Hw Hc. simpl_run. intros -> Hw Hc. simpl.
  destruct (SECFilingsEnricher.sort_by_date _); simpl_run; by rewrite ?app_nil_r.
Qed.

(** X15. A filing that cannot be read is skipped with one warning; the
    filings that can be read are all kept, converted and sorted. *)
Theorem process_filings_skips_unreadable {E : Type}
    (raws : list (E → outcome filing * E)) (w : E) :
  let r := SECFilingsEnricher._process_filings raws w in
  result_of r
  = SECFilingsEnricher.sort_by_date
      (SECFilingsEnricher.filing_data <$> readable (read_filings raws w))
  ∧ count_events is_warning (trace_of r) = unreadable (read_filings raws w).
Proof. destruct (process_filings_spec raws w) as (Hr & Hw & _). by split. Qed.

Lemma filing_data_date (f : filing) :
  SECFilingsEnricher.date_key (SECFilingsEnricher.filing_data f) = filing_date f.
Proof.
  unfold SECFilingsEnricher.date_key, SECFilingsEnricher.filing_data, dict_get_default.
  assert (Hbase : ∀ (d : dict) v,
            (<["primary_document_url" := v]> d) !! "filing_date" = d !! "filing_date").
  { intros d v. by rewrite lookup_insert_ne. }
  destruct (attachments f) as [atts|]; [destruct (find _ atts) as [doc|]|];
    rewrite ?Hbase;
    (rewrite lookup_insert_ne by done); rewrite lookup_insert_eq;
    by destruct (filing_date f).
Qed.

(** X16. Two or more readable filings of which one has no filing date make
    [_process_filings] raise a [TypeError]: the sort compares the missing
    date with the others. *)
Theorem undated_filing_breaks_sort {E : Type}
    (raws : list (E → outcome filing * E)) (w : E) (f : filing) :
  (2 ≤ length (readable (read_filings raws w)))%nat →
  f ∈ readable (read_filings raws w) →
  filing_date f = None →
  result_of (SECFilingsEnricher._process_filings raws w)
  = Raise (TypeError "'<' not supported between instances").
Proof.
  intros Hlen Hin Hdate.
  rewrite (proj1 (process_filings_spec raws w)).
  unfold SECFilingsEnricher.sort_by_date. rewrite length_fmap.
  assert (H2 : (2 <=? length (readable (read_filings raws w)))%nat = true)
    by by apply Nat.leb_le.
  rewrite H2. simpl.
  assert (Hall : forallb (λ d, bool_decide (is_Some (SECFilingsEnricher.date_key d)))
                   (SECFilingsEnricher.filing_data <$> readable (read_filings raws w))
                 = false).
  { apply not_true_is_false. intros Hall. rewrite forallb_forall in Hall.
    specialize (Hall (SECFilingsEnricher.filing_data f)).
    rewrite filing_data_date, Hdate in Hall.
    assert (Hf : bool_decide (is_Some (None : option string)) = true).
    { apply Hall. apply list_elem_of_In, list_elem_of_fmap. by exists f. }
    apply bool_decide_eq_true in Hf. by destruct Hf. }
  by rewrite Hall.
Qed.

Lemma undated_filing_breaks_sort_witness :
  result_of (SECFilingsEnricher._process_filings
               [λ w, (Ok dated_filing, w); λ w, (Ok undated_filing, w)] Fixtures.w0)
  = Raise (TypeError "'<' not supported between instances").
Proof.
  apply (undated_filing_breaks_sort _ Fixtures.w0 undated_filing).
  - simpl. lia.
  - simpl. right. left.
  - reflexivity.
Defined.

(** *** The filings summary *)

Lemma summary_step_count (summary summary' : gmap string (Z * pyval)) (f : dict)
    (ft : string) :
  ft ≠ "" →
  SECFilingsEnricher.summary_step summary f = Ok summary' →
  count_in summary' ft = count_in summary ft + (if is_form ft f then 1 else 0)
  ∧ (summary' !! ft = None → summary !! ft = None ∧ is_form ft f = false)
  ∧ (is_Some (summary' !! ft) → is_Some (summary !! ft) ∨ is_form ft f = true).
Proof.
  intros Hft. unfold SECFilingsEnricher.summary_step, is_form.
  destruct (dict_get f "form_type") as [| | | |s| |];
    try (intros [= <-]; rewrite Z.add_0_r; by auto).
  destruct (truthy (VStr s)) eqn:Hs.
  2:{ intros [= <-]. simpl in Hs. apply negb_false_iff, String.eqb_eq in Hs. subst s.
      assert (Hne : (("" =? ft)%string) = false) by by apply String.eqb_neq.
      rewrite Hne, Z.add_0_r. by auto. }
  assert (Hins : ∀ (c : Z) (l : pyval),
    Ok (<[s := (count_in summary s + 1, l)]> summary) = Ok summary' →
    count_in summary' ft
    = count_in summary ft + (if (s =? ft)%string then 1 else 0)
    ∧ (summary' !! ft = None → summary !! ft = None ∧ (s =? ft)%string = false)
    ∧ (is_Some (summary' !! ft) → is_Some (summary !! ft) ∨ (s =? ft)%string = true)).
  { intros _ l [= <-]. unfold count_in. destruct (String.eqb s ft) eqn:Heq.
    - apply String.eqb_eq in Heq. subst s. rewrite lookup_insert_eq.
      split; [done|]. split; [done|]. by right.
    - apply String.eqb_neq in Heq. rewrite lookup_insert_ne by done.
      rewrite Z.add_0_r. split; [done|]. split; [done|]. by left. }
  unfold count_in in Hins.
  destruct (summary !! s) as [[count latest]|] eqn:Hsum; simpl.
  - destruct (negb (truthy latest)); [apply (Hins 0)|].
    destruct (SECFilingsEnricher.date_gt _ latest) as [[|]|e];
      [apply (Hins 0)|apply (Hins 0)|done].
  - apply (Hins 0).
Qed.

Lemma summary_loop_count (filings : list dict) (ft : string) :
  ft ≠ "" →
  ∀ summary summary',
    SECFilingsEnricher.summary_loop filings summary = Ok summary' →
    count_in summary' ft
    = count_in summary ft + Z.of_nat (length (filter (λ f, is_form ft f = true) filings))
    ∧ (summary' !! ft = None →
       summary !! ft = None ∧ filter (λ f, is_form ft f = true) filings = [])
    ∧ (is_Some (summary' !! ft) →
       is_Some (summary !! ft) ∨ filter (λ f, is_form ft f = true) filings ≠ []).
Proof.
  intros Hft. induction filings as [|f fs IH]; intros summary summary'.
  - simpl. intros [= <-]. rewrite Z.add_0_r. by auto.
  - simpl. destruct (SECFilingsEnricher.summary_step summary f) as [s1|e] eqn:Hstep;
      [|done].
    intros Hloop. destruct (IH _ _ Hloop) as (Hc & Hn & Hs).
    destruct (summary_step_count _ _ _ ft Hft Hstep) as (Hc1 & Hn1 & Hs1).
    rewrite filter_cons. destruct (is_form ft f) eqn:Hform.
    + rewrite decide_True by done. simpl length. split; [lia|]. split.
      * intros Hnone. destruct (Hn Hnone) as [Hs1none _].
        by destruct (Hn1 Hs1none).
      * intros _. by right.
    + rewrite decide_False by done. split; [lia|]. split.
      * intros Hnone. destruct (Hn Hnone) as [Hs1none Hfs].
        by destruct (Hn1 Hs1none).
      * intros Hsome. destruct (Hs Hsome) as [Hs1some|Hfs]; [|by right].
        destruct (Hs1 Hs1some) as [?|?]; [by left|done].
Qed.

(** X17. When the filings summary is built, it has an entry exactly for the
    (non-empty) form types that occur, and the entry's count is the number
    of filings of that type. *)
Theorem filings_summary_counts (filings : list dict) (v : pyval) (ft : string) :
  SECFilingsEnricher._create_filings_summary filings = Ok v →
  ft ≠ "" →
  let n := length (filter (λ f, is_form ft f = true) filings) in
  ∃ m : dict,
    v = VDict m
    ∧ match m !! ft with
      | Some entry =>
          n ≠ 0%nat
          ∧ ∃ latest, entry = VDict {[ "count" := VInt (Z.of_nat n);
                                       "latest_date" := latest ]}
      | None => n = 0%nat
      end.
Proof.
  unfold SECFilingsEnricher._create_filings_summary.
  destruct (SECFilingsEnricher.summary_loop filings ∅) as [summary|e] eqn:Hloop; [|done].
  intros Hv%Ok_inj Hft. subst v. eexists. split; [done|].
  set (n := length (filter (λ f, is_form ft f = true) filings)).
  destruct (summary_loop_count filings ft Hft _ _ Hloop) as (Hc & Hn & Hs).
  rewrite lookup_fmap. unfold count_in in Hc. rewrite lookup_empty in Hc.
  destruct (summary !! ft) as [[c latest]|] eqn:Hsum; simpl.
  - split.
    + destruct (Hs ltac:(by eexists)) as [[? Hx]|Hne]; [by rewrite lookup_empty in Hx|].
      subst n. by destruct (filter _ filings).
    + exists latest. subst n. by rewrite Hc.
  - destruct (Hn eq_refl) as [_ Hnil]. subst n. by rewrite Hnil.
Qed.

Lemma filings_summary_counts_witness :
  let k1 : dict := {[ "form_type" := VStr "8-K"; "filing_date" := VStr "2026-03-01" ]} in
  let k2 : dict := {[ "form_type" := VStr "8-K"; "filing_date" := VStr "2026-01-15" ]} in
  let q1 : dict := {[ "form_type" := VStr "10-Q"; "filing_date" := VStr "2026-02-01" ]} in
  ∃ v m,
    SECFilingsEnricher._create_filings_summary [k1; q1; k2] = Ok v
    ∧ v = VDict m
    ∧ match m !! "8-K" with
      | Some entry =>
          length (filter (λ f, is_form "8-K" f = true) [k1; q1; k2]) ≠ 0%nat
          ∧ ∃ latest,
              entry = VDict {[ "count" :=
                                 VInt (Z.of_nat (length (filter
                                         (λ f, is_form "8-K" f = true) [k1; q1; k2])));
                               "latest_date" := latest ]}
      | None => length (filter (λ f, is_form "8-K" f = true) [k1; q1; k2]) = 0%nat
      end.
Proof.
  intros k1 k2 q1.
  destruct (SECFilingsEnricher._create_filings_summary [k1; q1; k2]) as [v|e] eqn:Hv;
    [|by vm_compute in Hv].
  destruct (filings_summary_counts [k1; q1; k2] v "8-K" Hv ltac:(done)) as (m & -> & Hm).
  by exists (VDict m), m.
Defined.

(** *** Storing the detailed filings *)

Lemma upsert_loop_spec {E : Type} (prov : providers E) (ticker : pyval)
    (filings : list dict) :
  ∀ w,
    let r := for_each (λ f : dict,
                 let filing_record : dict :=
                   {[ "ticker" := ticker;
                      "form_type" := dict_get f "form_type";
                      "filing_date" := dict_get f "filing_date";
                      "accession_number" := dict_get f "accession_number";
                      "filing_url" := dict_get f "filing_url";
                      "document_url" := dict_get f "document_url";
                      "metadata" := VDict f ]} in
                 try_except
                   (call_service "company_filings.upsert" [VDict filing_record]
                      (filings_upsert prov filing_record))
                   (λ _, mret tt))
               filings w in
    result_of r = Ok tt
    ∧ count_events is_upsert_call (trace_of r) = length filings
    ∧ count_events is_warning (trace_of r) = 0%nat.
Proof.
  induction filings as [|f fs IH]; intros w; cbv zeta; [done|].
  rewrite for_each_cons. unfold_M. unfold call_service.
  destruct (filings_upsert prov _ w) as [[[]|e] w1]; cbn [fst snd];
    specialize (IH w1); cbv zeta in IH; unfold_M; unfold call_service in IH;
    destruct IH as (Hr & Hu & Hw);
    destruct (for_each _ fs w1) as [[r2 w2] tr2];
    revert Hr Hu Hw; simpl_run; intros -> Hu Hw;
    rewrite ?app_nil_r, ?count_events_app, ?count_events_cons, ?count_events_nil;
    simpl length; rewrite Hu, Hw; done.
Qed.

(** X18. Storing the detailed filings never raises and is bounded: when the
    database client can be created there is one upsert per filing up to 20
    and no more, each failure being silently ignored; when it cannot, there
    is no upsert and one warning. *)
Theorem store_detailed_filings_bounded {E : Type} (prov : providers E)
    (ticker : pyval) (filings : list dict) (w : E) :
  let r := SECFilingsEnricher._store_detailed_filings prov ticker filings w in
  result_of r = Ok tt
  ∧ count_events is_upsert_call (trace_of r)
    = (if is_ok (create_client prov w).1 then min 20 (length filings) else 0)%nat
  ∧ count_events is_warning (trace_of r)
    = (if is_ok (create_client prov w).1 then 0 else 1)%nat.
Proof.
  cbv zeta. unfold SECFilingsEnricher._store_detailed_filings.
  set (loop := for_each _ (take 20 filings)).
  assert (Hloop : ∀ w1,
            result_of (loop w1) = Ok tt
            ∧ count_events is_upsert_call (trace_of (loop w1)) = length (take 20 filings)
            ∧ count_events is_warning (trace_of (loop w1)) = 0%nat).
  { intros w1. apply upsert_loop_spec. }
  clearbody loop. unfold_M. unfold call_service.
  destruct (create_client prov w) as [[[]|e] w1]; cbn [fst snd is_ok].
  - destruct (Hloop w1) as (Hr & Hu & Hw).
    destruct (loop w1) as [[r2 w2] tr2].
    revert Hr Hu Hw. simpl_run. intros -> Hu Hw. simpl_run.
    rewrite ?count_events_app, ?count_events_cons, ?count_events_nil.
    rewrite Hu, Hw, length_take. simpl. split; [done|]. split; lia.
  - simpl_run. done.
Qed.

(** *** Tickers the SEC enricher cannot clean *)

Lemma retry_static_failure {S A : Type} (func_name : string) (func : M S A)
    (s : S) (e : exn) :
  func s = (Raise e, s, []) →
  retry_on_failure 2 1%float func_name func s
  = (Raise e, s,
     [Log WARNING (AttemptFailed 1 func_name e); Sleep 1%float;
      Log WARNING (AttemptFailed 2 func_name e); Sleep 2%float;
      Log ERROR (AllAttemptsFailed 3 func_name)]).
Proof.
  intros Hf. unfold retry_on_failure, py_range. simpl. unfold_M.
  rewrite Hf. simpl. rewrite Hf. simpl. rewrite Hf. reflexivity.
Qed.

(** X19. A ticker that passes validation but cannot be split into words (a
    string of white space only, or a true value that is not a string) makes
    the SEC enricher raise before it reaches EDGAR: the failure comes from
    the cleaning of the ticker, outside the guarded block, so it is not
    logged by the enricher, no provider is called, and the wrapper replays
    it three times, sleeping 1 and 2 seconds, before raising it. *)
Theorem sec_unsplittable_ticker_raises {E : Type} (env : services E)
    (prov : providers E) (lookback_date : string) (company : dict) (w : E)
    (raw : pyval) :
  company !! "Ticker" = Some raw →
  truthy raw = true →
  (∀ s, raw = VStr s → py_split s = []) →
  ∃ e,
    SECFilingsEnricher.clean_ticker raw = Raise e
    ∧ SECFilingsEnricher.enrich env prov lookback_date company w
      = (Raise e, w,
         [Log WARNING (AttemptFailed 1 "enrich" e); Sleep 1%float;
          Log WARNING (AttemptFailed 2 "enrich" e); Sleep 2%float;
          Log ERROR (AllAttemptsFailed 3 "enrich")]).
Proof.
  intros Hraw Htruthy Hsplit.
  assert (He : ∃ e, SECFilingsEnricher.clean_ticker raw = Raise e).
  { unfold SECFilingsEnricher.clean_ticker. rewrite Htruthy.
    destruct raw as [| | | |s| |]; try by eexists.
    rewrite (Hsplit s eq_refl). by eexists. }
  destruct He as [e He]. exists e. split; [done|].
  apply retry_static_failure.
  unfold SECFilingsEnricher.enrich_once, BaseEnricher.validate_input, dict_get.
  rewrite Hraw. simpl. rewrite Htruthy. simpl.
  unfold_M. unfold lift_outcome. by rewrite He.
Qed.

Lemma sec_unsplittable_ticker_raises_witness :
  let env := Fixtures.test_services [] Fixtures.never_fails in
  ∃ e,
    SECFilingsEnricher.clean_ticker (VStr "   ") = Raise e
    ∧ SECFilingsEnricher.enrich env Fixtures.test_providers "2025-11-03"
        {[ "Ticker" := VStr "   " ]} Fixtures.w0
      = (Raise e, Fixtures.w0,
         [Log WARNING (AttemptFailed 1 "enrich" e); Sleep 1%float;
          Log WARNING (AttemptFailed 2 "enrich" e); Sleep 2%float;
          Log ERROR (AllAttemptsFailed 3 "enrich")]).
Proof.
  intros env.
  apply (sec_unsplittable_ticker_raises env Fixtures.test_providers "2025-11-03"
           {[ "Ticker" := VStr "   " ]} Fixtures.w0 (VStr "   ")).
  - reflexivity.
  - reflexivity.
  - intros s [= <-]. reflexivity.
Defined.

(** X20. A company EDGAR does not know is not an error: the SEC enricher
    asks EDGAR once, with the first word of the ticker, logs that the
    company was not found and returns the empty mapping, without fetching
    filings or touching the database. *)
Theorem sec_unknown_company_is_skipped {E : Type} (env : services E)
    (prov : providers E) (lookback_date : string) (company : dict) (w w1 : E)
    (s t : string) (rest : list string) :
  company !! "Ticker" = Some (VStr s) →
  py_split s = t :: rest →
  edgar_company prov t w = (Ok None, w1) →
  SECFilingsEnricher.enrich env prov lookback_date company w
  = (Ok ∅, w1,
     [Log INFO (SecFetching (VStr t) (VStr s)); Call "edgar.Company" [VStr t];
      Log INFO (SecNotFound (VStr t))]).
Proof.
  intros Hraw Hsplit Hedgar.
  assert (Hs : truthy (VStr s) = true).
  { simpl. destruct s; [by vm_compute in Hsplit|done]. }
  apply retry_first_success; [lia|].
  unfold SECFilingsEnricher.enrich_once, BaseEnricher.validate_input, dict_get.
  rewrite Hraw. cbn [default]. unfold id. rewrite Hs. cbn [negb].
  unfold SECFilingsEnricher.clean_ticker. rewrite Hs, Hsplit.
  unfold_M. unfold lift_outcome, call_service. cbn [fst snd].
  rewrite Hedgar. reflexivity.
Qed.

Lemma sec_unknown_company_is_skipped_witness :
  let env := Fixtures.test_services [] Fixtures.never_fails in
  let raw := ("SAP" ++ nbsp ++ "GY Equity")%string in
  SECFilingsEnricher.enrich env unknown_to_edgar "2025-11-03"
    (Fixtures.company raw) Fixtures.w0
  = (Ok ∅, Fixtures.bump Fixtures.w0,
     [Log INFO (SecFetching (VStr "SAP") (VStr raw));
      Call "edgar.Company" [VStr "SAP"];
      Log INFO (SecNotFound (VStr "SAP"))]).
Proof.
  intros env raw.
  apply (sec_unknown_company_is_skipped env unknown_to_edgar "2025-11-03"
           (Fixtures.company raw) Fixtures.w0 (Fixtures.bump Fixtures.w0)
           raw "SAP" ["GY"; "Equity"]).
  - reflexivity.
  - reflexivity.
  - reflexivity.
Defined.

(** The characters of a string are not empty, and put together they give
    the string back. *)
Lemma chars_nonempty (l : list ascii) : Forall (λ ch, ch ≠ []) (chars l).
Proof.
  induction l as [|c l IH]; [constructor|].
  cbn [chars]. destruct l as [|d l]; [by repeat constructor|].
  destruct (is_continuation d); [|by constructor].
  destruct (chars (d :: l)) as [|ch chs]; [by repeat constructor|].
  apply Forall_cons in IH as [_ IH]. by constructor.
Qed.

Lemma concat_chars (l : list ascii) : concat (chars l) = l.
Proof.
  induction l as [|c l IH]; [done|].
  cbn [chars]. destruct l as [|d l]; [done|].
  destruct (is_continuation d); [|by rewrite <- IH at 2].
  destruct (chars (d :: l)) as [|ch chs]; [done|].
  rewrite <- IH. reflexivity.
Qed.

(** Inside a word: the word runs up to the next white space. *)
Lemma split_words_in_word (l : list (list ascii)) :
  ∀ cur w,
    cur ≠ [] →
    head (split_words l cur) = Some w →
    ∃ wd post,
      l = wd ++ post
      ∧ w = concat (reverse cur ++ wd)
      ∧ Forall (λ c, is_space c = false) wd
      ∧ starts_with_space post.
Proof.
  induction l as [|c l IH]; intros cur w Hcur Hw.
  - destruct cur as [|c0 cur]; [done|]. injection Hw as <-.
    exists [], []. split; [done|]. split; [by rewrite app_nil_r|].
    split; [constructor|by left].
  - cbn [split_words] in Hw. destruct (is_space c) eqn:Hsp.
    + destruct cur as [|c0 cur]; [done|]. injection Hw as <-.
      exists [], (c :: l). split; [done|]. split; [by rewrite app_nil_r|].
      split; [constructor|]. right. by exists c, l.
    + destruct (IH (c :: cur) w ltac:(done) Hw) as (wd & post & -> & -> & Hwd & Hpost).
      exists (c :: wd), post. split; [done|]. split.
      * by rewrite reverse_cons, <- app_assoc.
      * split; [by constructor|done].
Qed.

(** Between words: white space is skipped up to the first word. *)
Lemma split_words_first (l : list (list ascii)) (w : list ascii) :
  head (split_words l []) = Some w →
  ∃ pre wd post,
    l = pre ++ wd ++ post
    ∧ w = concat wd
    ∧ Forall (λ c, is_space c = true) pre
    ∧ wd ≠ []
    ∧ Forall (λ c, is_space c = false) wd
    ∧ starts_with_space post.
Proof.
  induction l as [|c l IH]; intros Hw; [done|].
  cbn [split_words] in Hw. destruct (is_space c) eqn:Hsp.
  - destruct (IH Hw) as (pre & wd & post & -> & -> & Hpre & Hne & Hwd & Hpost).
    exists (c :: pre), wd, post. repeat split; try done. by constructor.
  - destruct (split_words_in_word l [c] w ltac:(done) Hw)
      as (wd & post & -> & -> & Hwd & Hpost).
    exists [], (c :: wd), post. repeat split; try done; by constructor.
Qed.

(** X21. What the SEC enricher hands to EDGAR is the first word of the
    ticker: when the cleaning succeeds on a true value, that value is a
    string, and the result is the first of its white-space separated words.
    The characters of the ticker are white space, then the characters of the
    result, of which there is at least one and none is white space, then
    nothing or a white-space character and what follows it. *)
Theorem clean_ticker_is_first_word (raw v : pyval) :
  truthy raw = true →
  SECFilingsEnricher.clean_ticker raw = Ok v →
  ∃ s t,
    raw = VStr s ∧ v = VStr t
    ∧ head (py_split s) = Some t
    ∧ t ≠ ""
    ∧ ∃ pre wd post,
        chars (list_ascii_of_string s) = pre ++ wd ++ post
        ∧ list_ascii_of_string t = concat wd
        ∧ Forall (λ c, is_space c = true) pre
        ∧ wd ≠ []
        ∧ Forall (λ c, is_space c = false) wd
        ∧ (post = [] ∨ ∃ c post', post = c :: post' ∧ is_space c = true).
Proof.
  intros Htruthy. unfold SECFilingsEnricher.clean_ticker. rewrite Htruthy.
  destruct raw as [| | | |s| |]; try done.
  destruct (py_split s) as [|t rest] eqn:Hsplit; [done|].
  intros Hv%Ok_inj. subst v. exists s, t. split; [done|]. split; [done|].
  split; [by rewrite Hsplit|].
  unfold py_split in Hsplit.
  destruct (split_words (chars (list_ascii_of_string s)) []) as [|w ws] eqn:Hw; [done|].
  cbn [fmap list_fmap] in Hsplit. injection Hsplit as <- _.
  destruct (split_words_first (chars (list_ascii_of_string s)) w)
    as (pre & wd & post & Hs & -> & Hpre & Hne & Hwd & Hpost); [by rewrite Hw|].
  pose proof (chars_nonempty (list_ascii_of_string s)) as Hch.
  rewrite Hs in Hch. apply Forall_app in Hch as [_ Hch].
  apply Forall_app in Hch as [Hch _].
  split.
  - intros Hempty. apply (f_equal list_ascii_of_string) in Hempty.
    rewrite list_ascii_of_string_of_list_ascii in Hempty.
    destruct wd as [|[|c ch] wd]; [done| |done].
    by apply Forall_cons in Hch as [? _].
  - exists pre, wd, post. rewrite list_ascii_of_string_of_list_ascii.
    repeat split; done.
Qed.

Lemma clean_ticker_is_first_word_witness :
  ∃ s t,
    VStr ("  BRK.B" ++ nbsp ++ "US Equity")%string = VStr s ∧ VStr "BRK.B" = VStr t
    ∧ head (py_split s) = Some t
    ∧ t ≠ ""
    ∧ ∃ pre wd post,
        chars (list_ascii_of_string s) = pre ++ wd ++ post
        ∧ list_ascii_of_string t = concat wd
        ∧ Forall (λ c, is_space c = true) pre
        ∧ wd ≠ []
        ∧ Forall (λ c, is_space c = false) wd
        ∧ (post = [] ∨ ∃ c post', post = c :: post' ∧ is_space c = true).
Proof.
  apply (clean_ticker_is_first_word (VStr ("  BRK.B" ++ nbsp ++ "US Equity")%string)
           (VStr "BRK.B")).
  - reflexivity.
  - reflexivity.
Defined.

(** ** The LLM enricher *)

(** X22. Parsing the model's answer never raises and has no effect on the
    world: it yields the parsed object when the answer is a string whose
    text, stripped of white space and code fences, parses to a JSON object,
    and [None] in every other case (no text, invalid JSON, a JSON value that
    is not an object, any other failure of the parser). *)
Theorem parse_llm_response_never_raises {E : Type} (prov : providers E)
    (response_text : pyval) (w : E) :
  let r := LLMInvestorInformationEnricher._parse_llm_response prov response_text w in
  result_of r
  = Ok (match response_text with
        | VStr s =>
            match json_loads prov (LLMInvestorInformationEnricher.unfence s) with
            | Ok (VDict d) => Some d
            | _ => None
            end
        | _ => None
        end)
  ∧ state_of r = w
  ∧ count_events is_call (trace_of r) = 0%nat.
Proof.
  cbv zeta. unfold LLMInvestorInformationEnricher._parse_llm_response.
  unfold_M. unfold lift_outcome.
  destruct response_text as [| | | |s| |]; try done.
  destruct (json_loads prov (LLMInvestorInformationEnricher.unfence s))
    as [[| | | | | |d]|[]]; done.
Qed.

Lemma nonempty_of_lookup (d : dict) (k : string) (v : pyval) :
  d !! k = Some v → negb (size d =? 0)%nat = true.
Proof.
  intros Hk. apply negb_true_iff, Nat.eqb_neq. intros Hz.
  apply map_size_empty_iff in Hz. subst d. by rewrite lookup_empty in Hk.
Qed.

Lemma parse_llm_response_state {E : Type} (prov : providers E)
    (response_text : pyval) (w : E) :
  state_of (LLMInvestorInformationEnricher._parse_llm_response prov response_text w) = w.
Proof.
  unfold LLMInvestorInformationEnricher._parse_llm_response.
  unfold_M. unfold lift_outcome.
  destruct response_text as [| | | |s| |]; try done.
  destruct (json_loads prov (LLMInvestorInformationEnricher.unfence s))
    as [[| | | | | |d]|[]]; done.
Qed.

(** X23. An answer that follows the prompt's instruction to use [null] for
    what could not be found breaks the enricher: when the parsed object
    maps ["corporate_presentation_urls"] to [null], taking its length raises
    a [TypeError], which the enricher logs and raises at every attempt. *)
Theorem llm_null_presentations_raise {E : Type} (env : services E)
    (prov : providers E) (company : dict) (w w1 : E) (ticker text : pyval) (d : dict) :
  company !! "Ticker" = Some ticker →
  truthy ticker = true →
  generate_content prov LLMInvestorInformationEnricher.model
    (format_prompt prov (dict_get_default company "Security" ticker) ticker) w
  = (Ok text, w1) →
  result_of (LLMInvestorInformationEnricher._parse_llm_response prov text w1)
  = Ok (Some d) →
  d !! "corporate_presentation_urls" = Some VNone →
  let r := LLMInvestorInformationEnricher.enrich_once env prov company w in
  result_of r = Raise (TypeError "object has no len()")
  ∧ last (trace_of r)
    = Some (Log ERROR (LlmFailed ticker (TypeError "object has no len()"))).
Proof.
  intros Hticker Htruthy Hgen Hparse Hnull. cbv zeta.
  unfold LLMInvestorInformationEnricher.enrich_once, BaseEnricher.validate_input, dict_get.
  rewrite Hticker. cbn [default]. unfold id. rewrite Htruthy. cbn [negb].
  pose proof (parse_llm_response_state prov text w1) as Hs.
  unfold_M. unfold call_service, lift_outcome. rewrite Hgen. cbn [fst snd].
  unfold result_of, state_of in *.
  destruct (LLMInvestorInformationEnricher._parse_llm_response prov text w1)
    as [[r2 w2] tr2]. cbn [fst snd] in *. subst r2 w2.
  rewrite (nonempty_of_lookup _ _ _ Hnull).
  unfold dict_get_default. rewrite Hnull. cbn [default py_len]. unfold id.
  cbn [fst snd]. split; [done|].
  unfold trace_of. cbv beta iota zeta delta [py_len fst snd].
  by repeat (rewrite last_cons || rewrite last_app).
Qed.

Lemma llm_null_presentations_raise_witness :
  let env := Fixtures.test_services [] Fixtures.never_fails in
  let r := LLMInvestorInformationEnricher.enrich_once env null_answer
             (Fixtures.company "AAPL") Fixtures.w0 in
  result_of r = Raise (TypeError "object has no len()")
  ∧ last (trace_of r)
    = Some (Log ERROR (LlmFailed (VStr "AAPL") (TypeError "object has no len()"))).
Proof.
  intros env.
  apply (llm_null_presentations_raise env null_answer (Fixtures.company "AAPL")
           Fixtures.w0 (Fixtures.bump Fixtures.w0) (VStr "AAPL") (VStr "{...}")
           {[ "primary_website" := VStr "https://www.apple.com";
              "investor_section_url" := VNone;
              "corporate_presentation_urls" := VNone ]}).
  - reflexivity.
  - reflexivity.
  - reflexivity.
  - reflexivity.
  - reflexivity.
Defined.

Lemma llm_metadata_kept (a b c : pyval) (n : Z) (m ts : string) :
  let r := clean_none
             {[ "llm_primary_website" := a;
                "llm_investor_section_url" := b;
                "llm_corporate_presentations" := c;
                "llm_presentations_count" := VInt n;
                "llm_enrichment_model" := VStr m;
                "llm_last_updated" := VStr ts ]} in
  r !! "llm_presentations_count" = Some (VInt n)
  ∧ r !! "llm_enrichment_model" = Some (VStr m)
  ∧ r !! "llm_last_updated" = Some (VStr ts).
Proof.
  cbv zeta. unfold clean_none. repeat split.
  all: apply map_lookup_filter_Some_2; [|done].
  all: repeat (rewrite lookup_insert_ne by done).
  all: apply lookup_insert_eq.
Qed.

Lemma py_len_nonneg (v : pyval) (n : Z) : py_len v = Ok n → 0 ≤ n.
Proof. destruct v; simpl; intros [= <-]; lia. Qed.

(** X24. Whenever the LLM enricher returns something, it returns its three
    bookkeeping fields with it: the number of presentations (never
    negative), the model's name and the time stamp. Its result is therefore
    either empty or a mapping the pipeline will buffer. *)
Theorem llm_result_carries_metadata {E : Type} (env : services E)
    (prov : providers E) (company : dict) (w : E) (r : dict) :
  result_of (LLMInvestorInformationEnricher.enrich env prov company w) = Ok r →
  r = ∅
  ∨ ((∃ n, r !! "llm_presentations_count" = Some (VInt n) ∧ 0 ≤ n)
     ∧ r !! "llm_enrichment_model" = Some (VStr LLMInvestorInformationEnricher.model)
     ∧ ∃ ts, r !! "llm_last_updated" = Some (VStr ts)).
Proof.
  intros Hr. apply retry_loop_result in Hr as [w' Hr]. revert Hr.
  unfold LLMInvestorInformationEnricher.enrich_once.
  destruct (negb _); [intros <-%Ok_inj; by left|].
  unfold LLMInvestorInformationEnricher._get_current_timestamp, now, lift_outcome.
  unfold_M. unfold call_service, result_of.
  destruct (generate_content prov _ _ w') as [[text|e] w1]; red_run; [|done].
  destruct (LLMInvestorInformationEnricher._parse_llm_response prov text w1)
    as [[[[investor_data|]|e] w2] tr2]; red_run; [| |done].
  - destruct (negb (size investor_data =? 0)%nat); red_run.
    + destruct (py_len _) as [count|e] eqn:Hlen; red_run; [|done].
      destruct (clock env w2) as [t w3]. red_run.
      intros <-%Ok_inj. right.
      destruct (llm_metadata_kept (dict_get investor_data "primary_website")
                  (dict_get investor_data "investor_section_url")
                  (dict_get investor_data "corporate_presentation_urls")
                  count LLMInvestorInformationEnricher.model (isoformat env t))
        as (H1 & H2 & H3).
      split; [|split; [exact H2|by eexists]].
      exists count. split; [exact H1|]. by apply py_len_nonneg in Hlen.
    + intros <-%Ok_inj. by left.
  - intros <-%Ok_inj. by left.
Qed.

Lemma llm_result_carries_metadata_witness :
  let env := Fixtures.test_services [] Fixtures.never_fails in
  ∃ r,
    result_of (LLMInvestorInformationEnricher.enrich env one_presentation
                 (Fixtures.company "AAPL") Fixtures.w0) = Ok r
    ∧ (r = ∅
       ∨ ((∃ n, r !! "llm_presentations_count" = Some (VInt n) ∧ 0 ≤ n)
          ∧ r !! "llm_enrichment_model"
            = Some (VStr LLMInvestorInformationEnricher.model)
          ∧ ∃ ts, r !! "llm_last_updated" = Some (VStr ts))).
Proof.
  intros env.
  pose (r := match result_of (LLMInvestorInformationEnricher.enrich env one_presentation
                                (Fixtures.company "AAPL") Fixtures.w0) with
             | Ok r => r
             | Raise _ => ∅
             end).
  assert (Hr : result_of (LLMInvestorInformationEnricher.enrich env one_presentation
                            (Fixtures.company "AAPL") Fixtures.w0) = Ok r)
    by (vm_compute; reflexivity).
  exists r. split; [exact Hr|].
  exact (llm_result_carries_metadata env one_presentation (Fixtures.company "AAPL")
           Fixtures.w0 r Hr).
Defined.

(** ** The market-data enricher *)

Lemma clean_none_lookup (d : dict) (k : string) :
  clean_none d !! k
  = match d !! k with
    | Some v => if is_none v then None else Some v
    | None => None
    end.
Proof.
  unfold clean_none. destruct (d !! k) as [v|] eqn:Hk.
  - destruct (is_none v) eqn:Hv.
    + apply map_lookup_filter_None. right. intros x Hx. simpl.
      rewrite Hk in Hx. injection Hx as <-. by rewrite Hv.
    + by apply map_lookup_filter_Some_2.
  - apply map_lookup_filter_None. by left.
Qed.

(** X25. A failing or empty price history never fails the market-data
    enrichment: once the company's info has been fetched the enricher
    returns, the average traded value is simply absent from the result, and
    the fields found in the info are passed on. *)
Theorem yahoo_history_failure_is_swallowed {E : Type} (prov : providers E)
    (company : dict) (w w1 : E) (ticker : pyval) (info : dict) :
  company !! "Ticker" = Some ticker →
  truthy ticker = true →
  yf_info prov ticker w = (Ok info, w1) →
  (∀ volume price, (yf_history prov ticker w1).1 ≠ Ok (Some (volume, price))) →
  ∃ r,
    result_of (YahooFinanceEnricher.enrich_once prov company w) = Ok r
    ∧ r !! "Avg D Val Traded 3M" = None
    ∧ ∀ v, info !! "marketCap" = Some v → is_none v = false →
           r !! "Market Cap" = Some v.
Proof.
  intros Hticker Htruthy Hinfo Hhist.
  unfold YahooFinanceEnricher.enrich_once, BaseEnricher.validate_input, dict_get.
  rewrite Hticker. cbn [default]. unfold id. rewrite Htruthy. cbn [negb].
  unfold YahooFinanceEnricher._calculate_avg_volume_value.
  unfold_M. unfold call_service, result_of. rewrite Hinfo. red_run.
  destruct (yf_history prov ticker w1) as [[[[volume price]|]|e] w2] eqn:Hh;
    [by destruct (Hhist volume price)| |]; red_run.
  all: eexists; split; [reflexivity|]; rewrite !clean_none_lookup; split.
  all: try (repeat (rewrite lookup_insert_ne by done); by rewrite lookup_insert_eq).
  all: intros v Hv Hnone; rewrite lookup_insert_eq, Hv; cbn [default]; unfold id;
    by rewrite Hnone.
Qed.

Lemma yahoo_history_failure_is_swallowed_witness :
  ∃ r,
    result_of (YahooFinanceEnricher.enrich_once one_presentation
                 (Fixtures.company "AAPL") Fixtures.w0) = Ok r
    ∧ r !! "Avg D Val Traded 3M" = None
    ∧ ∀ v, ({[ "marketCap" := VInt 100; "sector" := VStr "Technology" ]} : dict)
             !! "marketCap" = Some v →
           is_none v = false → r !! "Market Cap" = Some v.
Proof.
  apply (yahoo_history_failure_is_swallowed one_presentation (Fixtures.company "AAPL")
           Fixtures.w0 (Fixtures.bump Fixtures.w0) (VStr "AAPL")
           {[ "marketCap" := VInt 100; "sector" := VStr "Technology" ]}).
  - reflexivity.
  - reflexivity.
  - reflexivity.
  - intros volume price. vm_compute. discriminate.
Defined.

(** ** The base enricher *)

(** X26. An enricher that does not override [enrich] fails on every
    company, eligible or not (the base method does not validate its input):
    the wrapper runs it three times, sleeping 1 and then 2 seconds, and
    raises [NotImplementedError], leaving the world untouched. *)
Theorem base_enrich_always_fails {E : Type} (company : dict) (w : E) :
  BaseEnricher.enrich company w
  = (Raise NotImplementedError, w,
     [Log WARNING (AttemptFailed 1 "enrich" NotImplementedError); Sleep 1%float;
      Log WARNING (AttemptFailed 2 "enrich" NotImplementedError); Sleep 2%float;
      Log ERROR (AllAttemptsFailed 3 "enrich")]).
Proof. unfold BaseEnricher.enrich. by apply retry_static_failure. Qed.

(** ** Flushes after a failure *)



